(** * CasMVSNet_pl, [models/modules.py]: tensor model and verified properties

    The module is numerical glue over torch tensors.  A tensor is modelled as
    torch presents it: a dtype label, a shape and the row-major list of its
    entries.  Operations that torch checks (broadcasting, reshape, indexing)
    return a [result], with the Python exception they raise.

    Entries live in a scalar type given by the class [Scalar].  Two instances
    are used:
    - [qnum], exact rational arithmetic, with [Undef] where a division by zero
      leaves the rationals (IEEE gives an infinity or a NaN there);
    - [float], IEEE binary64 (the arithmetic of [torch.float64] tensors and of
      Python floats), through Rocq's primitive floats.
    The dtype is carried as a label only: no rounding is attached to it.
    A tensor also carries its strides, which decide whether [view]
    succeeds.  The operations that return a view of their argument (permute,
    slice, select, expand, unsqueeze, view) give the strides torch gives; an
    operation that computes a new tensor gives a contiguous one.  Where
    sharing of memory matters (the in-place writes of [homo_warp]) the
    storages are modelled explicitly, in the last part of the
    definitions. *)

From Stdlib Require Import ZArith QArith Qcanon Qround Lia Bool.
From Stdlib Require Import Uint63 Floats.
From stdpp Require Import base option list gmap.

(** ** Scalars *)

Class Scalar (K : Type) := {
  sadd : K -> K -> K;
  ssub : K -> K -> K;
  smul : K -> K -> K;
  sdiv : K -> K -> K;
  (** conversion of a Python int (also the entries of [torch.arange]) *)
  of_Z : Z -> K;
  (** [floor] as an integer; [None] when the value is not finite *)
  sfloor : K -> option Z;
  (** the comparison [<] *)
  slt : K -> K -> bool;
}.

(** Exact rationals.  [Undef] is what a division by zero gives, and it is
    absorbing: the exact model tracks no value behind it. *)
Inductive qnum : Type :=
  | Fin (q : Qc)
  | Undef.

Definition Qc_is_zero (q : Qc) : bool := (Qnum (this q) =? 0)%Z.

Definition qnum_lift2 (f : Qc -> Qc -> Qc) (a b : qnum) : qnum :=
  match a, b with
  | Fin x, Fin y => Fin (f x y)
  | _, _ => Undef
  end.

Definition qnum_div (a b : qnum) : qnum :=
  match a, b with
  | Fin x, Fin y => if Qc_is_zero y then Undef else Fin (x / y)%Qc
  | _, _ => Undef
  end.

Definition qnum_floor (a : qnum) : option Z :=
  match a with
  | Fin x => Some (Qfloor (this x))
  | Undef => None
  end.

Definition qnum_lt (a b : qnum) : bool :=
  match a, b with
  | Fin x, Fin y =>
      match (this x ?= this y)%Q with Lt => true | _ => false end
  | _, _ => false
  end.

Definition qnum_eqb (a b : qnum) : bool :=
  match a, b with
  | Fin x, Fin y => Qeq_bool (this x) (this y)
  | Undef, Undef => true
  | _, _ => false
  end.

Definition Zq (z : Z) : Qc := Q2Qc (inject_Z z).

#[export] Instance qnum_scalar : Scalar qnum := {|
  sadd := qnum_lift2 Qcplus;
  ssub := qnum_lift2 Qcminus;
  smul := qnum_lift2 Qcmult;
  sdiv := qnum_div;
  of_Z := fun z => Fin (Zq z);
  sfloor := qnum_floor;
  slt := qnum_lt;
|}.

(** IEEE binary64.  [float_of_Z] is exact for the integers used here
    (below 2^53 in absolute value), as Python's int to float conversion is. *)
Definition float_of_Z (z : Z) : float :=
  match z with
  | Z0 => PrimFloat.zero
  | Zpos _ => PrimFloat.of_uint63 (Uint63.of_Z z)
  | Zneg p => PrimFloat.opp (PrimFloat.of_uint63 (Uint63.of_Z (Zpos p)))
  end.

Definition float_floor (x : float) : option Z :=
  match Prim2SF x with
  | S754_zero _ => Some 0%Z
  | S754_finite s m e =>
      let v := if s then Zneg m else Zpos m in
      Some (match e with
            | Zneg k => v / Zpos (2 ^ k)
            | _ => v * 2 ^ e
            end)%Z
  | S754_infinity _ => None
  | S754_nan => None
  end.

#[export] Instance float_scalar : Scalar float := {|
  sadd := PrimFloat.add;
  ssub := PrimFloat.sub;
  smul := PrimFloat.mul;
  sdiv := PrimFloat.div;
  of_Z := float_of_Z;
  sfloor := float_floor;
  slt := PrimFloat.ltb;
|}.

(** ** Python exceptions and results *)

Inductive exn : Type :=
  | RuntimeError     (* torch: shapes that do not broadcast, bad reshape, ... *)
  | AttributeError   (* attribute access on an object that lacks it *)
  | IndexError       (* too many indices, dimension out of range *)
  | ValueError.      (* tuple unpacking of the wrong length *)

Inductive result (A : Type) : Type :=
  | Ok (a : A)
  | Raise (e : exn).
Arguments Ok {A} a.
Arguments Raise {A} e.

#[export] Instance result_ret : MRet result := fun A a => Ok a.
#[export] Instance result_bind : MBind result := fun A B f r =>
  match r with
  | Ok a => f a
  | Raise e => Raise e
  end.

#[export] Instance result_fmap : FMap result := fun A B f r =>
  match r with
  | Ok a => Ok (f a)
  | Raise e => Raise e
  end.

Definition is_Ok {A} (r : result A) : bool :=
  match r with Ok _ => true | Raise _ => false end.

(** ** Tensors *)

Inductive dtype : Type := Float16 | Float32 | Float64.

(** torch's type promotion between floating dtypes: the wider one. *)
Definition promote (a b : dtype) : dtype :=
  match a, b with
  | Float64, _ | _, Float64 => Float64
  | Float32, _ | _, Float32 => Float32
  | Float16, Float16 => Float16
  end.

Definition dtype_eqb (a b : dtype) : bool :=
  match a, b with
  | Float16, Float16 | Float32, Float32 | Float64, Float64 => true
  | _, _ => false
  end.

Definition numel (s : list nat) : nat := foldr Nat.mul 1 s.

Record tensor (K : Type) : Type := mkStrided {
  t_dtype : dtype;
  shape : list nat;
  data : list K;        (* the entries, in row-major order of the indices *)
  strides : list nat;   (* [t.stride()]: the memory step along each dimension *)
}.
Arguments mkStrided {K} t_dtype shape data strides.
Arguments t_dtype {K} t.
Arguments shape {K} t.
Arguments data {K} t.
Arguments strides {K} t.

(** The strides of a contiguous (row-major) tensor with elements. *)
Fixpoint contiguous_strides (s : list nat) : list nat :=
  match s with
  | [] => []
  | _ :: s' => numel s' :: contiguous_strides s'
  end.

(** A contiguous tensor. *)
Abbreviation mkTensor dt s d := (mkStrided dt s d (contiguous_strides s)).

(** [t.is_contiguous()]: a tensor without elements is, and otherwise every
    dimension of size other than 1 has the row-major stride. *)
Fixpoint contiguous_from (s st : list nat) : bool :=
  match s, st with
  | [], [] => true
  | n :: s', k :: st' => ((n =? 1) || (k =? numel s')) && contiguous_from s' st'
  | _, _ => false
  end.

Definition is_contiguous {K} (t : tensor K) : bool :=
  (numel (shape t) =? 0) || contiguous_from (shape t) (strides t).

Definition ndim {K} (t : tensor K) : nat := length (shape t).

(** Well-formed: as many entries as the shape says. *)
Definition wf {K} (t : tensor K) : bool := length (data t) =? numel (shape t).

(** All multi-indices of a shape, in row-major order. *)
Fixpoint indices (s : list nat) : list (list nat) :=
  match s with
  | [] => [[]]
  | n :: s' => i ← seq 0 n; (i ::.) <$> indices s'
  end.

(** Row-major offset of a multi-index. *)
Fixpoint ravel (s idx : list nat) : nat :=
  match s, idx with
  | n :: s', i :: idx' => i * numel s' + ravel s' idx'
  | _, _ => 0
  end.

Fixpoint in_bounds (s idx : list nat) : bool :=
  match s, idx with
  | [], [] => true
  | n :: s', i :: idx' => (i <? n) && in_bounds s' idx'
  | _, _ => false
  end.

(** The tensor of shape [s] and strides [st] whose entry at [idx] is [f idx]. *)
Definition tabulate_st {K} (dt : dtype) (s st : list nat) (f : list nat -> K) : tensor K :=
  mkStrided dt s (f <$> indices s) st.

(** The same, contiguous: what an operation that computes a new tensor
    returns. *)
Abbreviation tabulate dt s f := (tabulate_st dt s (contiguous_strides s) f).

(** *** Strides and views *)

(** The multi-index of the [n]-th entry in row-major order. *)
Fixpoint unravel (s : list nat) (n : nat) : list nat :=
  match s with
  | [] => []
  | _ :: s' => n / numel s' :: unravel s' (n mod numel s')
  end.

(** Memory position of an index, relative to the first entry. *)
Definition offset (st idx : list nat) : nat :=
  foldr Nat.add 0 (zip_with Nat.mul idx st).

(** Memory position of the [n]-th entry of a tensor of shape [s] and
    strides [st]. *)
Definition position (s st : list nat) (n : nat) : nat := offset st (unravel s n).

(** The strides under which a tensor of shape [s] and strides [st] is seen
    with shape [s'] (of as many entries) without moving an entry, if there
    are any: a contiguous tensor is seen contiguous; otherwise the step along
    each new dimension is read off the old layout, and every entry must keep
    its position. *)
Definition view_strides (s st s' : list nat) : option (list nat) :=
  if (numel s =? 0) || contiguous_from s st then Some (contiguous_strides s')
  else
    let cand := (fun c => if c <? numel s then position s st c else c)
                  <$> contiguous_strides s' in
    if forallb (fun n => position s' cand n =? position s st n) (seq 0 (numel s))
    then Some cand
    else None.

Section Tensor.
Context {K : Type} {SK : Scalar K}.

Definition tget (t : tensor K) (idx : list nat) : option K :=
  if in_bounds (shape t) idx then data t !! ravel (shape t) idx else None.

(** Entry at an index, [0] outside the tensor. *)
Definition tnth (t : tensor K) (idx : list nat) : K :=
  default (of_Z 0) (tget t idx).

Definition tmap (f : K -> K) (t : tensor K) : tensor K :=
  mkTensor (t_dtype t) (shape t) (f <$> data t).

(** *** Broadcasting *)

(** One dimension of the broadcast shape. *)
Definition bdim2 (a b : nat) : option nat :=
  if a =? b then Some a
  else if a =? 1 then Some b
  else if b =? 1 then Some a
  else None.

(** Broadcast of two shapes given innermost dimension first. *)
Fixpoint bshape_rev (r1 r2 : list nat) : option (list nat) :=
  match r1, r2 with
  | [], r | r, [] => Some r
  | a :: r1', b :: r2' =>
      c ← bdim2 a b; r ← bshape_rev r1' r2'; Some (c :: r)
  end.

Definition bshape (s1 s2 : list nat) : option (list nat) :=
  reverse <$> bshape_rev (reverse s1) (reverse s2).

(** The operand's coordinate along one dimension: a dimension of size 1
    is read at 0 whatever the index of the result. *)
Definition bdim (n i : nat) : nat := if n =? 1 then 0 else i.

(** The operand's index for an index of the broadcast result: the
    leading dimensions the operand lacks are dropped. *)
Definition bidx (s idx : list nat) : list nat :=
  zip_with bdim s (drop (length idx - length s) idx).

(** The dtype of an elementwise result: a tensor of rank 0 meeting one of
    higher rank does not take part in the promotion. *)
Definition result_dtype (a b : tensor K) : dtype :=
  match shape a, shape b with
  | [], _ :: _ => t_dtype b
  | _ :: _, [] => t_dtype a
  | _, _ => promote (t_dtype a) (t_dtype b)
  end.

Definition binop (f : K -> K -> K) (a b : tensor K) : result (tensor K) :=
  match bshape (shape a) (shape b) with
  | Some s =>
      Ok (tabulate (result_dtype a b) s
            (fun idx => f (tnth a (bidx (shape a) idx))
                          (tnth b (bidx (shape b) idx))))
  | None => Raise RuntimeError
  end.

(** *** Shape operations *)

(** torch's [infer_size]: at most one entry [-1], inferred from the
    number of elements. *)
Definition infer_size (n : nat) (spec : list Z) : option (list nat) :=
  if existsb (fun z => (z <? -1)%Z) spec then None
  else
    let known := List.filter (fun z => negb (z =? -1)%Z) spec in
    let newsize := numel (Z.to_nat <$> known) in
    match length spec - length known with
    | 0 => if n =? newsize then Some (Z.to_nat <$> spec) else None
    | 1 =>
        if (0 <? newsize) && (n mod newsize =? 0)
        then Some ((fun z => if (z =? -1)%Z then n / newsize else Z.to_nat z) <$> spec)
        else None
    | _ => None
    end.

(** [t.view(spec)]: the entries in row-major order under a new shape, on
    the same memory; an error when the strides do not allow it. *)
Definition view (spec : list Z) (t : tensor K) : result (tensor K) :=
  match infer_size (numel (shape t)) spec with
  | Some s =>
      match view_strides (shape t) (strides t) s with
      | Some st => Ok (mkStrided (t_dtype t) s (data t) st)
      | None => Raise RuntimeError
      end
  | None => Raise RuntimeError
  end.

(** [t.reshape(spec)]: a view where the strides allow it, a contiguous copy
    where they do not. *)
Definition reshape (spec : list Z) (t : tensor K) : result (tensor K) :=
  match infer_size (numel (shape t)) spec with
  | Some s =>
      Ok (mkStrided (t_dtype t) s (data t)
            (default (contiguous_strides s) (view_strides (shape t) (strides t) s)))
  | None => Raise RuntimeError
  end.

(** [t.unsqueeze(d)] *)
Definition unsqueeze (d : nat) (t : tensor K) : result (tensor K) :=
  if d <=? ndim t
  then Ok (mkStrided (t_dtype t) (take d (shape t) ++ 1 :: drop d (shape t)) (data t)
             (take d (strides t)
              ++ match shape t !! d, strides t !! d with
                 | Some n, Some k => n * k
                 | _, _ => 1
                 end :: drop d (strides t)))
  else Raise IndexError.

(** [torch.arange(0, n, dtype=dt)] *)
Definition arange (n : nat) (dt : dtype) : tensor K :=
  tabulate dt [n] (fun idx => of_Z (Z.of_nat (hd 0 idx))).

(** Sum of a list of scalars, accumulated from 0 in list order. *)
Definition ssum (l : list K) : K := foldl sadd (of_Z 0) l.

(** *** Indexing *)

(** [t.shape[d]] *)
Definition shape_at (t : tensor K) (d : nat) : result nat :=
  match shape t !! d with
  | Some n => Ok n
  | None => Raise IndexError
  end.

(** [B, C, H, W = t.shape] *)
Definition unpack4 (t : tensor K) : result (nat * nat * nat * nat) :=
  match shape t with
  | [b; c; h; w] => Ok (b, c, h, w)
  | _ => Raise ValueError
  end.

(** Bounds of a Python slice [lo:hi] on a dimension of size [n]: negative
    positions count from the end, and both ends are clamped. *)
Definition slice_pos (n : nat) (z : Z) : nat :=
  if (z <? 0)%Z then Z.to_nat (z + Z.of_nat n) else Z.to_nat z `min` n.

(** [t[:, ..., lo:hi]] with the slice on dimension [d] *)
Definition slice (d : nat) (lo : Z) (hi : option Z) (t : tensor K)
    : result (tensor K) :=
  match shape t !! d with
  | Some n =>
      let start := slice_pos n lo in
      let stop := from_option (slice_pos n) n hi in
      Ok (tabulate_st (t_dtype t) (<[d := stop - start]> (shape t)) (strides t)
            (fun idx => tnth t (<[d := idx !!! d + start]> idx)))
  | None => Raise IndexError
  end.

(** [t[:, ..., i]] with the integer index on dimension [d] *)
Definition select (d i : nat) (t : tensor K) : result (tensor K) :=
  match shape t !! d with
  | Some n =>
      if i <? n
      then Ok (tabulate_st (t_dtype t) (delete d (shape t)) (delete d (strides t))
                 (fun idx => tnth t (take d idx ++ i :: drop d idx)))
      else Raise IndexError
  | None => Raise IndexError
  end.

(** [t[:, ..., i] = v], as the tensor [t] holds afterwards: [v] is
    broadcast to the selected slice. *)
Definition setitem_select (d i : nat) (v : tensor K) (t : tensor K)
    : result (tensor K) :=
  match shape t !! d with
  | Some n =>
      if i <? n then
        if bool_decide (bshape (delete d (shape t)) (shape v) = Some (delete d (shape t)))
        then Ok (tabulate_st (t_dtype t) (shape t) (strides t)
                   (fun idx => if idx !!! d =? i
                               then tnth v (bidx (shape v) (delete d idx))
                               else tnth t idx))
        else Raise RuntimeError
      else Raise IndexError
  | None => Raise IndexError
  end.

(** *** Layout *)

(** Position of [k] in a list of dimensions. *)
Fixpoint index_of (k : nat) (dims : list nat) : nat :=
  match dims with
  | [] => 0
  | x :: dims' => if x =? k then 0 else S (index_of k dims')
  end.

(** [dims] lists each of the dimensions 0 .. n-1 once. *)
Definition is_permutation (dims : list nat) (n : nat) : bool :=
  (length dims =? n) && forallb (fun k => existsb (Nat.eqb k) dims) (seq 0 n).

(** [t.permute(dims)]: dimension [k] of the result is dimension
    [dims[k]] of [t]. *)
Definition permute (dims : list nat) (t : tensor K) : result (tensor K) :=
  if is_permutation dims (ndim t)
  then Ok (tabulate_st (t_dtype t) ((fun k => shape t !!! k) <$> dims)
             ((fun k => strides t !!! k) <$> dims)
             (fun idx => tnth t ((fun k => idx !!! index_of k dims)
                                   <$> seq 0 (ndim t))))
  else Raise RuntimeError.

(** One dimension of [t.expand(spec)]: [-1] keeps the size, a size-1
    dimension is stretched, an equal size is kept. *)
Definition expand_dim (n : nat) (z : Z) : option nat :=
  if (z =? -1)%Z then Some n
  else if (z =? Z.of_nat n)%Z then Some n
  else if (n =? 1) && (0 <=? z)%Z then Some (Z.to_nat z)
  else None.

(** [t.expand(spec)], for a [spec] of the tensor's rank *)
Definition expand (spec : list Z) (t : tensor K) : result (tensor K) :=
  if length spec =? ndim t then
    match mapM (fun '(n, z) => expand_dim n z) (zip (shape t) spec) with
    | Some s =>
        Ok (tabulate_st (t_dtype t) s
              (zip_with (fun '(n, n') k => if n =? n' then k else 0)
                        (zip (shape t) s) (strides t))
              (fun idx => tnth t (bidx (shape t) idx)))
    | None => Raise RuntimeError
    end
  else Raise RuntimeError.

(** [torch.ones_like(t)] *)
Definition ones_like (t : tensor K) : tensor K :=
  tabulate (t_dtype t) (shape t) (fun _ => of_Z 1).

(** [torch.cat((a, b), d)] *)
Definition cat (a b : tensor K) (d : nat) : result (tensor K) :=
  match shape a !! d, shape b !! d with
  | Some na, Some nb =>
      if bool_decide (delete d (shape a) = delete d (shape b))
      then Ok (tabulate (promote (t_dtype a) (t_dtype b)) (<[d := na + nb]> (shape a))
                 (fun idx => let i := idx !!! d in
                             if i <? na then tnth a idx
                             else tnth b (<[d := i - na]> idx)))
      else Raise RuntimeError
  | _, _ => Raise RuntimeError
  end.

(** [t.repeat(reps)], for [reps] of the tensor's rank: the tensor tiled
    [reps[k]] times along dimension [k]. *)
Definition repeat_ (reps : list nat) (t : tensor K) : result (tensor K) :=
  if length reps =? ndim t
  then Ok (tabulate (t_dtype t) (zip_with Nat.mul (shape t) reps)
             (fun idx => tnth t (zip_with Nat.modulo idx (shape t))))
  else Raise RuntimeError.

(** [a @ b] for operands of rank at least 2 and of one dtype (torch does
    not promote here): the leading (batch) dimensions broadcast, the last two
    multiply as matrices.  The sum over the inner index is accumulated from 0
    in index order. *)
Definition matmul (a b : tensor K) : result (tensor K) :=
  let ra := ndim a - 2 in
  let rb := ndim b - 2 in
  match drop ra (shape a), drop rb (shape b) with
  | [n; m], [m'; p] =>
      if (m =? m') && dtype_eqb (t_dtype a) (t_dtype b) then
        match bshape (take ra (shape a)) (take rb (shape b)) with
        | Some batch =>
            let r := length batch in
            Ok (tabulate (t_dtype a) (batch ++ [n; p])
                  (fun idx =>
                     let bi := take r idx in
                     let i := idx !!! r in
                     let j := idx !!! (S r) in
                     ssum ((fun k => smul (tnth a (bidx (take ra (shape a)) bi ++ [i; k]))
                                          (tnth b (bidx (take rb (shape b)) bi ++ [k; j])))
                             <$> seq 0 m)))
        | None => Raise RuntimeError
        end
      else Raise RuntimeError
  | _, _ => Raise RuntimeError
  end.

(** [torch.sum(t, d)] *)
Definition sum (d : nat) (t : tensor K) : result (tensor K) :=
  match shape t !! d with
  | Some n =>
      Ok (tabulate (t_dtype t) (delete d (shape t))
            (fun idx => ssum ((fun k => tnth t (take d idx ++ k :: drop d idx))
                                <$> seq 0 n)))
  | None => Raise IndexError
  end.

(** [t.to(dt)] *)
Definition to (dt : dtype) (t : tensor K) : tensor K :=
  mkStrided dt (shape t) (data t) (strides t).

End Tensor.

(** ** Python objects passed where a float or a tensor is expected *)

Inductive pyobj (K : Type) : Type :=
  | PyFloat (x : K)            (* a Python float *)
  | PyInt (z : Z)              (* a Python int: no [ndim] attribute *)
  | PyTensor (t : tensor K).   (* a torch tensor *)
Arguments PyFloat {K} x.
Arguments PyInt {K} z.
Arguments PyTensor {K} t.

Inductive binary_op : Type := OpAdd | OpSub | OpMul.

Definition op_int (op : binary_op) : Z -> Z -> Z :=
  match op with OpAdd => Z.add | OpSub => Z.sub | OpMul => Z.mul end.

Section DepthValues.
Context {K : Type} {SK : Scalar K}.

Definition op_scalar (op : binary_op) : K -> K -> K :=
  match op with OpAdd => sadd | OpSub => ssub | OpMul => smul end.

(** [isinstance(o, float)] *)
Definition isinstance_float (o : pyobj K) : bool :=
  match o with PyFloat _ => true | _ => false end.

(** [o.ndim] *)
Definition getattr_ndim (o : pyobj K) : result nat :=
  match o with
  | PyTensor t => Ok (ndim t)
  | PyFloat _ | PyInt _ => Raise AttributeError
  end.

(** Python's binary arithmetic on ints, floats and tensors: numbers
    combine as numbers (an int meeting a float is converted), a number and
    a tensor act entrywise, two tensors broadcast. *)
Definition py_arith (op : binary_op) (a b : pyobj K) : result (pyobj K) :=
  let f := op_scalar op in
  match a, b with
  | PyInt x, PyInt y => Ok (PyInt (op_int op x y))
  | PyFloat x, PyFloat y => Ok (PyFloat (f x y))
  | PyFloat x, PyInt z => Ok (PyFloat (f x (of_Z z)))
  | PyInt z, PyFloat y => Ok (PyFloat (f (of_Z z) y))
  | PyFloat x, PyTensor t => Ok (PyTensor (tmap (f x) t))
  | PyTensor t, PyFloat y => Ok (PyTensor (tmap (fun v => f v y) t))
  | PyInt z, PyTensor t => Ok (PyTensor (tmap (f (of_Z z)) t))
  | PyTensor t, PyInt z => Ok (PyTensor (tmap (fun v => f v (of_Z z)) t))
  | PyTensor t, PyTensor u => PyTensor <$> binop f t u
  end.

Definition as_tensor (o : pyobj K) : result (tensor K) :=
  match o with PyTensor t => Ok t | _ => Raise AttributeError end.

(** Lines 55-59: the depth interval brought to a broadcastable form. *)
Definition normalize_interval (depth_interval : pyobj K) : result (pyobj K) :=
  if negb (isinstance_float depth_interval) then
    n ← getattr_ndim depth_interval;
    t ← as_tensor depth_interval;
    if n =? 2 then PyTensor <$> reshape [-1; 1; 1; 1]%Z t
    else if n =? 3 then PyTensor <$> unsqueeze 1 t
    else Ok depth_interval
  else Ok depth_interval.

(** [get_depth_values(current_depth, n_depths, depth_interval)] *)
Definition get_depth_values (current_depth : tensor K) (n_depths : nat)
    (depth_interval : pyobj K) : result (tensor K) :=
  depth_interval ← normalize_interval depth_interval;
  (* n_depths/2: true division of two Python ints, a float *)
  let half := PyFloat (sdiv (of_Z (Z.of_nat n_depths)) (of_Z 2)) in
  scaled ← py_arith OpMul half depth_interval;
  depth_min ← py_arith OpSub (PyTensor current_depth) scaled;
  index_sequence ← reshape [1; -1; 1; 1]%Z (arange n_depths (t_dtype current_depth));
  steps ← py_arith OpMul depth_interval (PyTensor index_sequence);
  depth_values ← py_arith OpAdd depth_min steps;
  as_tensor depth_values.

End DepthValues.

(** Constant tensor of a given shape. *)
Definition full {K} (dt : dtype) (s : list nat) (v : K) : tensor K :=
  mkTensor dt s (replicate (numel s) v).

Definition Qn (a : Z) (b : positive) : qnum := Fin (Q2Qc (a # b)).

(** ** External primitives of [homo_warp] *)

Section External.
Context {K : Type} {SK : Scalar K}.

(** [kornia.utils.create_meshgrid(H, W, normalized_coordinates=False)]:
    shape (1, H, W, 2), holding at (0, h, w) the pixel coordinates
    (x, y) = (w, h). *)
Definition create_meshgrid (height width : nat) : tensor K :=
  tabulate Float32 [1; height; width; 2]
    (fun idx => match idx with
                | [_; h; w; c] => of_Z (Z.of_nat (if c =? 0 then w else h))
                | _ => of_Z 0
                end).

(** What 0/0 evaluates to: NaN in IEEE arithmetic, [Undef] in [qnum]. *)
Definition snan : K := sdiv (of_Z 0) (of_Z 0).

(** [grid_sampler_unnormalize] with [align_corners=True]: the normalized
    coordinate -1 is pixel 0 and +1 is pixel [size - 1]. *)
Definition unnormalize (coord : K) (size : nat) : K :=
  smul (sdiv (sadd coord (of_Z 1)) (of_Z 2)) (of_Z (Z.of_nat size - 1)).

Definition within_bounds_2d (h w : Z) (height width : nat) : bool :=
  (0 <=? h)%Z && (h <? Z.of_nat height)%Z && (0 <=? w)%Z && (w <? Z.of_nat width)%Z.

(** One output entry of bilinear sampling with zero padding: the four
    pixels around (ix, iy), each weighted by the area of the opposite
    rectangle; a corner outside the image adds nothing. *)
Definition bilinear (input : tensor K) (n c : nat) (x y : K) : K :=
  match shape input with
  | [_; _; inp_H; inp_W] =>
      let ix := unnormalize x inp_W in
      let iy := unnormalize y inp_H in
      match sfloor ix, sfloor iy with
      | Some ix_nw, Some iy_nw =>
          let ix_se := (ix_nw + 1)%Z in
          let iy_se := (iy_nw + 1)%Z in
          let nw := smul (ssub (of_Z ix_se) ix) (ssub (of_Z iy_se) iy) in
          let ne := smul (ssub ix (of_Z ix_nw)) (ssub (of_Z iy_se) iy) in
          let sw := smul (ssub (of_Z ix_se) ix) (ssub iy (of_Z iy_nw)) in
          let se := smul (ssub ix (of_Z ix_nw)) (ssub iy (of_Z iy_nw)) in
          let corner (h w : Z) (wgt : K) (acc : K) : K :=
            if within_bounds_2d h w inp_H inp_W
            then sadd acc (smul (tnth input [n; c; Z.to_nat h; Z.to_nat w]) wgt)
            else acc in
          corner iy_se ix_se se
            (corner iy_se ix_nw sw
               (corner iy_nw ix_se ne
                  (corner iy_nw ix_nw nw (of_Z 0))))
      | _, _ => snan
      end
  | _ => of_Z 0
  end.

(** [F.grid_sample(input, grid, mode='bilinear', padding_mode='zeros',
    align_corners=True)] for a 4-D input (N, C, H_in, W_in) and a grid
    (N, H_out, W_out, 2) of the input's dtype, whose last axis holds
    (x, y). *)
Definition grid_sample (input grid : tensor K) : result (tensor K) :=
  match shape input, shape grid with
  | [N; C; inp_H; inp_W], [N'; out_H; out_W; two] =>
      if (N =? N') && (two =? 2) && (0 <? inp_H) && (0 <? inp_W)
         && dtype_eqb (t_dtype input) (t_dtype grid)
      then Ok (tabulate (t_dtype input) [N; C; out_H; out_W]
                 (fun idx => match idx with
                             | [n; c; h; w] =>
                                 bilinear input n c (tnth grid [n; h; w; 0])
                                                    (tnth grid [n; h; w; 1])
                             | _ => of_Z 0
                             end))
      else Raise RuntimeError
  | _, _ => Raise RuntimeError
  end.

End External.

(** ** [homo_warp] *)

Section HomoWarp.
Context {K : Type} {SK : Scalar K}.

(** Lines 82-88: the homogeneous pixel coordinates (x, y, 1) of the
    reference view, once per depth hypothesis. *)
Definition homo_warp_ref_grid (B H W D : nat) : result (tensor K) :=
  let ref_grid := create_meshgrid H W in                   (* (1, H, W, 2) *)
  ref_grid ← permute [0; 3; 1; 2] ref_grid;                (* (1, 2, H, W) *)
  ref_grid ← reshape (Z.of_nat <$> [1; 2; H * W]) ref_grid;  (* (1, 2, H*W) *)
  ref_grid ← expand [Z.of_nat B; -1; -1]%Z ref_grid;       (* (B, 2, H*W) *)
  ones ← ones_like <$> slice 1 0 (Some 1%Z) ref_grid;
  ref_grid ← cat ref_grid ones 1;                          (* (B, 3, H*W) *)
  repeat_ [1; 1; D] ref_grid.                              (* (B, 3, D*H*W) *)

(** Line 89: [R @ ref_grid_d + T/depth_values.view(B, 1, D*H*W)] *)
Definition homo_warp_project (B H W D : nat) (R T ref_grid_d depth_values : tensor K)
    : result (tensor K) :=
  rotated ← matmul R ref_grid_d;
  depth_flat ← view (Z.of_nat <$> [B; 1; D * H * W]) depth_values;
  translated ← binop sdiv T depth_flat;
  binop sadd rotated translated.

(** Lines 91-96: division by the third coordinate, then the scaling to
    [-1, 1].  The in-place writes of lines 93-94 are the successive values
    of [src_grid]. *)
Definition homo_warp_normalize (B H W D : nat) (src_grid_d : tensor K)
    : result (tensor K) :=
  xy ← slice 1 0 (Some 2%Z) src_grid_d;
  z ← slice 1 (-1) None src_grid_d;
  src_grid ← binop sdiv xy z;                              (* (B, 2, D*H*W) *)
  let half_w := sdiv (of_Z (Z.of_nat W - 1)) (of_Z 2) in
  let half_h := sdiv (of_Z (Z.of_nat H - 1)) (of_Z 2) in
  x ← select 1 0 src_grid;
  src_grid ← setitem_select 1 0
               (tmap (fun v => ssub (sdiv v half_w) (of_Z 1)) x) src_grid;
  y ← select 1 1 src_grid;
  src_grid ← setitem_select 1 1
               (tmap (fun v => ssub (sdiv v half_h) (of_Z 1)) y) src_grid;
  src_grid ← permute [0; 2; 1] src_grid;                   (* (B, D*H*W, 2) *)
  view (Z.of_nat <$> [B; D; H * W; 2]) src_grid.

(** Lines 79-96: the sampling grid. *)
Definition homo_warp_grid (B H W D : nat) (proj_mat depth_values : tensor K)
    : result (tensor K) :=
  R ← slice 2 0 (Some 3%Z) proj_mat;                       (* (B, 3, 3) *)
  T ← slice 2 3 None proj_mat;                             (* (B, 3, 1) *)
  ref_grid_d ← homo_warp_ref_grid B H W D;
  src_grid_d ← homo_warp_project B H W D R T ref_grid_d depth_values;
  homo_warp_normalize B H W D src_grid_d.

(** [homo_warp(src_feat, proj_mat, depth_values)] *)
Definition homo_warp (src_feat proj_mat depth_values : tensor K)
    : result (tensor K) :=
  '(B, C, H, W) ← unpack4 src_feat;
  D ← shape_at depth_values 1;
  src_grid ← homo_warp_grid B H W D proj_mat depth_values;
  warped_src_feat ← grid_sample src_feat src_grid;         (* (B, C, D, H*W) *)
  view (Z.of_nat <$> [B; C; D; H; W]) warped_src_feat.

End HomoWarp.

(** ** [depth_regression] *)

Section DepthRegression.
Context {K : Type} {SK : Scalar K}.

Definition depth_regression (p depth_values : tensor K) : result (tensor K) :=
  depth_values ←
    (if ndim depth_values <=? 2
     then view ((Z.of_nat <$> shape depth_values) ++ [1; 1]%Z) depth_values
     else Ok depth_values);
  weighted ← binop smul p depth_values;
  depth ← sum 1 weighted;
  Ok (to (t_dtype depth_values) depth).

End DepthRegression.

(** ** Network blocks *)

(** The [norm_act] constructor argument (by default [InPlaceABN]): given a
    channel count it builds a normalization-activation layer, which maps a
    tensor to one of the same shape. *)
Class NormAct (K : Type) := {
  norm_act : nat -> tensor K -> tensor K;
  norm_act_shape : forall c t, shape (norm_act c t) = shape t;
  norm_act_length : forall c t, length (data (norm_act c t)) = length (data t);
}.

Section Blocks.
Context {K : Type} {SK : Scalar K} {NA : NormAct K}.

(** [nn.Conv3d(in_channels, out_channels, kernel_size, stride=stride,
    padding=pad, bias=False)]; the weight has shape
    (out_channels, in_channels, k, k, k). *)
Record Conv3d : Type := mkConv3d {
  weight : tensor K;
  stride : nat;
  padding : nat;
}.

Definition Conv3d_init (in_channels out_channels kernel_size stride pad : nat)
    (w : list nat -> K) : Conv3d :=
  mkConv3d (tabulate Float32
              [out_channels; in_channels; kernel_size; kernel_size; kernel_size] w)
           stride pad.

(** Output size of a convolution along one axis. *)
Definition conv_size (n k s p : nat) : option nat :=
  if (0 <? s) && (0 <? k) && (k <=? n + 2 * p)
  then Some ((n + 2 * p - k) / s + 1)
  else None.

(** Input entry at a padded position: zero in the padding. *)
Definition padded (x : tensor K) (b c : nat) (p : nat) (pos : list nat) : K :=
  match pos with
  | [d; h; w] =>
      if (p <=? d) && (p <=? h) && (p <=? w)
      then tnth x [b; c; d - p; h - p; w - p]
      else of_Z 0
  | _ => of_Z 0
  end.

Definition Conv3d_forward (m : Conv3d) (x : tensor K) : result (tensor K) :=
  match shape x, shape (weight m) with
  | [B; C; D; H; W], [Cout; C'; kd; kh; kw] =>
      if C =? C' then
        match conv_size D kd (stride m) (padding m),
              conv_size H kh (stride m) (padding m),
              conv_size W kw (stride m) (padding m) with
        | Some Do, Some Ho, Some Wo =>
            Ok (tabulate (t_dtype x) [B; Cout; Do; Ho; Wo]
                  (fun idx =>
                     match idx with
                     | [b; o; d; h; w] =>
                         ssum ((fun k =>
                                  match k with
                                  | [c; i; j; l] =>
                                      smul (padded x b c (padding m)
                                              [d * stride m + i; h * stride m + j;
                                               w * stride m + l])
                                           (tnth (weight m) [o; c; i; j; l])
                                  | _ => of_Z 0
                                  end) <$> indices [C; kd; kh; kw])
                     | _ => of_Z 0
                     end))
        | _, _, _ => Raise RuntimeError
        end
      else Raise RuntimeError
  | _, _ => Raise RuntimeError
  end.

(** [class ConvBnReLU3D] *)
Record ConvBnReLU3D : Type := mkConvBnReLU3D {
  conv : Conv3d;
  bn : tensor K -> tensor K;
}.

Definition ConvBnReLU3D_init (in_channels out_channels kernel_size stride pad : nat)
    (w : list nat -> K) : ConvBnReLU3D :=
  mkConvBnReLU3D (Conv3d_init in_channels out_channels kernel_size stride pad w)
                 (norm_act out_channels).

Definition ConvBnReLU3D_forward (m : ConvBnReLU3D) (x : tensor K)
    : result (tensor K) :=
  bn m <$> Conv3d_forward (conv m) x.

(** [class AttentionBranch] *)
Record AttentionBranch : Type := mkAttentionBranch {
  conv1 : ConvBnReLU3D;
  conv2 : ConvBnReLU3D;
}.

(** [AttentionBranch(in_channels, norm_act)], with the values [w1] and
    [w2] of the two convolution weights. *)
Definition AttentionBranch_init (in_channels : nat) (w1 w2 : list nat -> K)
    : AttentionBranch :=
  mkAttentionBranch (ConvBnReLU3D_init in_channels 1 1 1 0 w1)
                    (ConvBnReLU3D_init 1 1 1 1 0 w2).

(** Line 43: the attention map. *)
Definition attention_map (m : AttentionBranch) (x : tensor K) : result (tensor K) :=
  y ← ConvBnReLU3D_forward (conv1 m) x;
  ConvBnReLU3D_forward (conv2 m) y.

(** [AttentionBranch.forward] *)
Definition AttentionBranch_forward (m : AttentionBranch) (x : tensor K)
    : result (tensor K) :=
  attention ← attention_map m x;                          (* (B, 1, D, H, W) *)
  binop smul x (tmap (fun v => sadd v (of_Z 1)) attention).

End Blocks.

(** ** The 2-D block *)

(** [ConvBnReLU] has the field names of [ConvBnReLU3D]; it lives in a module
    of its own. *)
Module Block2D.
Section Blocks2D.
Context {K : Type} {SK : Scalar K} {NA : NormAct K}.

(** [nn.Conv2d(in_channels, out_channels, kernel_size, stride=stride,
    padding=pad, bias=False)]; the weight has shape
    (out_channels, in_channels, k, k). *)
Record Conv2d : Type := mkConv2d {
  weight : tensor K;
  stride : nat;
  padding : nat;
}.

Definition Conv2d_init (in_channels out_channels kernel_size stride pad : nat)
    (w : list nat -> K) : Conv2d :=
  mkConv2d (tabulate Float32 [out_channels; in_channels; kernel_size; kernel_size] w)
           stride pad.

(** Input entry at a padded position: zero in the padding. *)
Definition padded (x : tensor K) (b c : nat) (p : nat) (pos : list nat) : K :=
  match pos with
  | [h; w] =>
      if (p <=? h) && (p <=? w)
      then tnth x [b; c; h - p; w - p]
      else of_Z 0
  | _ => of_Z 0
  end.

Definition Conv2d_forward (m : Conv2d) (x : tensor K) : result (tensor K) :=
  match shape x, shape (weight m) with
  | [B; C; H; W], [Cout; C'; kh; kw] =>
      if C =? C' then
        match conv_size H kh (stride m) (padding m),
              conv_size W kw (stride m) (padding m) with
        | Some Ho, Some Wo =>
            Ok (tabulate (t_dtype x) [B; Cout; Ho; Wo]
                  (fun idx =>
                     match idx with
                     | [b; o; h; w] =>
                         ssum ((fun k =>
                                  match k with
                                  | [c; i; j] =>
                                      smul (padded x b c (padding m)
                                              [h * stride m + i; w * stride m + j])
                                           (tnth (weight m) [o; c; i; j])
                                  | _ => of_Z 0
                                  end) <$> indices [C; kh; kw])
                     | _ => of_Z 0
                     end))
        | _, _ => Raise RuntimeError
        end
      else Raise RuntimeError
  | _, _ => Raise RuntimeError
  end.

(** [class ConvBnReLU] *)
Record ConvBnReLU : Type := mkConvBnReLU {
  conv : Conv2d;
  bn : tensor K -> tensor K;
}.

Definition ConvBnReLU_init (in_channels out_channels kernel_size stride pad : nat)
    (w : list nat -> K) : ConvBnReLU :=
  mkConvBnReLU (Conv2d_init in_channels out_channels kernel_size stride pad w)
               (norm_act out_channels).

Definition ConvBnReLU_forward (m : ConvBnReLU) (x : tensor K) : result (tensor K) :=
  bn m <$> Conv2d_forward (conv m) x.

End Blocks2D.
End Block2D.

(** ** Storages, views and in-place writes *)

(** Integer tensors hold storage offsets. *)
#[export] Instance Z_scalar : Scalar Z := {|
  sadd := Z.add;
  ssub := Z.sub;
  smul := Z.mul;
  sdiv := Z.div;
  of_Z := fun z => z;
  sfloor := Some;
  slt := Z.ltb;
|}.

(** The operations of [homo_warp] that return a view: a tensor that shares
    the storage of its argument. *)
Inductive view_op : Type :=
  | VSlice (d : nat) (lo : Z) (hi : option Z)
  | VSelect (d i : nat)
  | VPermute (dims : list nat)
  | VView (spec : list Z)
  | VExpand (spec : list Z).

(** A tensor object: a storage and the views taken on it, oldest first. *)
Record handle : Type := mkHandle {
  h_loc : nat;
  h_path : list view_op;
}.

Section Memory.
Context {K : Type} {SK : Scalar K}.

Definition read_op (op : view_op) (t : tensor K) : result (tensor K) :=
  match op with
  | VSlice d lo hi => slice d lo hi t
  | VSelect d i => select d i t
  | VPermute dims => permute dims t
  | VView spec => view spec t
  | VExpand spec => expand spec t
  end.

(** The tensor seen through a path of views. *)
Definition read_path (path : list view_op) (t : tensor K) : result (tensor K) :=
  foldl (fun r op => r ≫= read_op op) (Ok t) path.

End Memory.

Section Heap.
Context {K : Type} {SK : Scalar K}.

(** The storages allocated so far; a location is a position in the list. *)
Abbreviation heap := (list (tensor K)).

(** For each entry of a tensor, its offset in the storage. *)
Definition offsets (s st : list nat) : tensor Z :=
  tabulate_st Float32 s st (fun idx => Z.of_nat (ravel s idx)).

(** Writes each value at its offset. *)
Definition scatter (storage : list K) (writes : list (Z * K)) : list K :=
  foldl (fun st w => <[Z.to_nat w.1 := w.2]> st) storage writes.

(** The storage after the tensor seen through [path] has become [v]. *)
Definition write_path (path : list view_op) (base v : tensor K) : result (tensor K) :=
  offs ← read_path path (offsets (shape base) (strides base));
  if bool_decide (shape offs = shape v)
  then Ok (mkStrided (t_dtype base) (shape base)
             (scatter (data base) (zip (data offs) (data v))) (strides base))
  else Raise RuntimeError.

(** Computations on the heap.  The heap is kept when an exception is raised. *)
Definition M (A : Type) : Type := heap -> result A * heap.

#[export] Instance M_ret : MRet M := fun A a σ => (Ok a, σ).
#[export] Instance M_bind : MBind M := fun A B k m σ =>
  match m σ with
  | (Ok a, σ') => k a σ'
  | (Raise e, σ') => (Raise e, σ')
  end.

Definition lift {A} (r : result A) : M A := fun σ => (r, σ).

(** A new storage holding [t]. *)
Definition alloc (t : tensor K) : M handle :=
  fun σ => (Ok (mkHandle (length σ) []), σ ++ [t]).

(** The tensor a handle stands for. *)
Definition load (h : handle) : M (tensor K) :=
  fun σ => (match σ !! h_loc h with
            | Some base => read_path (h_path h) base
            | None => Raise RuntimeError
            end, σ).

(** A view: a new tensor object on the same storage. *)
Definition view_of (op : view_op) (h : handle) : M handle :=
  t ← load h; _ ← lift (read_op op t);
  mret (mkHandle (h_loc h) (h_path h ++ [op])).

(** The tensor a handle stands for becomes [v]: a write into its storage. *)
Definition store (h : handle) (v : tensor K) : M unit :=
  fun σ => match σ !! h_loc h with
           | Some base =>
               match write_path (h_path h) base v with
               | Ok base' => (Ok tt, <[h_loc h := base']> σ)
               | Raise e => (Raise e, σ)
               end
           | None => (Raise RuntimeError, σ)
           end.

(** An operation that returns a new tensor. *)
Definition apply1 (f : tensor K -> result (tensor K)) (h : handle) : M handle :=
  t ← load h; r ← lift (f t); alloc r.

Definition apply2 (f : tensor K -> tensor K -> result (tensor K)) (h1 h2 : handle)
    : M handle :=
  t1 ← load h1; t2 ← load h2; r ← lift (f t1 t2); alloc r.

(** [h[:, ..., i] = v] *)
Definition setitem_select_st (h : handle) (d i : nat) (hv : handle) : M unit :=
  t ← load h; v ← load hv; t' ← lift (setitem_select d i v t); store h t'.

(** [del names]: the local names are unbound.  A tensor is released only
    when nothing refers to it any more; no storage changes. *)
Definition del (names : list handle) : M unit := mret tt.

(** [homo_warp] on tensor objects, statement by statement. *)
Definition homo_warp_st (src_feat proj_mat depth_values : handle) : M handle :=
  s ← load src_feat;
  '(B, C, H, W) ← lift (unpack4 s);
  dv ← load depth_values;
  D ← lift (shape_at dv 1);
  R ← view_of (VSlice 2 0 (Some 3%Z)) proj_mat;
  T ← view_of (VSlice 2 3 None) proj_mat;
  ref_grid ← alloc (create_meshgrid H W);
  ref_grid ← view_of (VPermute [0; 3; 1; 2]) ref_grid;
  (* a view or a copy of the mesh grid: in both cases a tensor of the call's own *)
  ref_grid ← apply1 (reshape (Z.of_nat <$> [1; 2; H * W])) ref_grid;
  ref_grid ← view_of (VExpand [Z.of_nat B; -1; -1]%Z) ref_grid;
  first_row ← view_of (VSlice 1 0 (Some 1%Z)) ref_grid;
  ones ← apply1 (fun t => Ok (ones_like t)) first_row;
  ref_grid ← apply2 (fun a b => cat a b 1) ref_grid ones;
  ref_grid_d ← apply1 (repeat_ [1; 1; D]) ref_grid;
  rotated ← apply2 matmul R ref_grid_d;
  depth_flat ← view_of (VView (Z.of_nat <$> [B; 1; D * H * W])) depth_values;
  translated ← apply2 (binop sdiv) T depth_flat;
  src_grid_d ← apply2 (binop sadd) rotated translated;
  _ ← del [ref_grid_d; ref_grid; proj_mat; R; T; depth_values];
  xy ← view_of (VSlice 1 0 (Some 2%Z)) src_grid_d;
  z ← view_of (VSlice 1 (-1) None) src_grid_d;
  src_grid ← apply2 (binop sdiv) xy z;
  _ ← del [src_grid_d];
  let half_w := sdiv (of_Z (Z.of_nat W - 1)) (of_Z 2) in
  let half_h := sdiv (of_Z (Z.of_nat H - 1)) (of_Z 2) in
  x ← view_of (VSelect 1 0) src_grid;
  x ← apply1 (fun t => Ok (tmap (fun v => ssub (sdiv v half_w) (of_Z 1)) t)) x;
  _ ← setitem_select_st src_grid 1 0 x;
  y ← view_of (VSelect 1 1) src_grid;
  y ← apply1 (fun t => Ok (tmap (fun v => ssub (sdiv v half_h) (of_Z 1)) t)) y;
  _ ← setitem_select_st src_grid 1 1 y;
  src_grid ← view_of (VPermute [0; 2; 1]) src_grid;
  src_grid ← view_of (VView (Z.of_nat <$> [B; D; H * W; 2])) src_grid;
  warped_src_feat ← apply2 grid_sample src_feat src_grid;
  view_of (VView (Z.of_nat <$> [B; C; D; H; W])) warped_src_feat.

End Heap.


(** ** Vocabulary of the statements *)

Definition is_fin (x : qnum) : bool :=
  match x with Fin _ => true | Undef => false end.

(** Every entry is a rational. *)
Definition all_finite (t : tensor qnum) : bool := forallb is_fin (data t).

(** The depth values of one pixel, along the depth axis. *)
Definition depth_column {K} (out : tensor K) (b h w n : nat) : list (option K) :=
  (fun d => tget out [b; d; h; w]) <$> seq 0 n.

(** The shape of an array interval after lines 56-59. *)
Definition interval_shape (s : list nat) : list nat :=
  if length s =? 2 then [numel s; 1; 1; 1]
  else if length s =? 3 then take 1 s ++ 1 :: drop 1 s
  else s.

(** The three broadcasts of lines 60-64 all succeed: [current_depth]
    against the interval, the interval against the index sequence, and the
    two results against each other. *)
Definition broadcasts (cs s : list nat) (n : nat) : bool :=
  match bshape cs s, bshape s [1; n; 1; 1] with
  | Some a, Some b => bool_decide (is_Some (bshape a b))
  | _, _ => false
  end.

(** The shape under which [depth_regression] multiplies the depth values:
    two trailing axes of size 1 are added to an array of rank at most 2. *)
Definition regression_shape (s : list nat) : list nat :=
  if length s <=? 2 then s ++ [1; 1] else s.

Definition regression_values {K} (depth_values : tensor K) : tensor K :=
  mkTensor (t_dtype depth_values) (regression_shape (shape depth_values))
           (data depth_values).

(** The depth value that meets [p[b,d,h,w]] in the product. *)
Definition depth_value_at {K} {SK : Scalar K} (depth_values : tensor K)
    (b d h w : nat) : K :=
  tnth (regression_values depth_values)
       (bidx (regression_shape (shape depth_values)) [b; d; h; w]).

(** The arithmetic facts behind a one-hot weighted sum that selects [x]
    among terms such as [y]: multiplying by 1 and adding 0 leave [x] as it
    is, and the term [0 * y] adds nothing.  They hold for finite numbers; an
    infinite or undefined [y] breaks them, since [0 * y] is then no 0. *)
Definition selects {K} {SK : Scalar K} (x y : K) : Prop :=
  smul (of_Z 1) x = x /\ sadd (of_Z 0) x = x /\
  sadd x (smul (of_Z 0) y) = x /\
  sadd (of_Z 0) (smul (of_Z 0) y) = of_Z 0.

(** [p] puts weight 1 on depth index [k] and 0 elsewhere, at every pixel. *)
Definition one_hot (p : tensor qnum) (k : nat) : bool :=
  forallb (fun idx => qnum_eqb (tnth p idx) (of_Z (if idx !!! 1 =? k then 1 else 0)))
          (indices (shape p)).

Definition one_hot_tensor (dt : dtype) (s : list nat) (k : nat) : tensor qnum :=
  tabulate dt s (fun idx => of_Z (if idx !!! 1 =? k then 1 else 0)).

(** The rational behind a finite entry. *)
Definition qval (x : qnum) : Qc :=
  match x with Fin q => q | Undef => 0%Qc end.

(** The entries of [t] are the rationals listed. *)
Definition same_values (t : tensor qnum) (l : list qnum) : bool :=
  (length (data t) =? length l)
  && forallb (fun xy => qnum_eqb xy.1 xy.2) (zip (data t) l).

(** A normalization-activation layer that changes no value. *)
Definition identity_norm_act {K} : NormAct K :=
  {| norm_act := fun _ t => tmap (fun v => v) t;
     norm_act_shape := fun _ _ => eq_refl;
     norm_act_length := fun _ t => length_fmap (fun v => v) (data t) |}.

(** An input and a branch whose first convolution has zero weights: the
    attention map is 0 everywhere. *)
Definition sample_volume : tensor qnum :=
  mkTensor Float32 [1; 2; 1; 1; 2] [Qn 1 1; Qn 2 1; Qn 3 1; Qn (-4) 1].



(** The source-view homogeneous coordinate [i] of the reference pixel
    (w, h) at depth index [d]: row [i] of [R @ (w, h, 1) + T / depth]. *)
Definition projected {K} {SK : Scalar K} (proj_mat depth_values : tensor K)
    (b d h w i : nat) : K :=
  sadd (ssum ((fun k => smul (tnth proj_mat [b; i; k])
                             (of_Z (Z.of_nat (match k with 0 => w | 1 => h | _ => 1 end))))
                <$> seq 0 3))
       (sdiv (tnth proj_mat [b; i; 3]) (tnth depth_values [b; d; h; w])).

(** The normalized sampling coordinate [c] (0 for x, 1 for y) of that pixel. *)
Definition normalized {K} {SK : Scalar K} (proj_mat depth_values : tensor K)
    (H W b d h w c : nat) : K :=
  ssub (sdiv (sdiv (projected proj_mat depth_values b d h w c)
                   (projected proj_mat depth_values b d h w 2))
             (sdiv (of_Z (Z.of_nat (if c =? 0 then W else H) - 1)) (of_Z 2)))
       (of_Z 1).

(** The sampling position lies a full pixel or more outside the image:
    the pixel coordinate is below -1 or at least the image size, along x
    or along y (and both coordinates are finite). *)
Definition off_frame {K} {SK : Scalar K} (x y : K) (H W : nat) : bool :=
  match sfloor (unnormalize x W), sfloor (unnormalize y H) with
  | Some ix, Some iy =>
      (ix <? -1)%Z || (Z.of_nat W <=? ix)%Z || (iy <? -1)%Z || (Z.of_nat H <=? iy)%Z
  | _, _ => false
  end.

(** Every reference pixel of batch element [b] is sampled off frame at
    depth index [d]. *)
Definition slice_off_frame {K} {SK : Scalar K} (proj_mat depth_values : tensor K)
    (H W b d : nat) : bool :=
  forallb (fun h =>
    forallb (fun w => off_frame (normalized proj_mat depth_values H W b d h w 0)
                                (normalized proj_mat depth_values H W b d h w 1) H W)
            (seq 0 W))
    (seq 0 H).

(** A normalized coordinate outside [-1, 1]. *)
Definition outside_unit {K} {SK : Scalar K} (v : K) : bool :=
  slt v (of_Z (-1)) || slt (of_Z 1) v.

(** Every reference pixel of batch element [b] has both normalized
    coordinates outside [-1, 1] at depth index [d]. *)
Definition slice_outside_unit {K} {SK : Scalar K} (proj_mat depth_values : tensor K)
    (H W b d : nat) : bool :=
  forallb (fun h =>
    forallb (fun w => outside_unit (normalized proj_mat depth_values H W b d h w 0)
                      && outside_unit (normalized proj_mat depth_values H W b d h w 1))
            (seq 0 W))
    (seq 0 H).

(** A projection for one batch element: identity rotation and the
    translation (tx, ty, 0). *)
Definition proj_shift {K} {SK : Scalar K} (tx ty : K) : tensor K :=
  mkTensor Float32 [1; 3; 4]
    [of_Z 1; of_Z 0; of_Z 0; tx;
     of_Z 0; of_Z 1; of_Z 0; ty;
     of_Z 0; of_Z 0; of_Z 1; of_Z 0].


(** Every entry is a positive rational. *)
Definition all_positive (t : tensor qnum) : bool :=
  forallb (fun x => slt (of_Z 0) x) (data t).

(** [m] leaves the first [n] storages as they are, and its result
    satisfies [Q]. *)
Definition preserves {K A} (n : nat) (m : M (K:=K) A) (Q : A -> Prop) : Prop :=
  forall σ, n <= length σ ->
    take n (m σ).2 = take n σ /\ n <= length (m σ).2 /\
    forall a, (m σ).1 = Ok a -> Q a.

(** A tensor object created by the call: its storage is not one of the
    first [n]. *)
Definition local (n : nat) (h : handle) : Prop := n <= h_loc h.

(** A heap with a source map, a projection and depth values, and the
    tensor objects that stand for them. *)
Definition sample_heap : list (tensor qnum) :=
  [mkTensor Float32 [1; 1; 2; 2] [Qn 1 1; Qn 2 1; Qn 3 1; Qn 4 1];
   proj_shift (Qn 1 2) (Qn 0 1);
   full Float32 [1; 3; 2; 2] (Qn 5 1)].

(** The tensor that a call on tensor objects returns, read from the heap
    the call leaves. *)
Definition returned {K} {SK : Scalar K} (m : M (K:=K) handle)
    (σ : list (tensor K)) : result (tensor K) :=
  match (m σ).1 with
  | Ok h => (load h (m σ).2).1
  | Raise e => Raise e
  end.

(** The rotation block is the identity and the translation is
    (tx, ty, 0), for every batch element. *)
Definition is_shift_proj (proj_mat : tensor qnum) (tx ty : Qc) : bool :=
  forallb (fun idx =>
    qnum_eqb (tnth proj_mat idx)
      (if idx !!! 2 =? 3
       then match idx !!! 1 with 0 => Fin tx | 1 => Fin ty | _ => of_Z 0 end
       else of_Z (if idx !!! 1 =? idx !!! 2 then 1 else 0)))
    (indices (shape proj_mat)).

(** Sample tensors: a depth map (2, 1, 1, 2), an interval per batch element
    (2, 1), an interval per pixel (2, 1, 2), a source map (1, 1, 2, 2). *)
Definition sample_depth : tensor qnum :=
  mkTensor Float32 [2; 1; 1; 2] [Qn 10 1; Qn 20 1; Qn 30 1; Qn 40 1].

Definition sample_batch_interval : tensor qnum :=
  mkTensor Float32 [2; 1] [Qn 1 1; Qn 2 1].

Definition sample_pixel_interval : tensor qnum :=
  mkTensor Float32 [2; 1; 2] [Qn 1 1; Qn 2 1; Qn 3 1; Qn 4 1].

Definition sample_image : tensor qnum :=
  mkTensor Float32 [1; 1; 2; 2] [Qn 1 1; Qn 2 1; Qn 3 1; Qn 4 1].

(** * Properties *)

Arguments tabulate_st : simpl never.
Arguments contiguous_strides : simpl never.
Arguments arange : simpl never.
Arguments binop : simpl never.

(** ** Indices and row-major offsets *)

Lemma numel_cons n s : numel (n :: s) = n * numel s.
Proof. reflexivity. Qed.

Lemma length_indices s : length (indices s) = numel s.
Proof.
  induction s as [|n s IH]; [done|].
  rewrite numel_cons. cbn [indices].
  generalize 0 at 1. induction n as [|n IHn]; intros k; [done|].
  cbn [seq]. rewrite bind_cons, length_app, length_fmap, IH, IHn. lia.
Qed.

Lemma in_bounds_cons n s i idx :
  in_bounds (n :: s) (i :: idx) = true <-> i < n /\ in_bounds s idx = true.
Proof. cbn [in_bounds]. rewrite andb_true_iff, Nat.ltb_lt. tauto. Qed.

Lemma in_bounds_length s idx : in_bounds s idx = true -> length idx = length s.
Proof.
  revert idx; induction s as [|n s IH]; intros [|i idx]; try done.
  intros [_ Hi]%in_bounds_cons. cbn. by rewrite (IH idx).
Qed.

Lemma ravel_lt s idx : in_bounds s idx = true -> ravel s idx < numel s.
Proof.
  revert idx; induction s as [|n s IH]; intros [|i idx]; try done.
  - intros _. cbn. lia.
  - intros [Hi Hb]%in_bounds_cons. specialize (IH _ Hb).
    rewrite numel_cons. cbn [ravel]. nia.
Qed.

(** Blocks of equal length laid end to end: entry [j] of block [i]. *)
Lemma lookup_bind_blocks {A B} (f : A -> list B) (l : list A) m i j :
  (forall x, length (f x) = m) -> j < m ->
  (l ≫= f) !! (i * m + j) = l !! i ≫= fun x => f x !! j.
Proof.
  intros Hlen Hj. revert i; induction l as [|x l IH]; intros i.
  - by rewrite lookup_nil.
  - rewrite bind_cons. destruct i as [|i].
    + cbn [lookup list_lookup]. rewrite lookup_app_l by (rewrite Hlen; lia). done.
    + rewrite lookup_app_r by (rewrite Hlen; lia).
      rewrite Hlen. replace (S i * m + j - m) with (i * m + j) by lia.
      by rewrite IH.
Qed.

Lemma indices_lookup s idx :
  in_bounds s idx = true -> indices s !! ravel s idx = Some idx.
Proof.
  revert idx; induction s as [|n s IH]; intros [|i idx]; try done.
  intros [Hi Hb]%in_bounds_cons. cbn [indices ravel].
  rewrite (lookup_bind_blocks _ _ (numel s)).
  - rewrite lookup_seq_lt by done. cbn.
    by rewrite list_lookup_fmap, IH.
  - intros x. by rewrite length_fmap, length_indices.
  - by apply ravel_lt.
Qed.

(** Every listed index is in bounds. *)
Lemma indices_in_bounds s idx : idx ∈ indices s -> in_bounds s idx = true.
Proof.
  revert idx; induction s as [|n s IH]; intros idx.
  - cbn. by intros ->%list_elem_of_singleton.
  - cbn [indices]. rewrite list_elem_of_bind. intros (i & Hin & Hi).
    apply list_elem_of_fmap in Hin as (idx' & -> & Hidx').
    apply elem_of_seq in Hi. apply in_bounds_cons. split; [lia|auto].
Qed.

Section TensorFacts.
Context {K : Type} {SK : Scalar K}.

Lemma shape_tabulate dt s st (f : list nat -> K) : shape (tabulate_st dt s st f) = s.
Proof. reflexivity. Qed.

Lemma t_dtype_tabulate dt s st (f : list nat -> K) : t_dtype (tabulate_st dt s st f) = dt.
Proof. reflexivity. Qed.

Lemma to_tabulate dt dt' s st (f : list nat -> K) :
  to dt (tabulate_st dt' s st f) = tabulate_st dt s st f.
Proof. reflexivity. Qed.

Lemma tabulate_ext dt s st (f g : list nat -> K) :
  (forall idx, in_bounds s idx = true -> f idx = g idx) ->
  tabulate_st dt s st f = tabulate_st dt s st g.
Proof.
  intros Hfg. unfold tabulate_st. f_equal. apply list_fmap_ext.
  intros i idx Hidx. by apply Hfg, indices_in_bounds, list_elem_of_lookup_2 with i.
Qed.

Lemma tget_tabulate dt s st (f : list nat -> K) idx :
  in_bounds s idx = true -> tget (tabulate_st dt s st f) idx = Some (f idx).
Proof.
  intros Hb. unfold tget, tabulate_st. cbn. rewrite Hb.
  by rewrite list_lookup_fmap, indices_lookup.
Qed.

Lemma tnth_tabulate dt s st (f : list nat -> K) idx :
  in_bounds s idx = true -> tnth (tabulate_st dt s st f) idx = f idx.
Proof. intros Hb. unfold tnth. by rewrite tget_tabulate. Qed.

Lemma tget_tnth (t : tensor K) idx v : tget t idx = Some v -> tnth t idx = v.
Proof. unfold tnth. by intros ->. Qed.

Lemma wf_tabulate dt s st (f : list nat -> K) : wf (tabulate_st dt s st f) = true.
Proof.
  unfold wf, tabulate_st. cbn. rewrite length_fmap, length_indices. apply Nat.eqb_refl.
Qed.

(** In a well-formed tensor every in-bounds index holds an entry. *)
Lemma tget_wf (t : tensor K) idx :
  wf t = true -> in_bounds (shape t) idx = true -> tget t idx = Some (tnth t idx).
Proof.
  intros Hwf%Nat.eqb_eq Hb. unfold tnth, tget. rewrite Hb.
  destruct (lookup_lt_is_Some_2 (data t) (ravel (shape t) idx)) as [v Hv].
  - rewrite Hwf. by apply ravel_lt.
  - by rewrite Hv.
Qed.

Lemma tget_tmap (f : K -> K) (t : tensor K) idx :
  tget (tmap f t) idx = f <$> tget t idx.
Proof.
  unfold tget, tmap. cbn. destruct (in_bounds _ _); [|done].
  by rewrite list_lookup_fmap.
Qed.

Lemma bdim2_1_r a : bdim2 a 1 = Some a.
Proof.
  unfold bdim2. destruct (Nat.eqb_spec a 1) as [->|]; [done|].
  by rewrite Nat.eqb_refl.
Qed.

Lemma bdim2_1_l a : bdim2 1 a = Some a.
Proof.
  unfold bdim2. destruct (Nat.eqb_spec 1 a) as [<-|]; [done|].
  by rewrite Nat.eqb_refl.
Qed.

Lemma bdim2_refl a : bdim2 a a = Some a.
Proof. unfold bdim2. by rewrite Nat.eqb_refl. Qed.

Lemma bdim_lt n i : i < n -> bdim n i = i.
Proof. unfold bdim. destruct (Nat.eqb_spec n 1); lia. Qed.

Lemma tget_binop (f : K -> K -> K) (a b c : tensor K) idx :
  binop f a b = Ok c -> in_bounds (shape c) idx = true ->
  tget c idx = Some (f (tnth a (bidx (shape a) idx)) (tnth b (bidx (shape b) idx))).
Proof.
  unfold binop. destruct (bshape _ _) as [s|]; [|done].
  intros [= <-] Hb. cbn in Hb. by rewrite tget_tabulate.
Qed.

End TensorFacts.

(** ** [get_depth_values] *)

Ltac solve_in_bounds :=
  repeat (apply in_bounds_cons; split; [lia|]); reflexivity.

Ltac simpl_bshape :=
  unfold bshape; cbn [reverse rev_append bshape_rev];
  rewrite ?bdim2_1_r, ?bdim2_1_l, ?bdim2_refl; cbn [mbind option_bind fmap option_fmap option_map reverse rev_append].

Ltac simpl_bidx :=
  unfold bidx; cbn [length Nat.sub drop zip_with];
  repeat match goal with
         | |- context [bdim 1 ?i] => change (bdim 1 i) with 0
         | |- context [bdim ?n ?i] => rewrite (bdim_lt n i) by lia
         end.

(** ** Layout *)

Lemma contiguous_from_contiguous s : contiguous_from s (contiguous_strides s) = true.
Proof.
  induction s as [|n s IH]; [done|].
  change (contiguous_strides (n :: s)) with (numel s :: contiguous_strides s).
  cbn [contiguous_from]. by rewrite Nat.eqb_refl, orb_true_r, IH.
Qed.

(** A contiguous tensor is seen contiguous under every shape. *)
Lemma view_strides_contiguous s st s' :
  (numel s =? 0) || contiguous_from s st = true ->
  view_strides s st s' = Some (contiguous_strides s').
Proof. intros Hc. unfold view_strides. by rewrite Hc. Qed.

Lemma view_strides_fresh s s' :
  view_strides s (contiguous_strides s) s' = Some (contiguous_strides s').
Proof.
  apply view_strides_contiguous. by rewrite contiguous_from_contiguous, orb_true_r.
Qed.

Lemma is_contiguous_tabulate {K} dt s (f : list nat -> K) :
  is_contiguous (tabulate dt s f) = true.
Proof.
  unfold is_contiguous, tabulate_st. cbn [shape strides].
  by rewrite contiguous_from_contiguous, orb_true_r.
Qed.

Section DepthValuesFacts.
Context {K : Type} {SK : Scalar K}.

Lemma reshape_arange n dt :
  reshape [1; -1; 1; 1]%Z (arange (K:=K) n dt)
  = Ok (mkTensor dt [1; n; 1; 1] (data (arange (K:=K) n dt))).
Proof.
  unfold reshape, infer_size. cbn -[Nat.modulo Nat.div].
  change (Z.to_nat 1) with 1. cbn -[Nat.modulo Nat.div].
  change (numel (shape (arange n dt))) with (n * 1).
  rewrite Nat.mul_1_r, Nat.mod_1_r, Nat.div_1_r.
  change (strides (arange n dt)) with (contiguous_strides [n]).
  change (shape (arange n dt)) with [n].
  cbn [Nat.eqb]. by rewrite view_strides_fresh.
Qed.

Lemma tget_index_sequence n dt d :
  d < n ->
  tget (mkTensor dt [1; n; 1; 1] (data (arange (K:=K) n dt))) [0; d; 0; 0]
  = Some (of_Z (Z.of_nat d)).
Proof.
  intros Hd. unfold tget, arange, tabulate. cbn [shape data].
  replace (in_bounds [1; n; 1; 1] [0; d; 0; 0]) with true
    by (symmetry; solve_in_bounds).
  replace (ravel [1; n; 1; 1] [0; d; 0; 0]) with (ravel [n] [d]) by (cbn; lia).
  rewrite list_lookup_fmap, indices_lookup by solve_in_bounds. done.
Qed.

(** The scalar path, entry by entry, in the order the code computes it. *)
Lemma get_depth_values_float (current_depth : tensor K) n (x : K) B H W :
  shape current_depth = [B; 1; H; W] -> wf current_depth = true ->
  exists out,
    get_depth_values current_depth n (PyFloat x) = Ok out /\
    shape out = [B; n; H; W] /\ t_dtype out = t_dtype current_depth /\
    forall b d h w, b < B -> d < n -> h < H -> w < W ->
      tget out [b; d; h; w]
      = Some (sadd (ssub (tnth current_depth [b; 0; h; w])
                         (smul (sdiv (of_Z (Z.of_nat n)) (of_Z 2)) x))
                   (smul x (of_Z (Z.of_nat d)))).
Proof.
  intros Hs Hwf. unfold get_depth_values. cbn.
  rewrite reshape_arange. cbn. unfold binop. cbn [shape tmap].
  rewrite Hs. simpl_bshape.
  eexists. split; [reflexivity|]. split; [done|]. split.
  { rewrite t_dtype_tabulate. unfold result_dtype. cbn [shape tmap t_dtype].
    rewrite Hs. by destruct (t_dtype current_depth). }
  intros b d h w Hb Hd Hh Hw.
  rewrite tget_tabulate by solve_in_bounds.
  simpl_bidx. f_equal. f_equal.
  - unfold tnth at 1. rewrite tget_tmap, (tget_wf current_depth).
    + done.
    + done.
    + rewrite Hs. solve_in_bounds.
  - unfold tnth at 1. by rewrite tget_tmap, tget_index_sequence.
Qed.

(** A broadcasting operation on operands whose shapes broadcast. *)
Lemma binop_spec (f : K -> K -> K) (a b : tensor K) s :
  bshape (shape a) (shape b) = Some s ->
  exists c, binop f a b = Ok c /\ shape c = s /\
            t_dtype c = result_dtype a b /\ wf c = true /\
            forall idx, in_bounds s idx = true ->
              tnth c idx = f (tnth a (bidx (shape a) idx)) (tnth b (bidx (shape b) idx)).
Proof.
  intros Hs. unfold binop. rewrite Hs. eexists. split; [done|].
  rewrite shape_tabulate, t_dtype_tabulate, wf_tabulate. repeat split.
  intros idx Hidx. by rewrite tnth_tabulate.
Qed.

Lemma tnth_tmap_any (f : K -> K) (t : tensor K) idx v :
  tget t idx = Some v -> tnth (tmap f t) idx = f v.
Proof. intros Hv. unfold tnth. by rewrite tget_tmap, Hv. Qed.

(** A 0-dim tensor as interval: it has [ndim] 0, lines 56-59 leave it as it
    is, and it is broadcast like a number. *)
Lemma get_depth_values_zero_dim (current_depth t : tensor K) n B H W :
  shape current_depth = [B; 1; H; W] -> shape t = [] -> wf t = true ->
  exists out,
    get_depth_values current_depth n (PyTensor t) = Ok out /\
    shape out = [B; n; H; W] /\ t_dtype out = t_dtype current_depth /\
    forall b d h w, b < B -> d < n -> h < H -> w < W ->
      tget out [b; d; h; w]
      = Some (sadd (ssub (tnth current_depth [b; 0; h; w])
                         (smul (sdiv (of_Z (Z.of_nat n)) (of_Z 2)) (tnth t [])))
                   (smul (tnth t []) (of_Z (Z.of_nat d)))).
Proof.
  intros Hs Ht Hwf. unfold get_depth_values, normalize_interval.
  cbn [isinstance_float negb getattr_ndim mbind result_bind as_tensor].
  unfold ndim. rewrite Ht.
  cbn [length Nat.eqb mbind result_bind py_arith op_scalar fmap result_fmap].
  rewrite reshape_arange.
  set (iseq := mkTensor _ [1; n; 1; 1] _).
  set (half := sdiv _ _).
  destruct (binop_spec ssub current_depth (tmap (smul half) t) [B; 1; H; W])
    as (c1 & -> & Hc1 & Hd1 & Hw1 & Hv1).
  { rewrite Hs. cbn [shape tmap]. rewrite Ht. by simpl_bshape. }
  cbn [fmap result_fmap mbind result_bind py_arith op_scalar].
  destruct (binop_spec smul t iseq [1; n; 1; 1]) as (c2 & -> & Hc2 & Hd2 & Hw2 & Hv2).
  { rewrite Ht. cbn [shape iseq]. by simpl_bshape. }
  cbn [fmap result_fmap mbind result_bind py_arith op_scalar].
  destruct (binop_spec sadd c1 c2 [B; n; H; W]) as (c3 & -> & Hc3 & Hd3 & Hw3 & Hv3).
  { rewrite Hc1, Hc2. by simpl_bshape. }
  cbn [fmap result_fmap mbind result_bind as_tensor].
  exists c3. split; [done|]. split; [done|]. split.
  { rewrite Hd3. unfold result_dtype. rewrite Hc1, Hc2, Hd1, Hd2.
    unfold result_dtype. cbn [shape t_dtype tmap iseq]. rewrite Hs, Ht.
    by destruct (t_dtype current_depth). }
  intros b d h w Hb Hd Hh Hw.
  rewrite (tget_wf c3), Hv3 by (rewrite ?Hc3; solve_in_bounds || done).
  rewrite Hc1, Hc2. simpl_bidx.
  rewrite Hv1, Hv2 by solve_in_bounds.
  rewrite Hs. cbn [shape tmap iseq]. rewrite ?Ht. simpl_bidx.
  assert (Ht' : tget t [] = Some (tnth t [])).
  { apply tget_wf; [done|]. by rewrite Ht. }
  rewrite (tnth_tmap_any _ _ _ _ Ht').
  unfold iseq. by rewrite (tget_tnth _ _ _ (tget_index_sequence n _ d Hd)).
Qed.

End DepthValuesFacts.

(** ** Exact arithmetic *)

Lemma this_plus (x y : Qc) : (this (x + y)%Qc == this x + this y)%Q.
Proof. cbn. apply Qred_correct. Qed.

Lemma this_minus (x y : Qc) : (this (x - y)%Qc == this x - this y)%Q.
Proof.
  unfold Qcminus. rewrite this_plus. cbn. by rewrite Qred_correct.
Qed.

Lemma this_mult (x y : Qc) : (this (x * y)%Qc == this x * this y)%Q.
Proof. cbn. apply Qred_correct. Qed.

Lemma this_Zq z : (this (Zq z) == inject_Z z)%Q.
Proof. cbn. apply Qred_correct. Qed.

Lemma qnum_lt_Fin (x y : Qc) : qnum_lt (Fin x) (Fin y) = true <-> (this x < this y)%Q.
Proof.
  cbn. rewrite Qlt_alt. destruct (this x ?= this y)%Q; split; congruence.
Qed.

Lemma Qc_is_zero_false (q : Qc) : ~ (this q == 0)%Q -> Qc_is_zero q = false.
Proof.
  intros Hq. unfold Qc_is_zero. apply Z.eqb_neq. intros Hn. apply Hq.
  unfold Qeq. cbn. lia.
Qed.

Lemma Qc_is_zero_true (q : Qc) : Qc_is_zero q = true -> q = 0%Qc.
Proof.
  unfold Qc_is_zero. intros Hn%Z.eqb_eq. apply Qc_is_canon.
  unfold Qeq. rewrite Hn. change (Qnum (this 0%Qc)) with 0%Z. lia.
Qed.

Lemma Qc_is_zero_Zq z : z ≠ 0%Z -> Qc_is_zero (Zq z) = false.
Proof.
  intros Hz. apply Qc_is_zero_false. rewrite this_Zq.
  unfold Qeq. cbn. lia.
Qed.

Lemma all_finite_tnth (t : tensor qnum) idx :
  all_finite t = true -> wf t = true -> in_bounds (shape t) idx = true ->
  exists q, tnth t idx = Fin q.
Proof.
  intros Hf Hwf Hb. pose proof (tget_wf t idx Hwf Hb) as Hg.
  unfold tget in Hg. rewrite Hb in Hg.
  apply list_elem_of_lookup_2, list_elem_of_In in Hg.
  unfold all_finite in Hf. rewrite forallb_forall in Hf.
  specialize (Hf _ Hg). destruct (tnth t idx) as [q|]; [eauto|done].
Qed.

Lemma tnth_full {K} {SK : Scalar K} dt s (v : K) idx :
  in_bounds s idx = true -> tnth (full dt s v) idx = v.
Proof.
  intros Hb. unfold tnth, tget, full. cbn. rewrite Hb.
  rewrite lookup_replicate_2 by (by apply ravel_lt). done.
Qed.

Lemma wf_full {K} dt s (v : K) : wf (full dt s v) = true.
Proof. unfold wf, full. cbn. rewrite length_replicate. apply Nat.eqb_refl. Qed.

(** C1 (confirmed).  With a Python float as interval and a (B,1,H,W) depth
    map, [get_depth_values] returns a (B,n_depths,H,W) volume whose entry
    (b,d,h,w) is [current_depth[b,0,h,w] - (n_depths/2)*depth_interval
    + depth_interval*d], with [n_depths/2] a true division; this holds in
    any arithmetic.  For a map filled with 10, 5 depths and interval 2, each
    pixel's values are 5, 7, 9, 11, 13, both in exact arithmetic and in
    IEEE binary64. *)
Theorem get_depth_values_scalar_formula :
  (forall (K : Type) (SK : Scalar K) (current_depth : tensor K)
          (n_depths : nat) (depth_interval : K) (B H W : nat),
      shape current_depth = [B; 1; H; W] -> wf current_depth = true ->
      0 < n_depths ->
      exists out,
        get_depth_values current_depth n_depths (PyFloat depth_interval) = Ok out /\
        shape out = [B; n_depths; H; W] /\
        forall b d h w, b < B -> d < n_depths -> h < H -> w < W ->
          tget out [b; d; h; w]
          = Some (sadd (ssub (tnth current_depth [b; 0; h; w])
                             (smul (sdiv (of_Z (Z.of_nat n_depths)) (of_Z 2))
                                   depth_interval))
                       (smul depth_interval (of_Z (Z.of_nat d)))))
  /\ (forall dt B H W, exists out,
        get_depth_values (full dt [B; 1; H; W] (Qn 10 1)) 5 (PyFloat (Qn 2 1)) = Ok out /\
        forall b h w, b < B -> h < H -> w < W ->
          depth_column out b h w 5
          = Some <$> [Qn 5 1; Qn 7 1; Qn 9 1; Qn 11 1; Qn 13 1])
  /\ (forall dt B H W, exists out,
        get_depth_values (full dt [B; 1; H; W] 10%float) 5 (PyFloat 2%float) = Ok out /\
        forall b h w, b < B -> h < H -> w < W ->
          depth_column out b h w 5
          = Some <$> [5; 7; 9; 11; 13]%float).
Proof.
  split; [|split].
  - intros K SK cd n x B H W Hs Hwf _.
    destruct (get_depth_values_float cd n x B H W Hs Hwf)
      as (out & Hout & Hshape & _ & Hval).
    by exists out.
  - intros dt B H W.
    destruct (get_depth_values_float (full dt [B; 1; H; W] (Qn 10 1)) 5 (Qn 2 1)
                B H W eq_refl (wf_full _ _ _)) as (out & Hout & _ & _ & Hval).
    exists out. split; [done|]. intros b h w Hb Hh Hw.
    unfold depth_column. cbn [seq fmap list_fmap].
    rewrite !Hval by lia. rewrite tnth_full by solve_in_bounds.
    repeat f_equal; apply Qc_is_canon; reflexivity.
  - intros dt B H W.
    destruct (get_depth_values_float (full dt [B; 1; H; W] 10%float) 5 2%float
                B H W eq_refl (wf_full _ _ _)) as (out & Hout & _ & _ & Hval).
    exists out. split; [done|]. intros b h w Hb Hh Hw.
    unfold depth_column. cbn [seq fmap list_fmap].
    rewrite !Hval by lia. rewrite tnth_full by solve_in_bounds.
    vm_compute. reflexivity.
Qed.

Lemma get_depth_values_scalar_formula_witness :
  exists out,
    get_depth_values (full Float32 [1; 1; 2; 2] (Qn 10 1)) 5 (PyFloat (Qn 2 1)) = Ok out /\
    shape out = [1; 5; 2; 2] /\
    forall b d h w, b < 1 -> d < 5 -> h < 2 -> w < 2 ->
      tget out [b; d; h; w]
      = Some (sadd (ssub (tnth (full Float32 [1; 1; 2; 2] (Qn 10 1)) [b; 0; h; w])
                         (smul (sdiv (of_Z 5) (of_Z 2)) (Qn 2 1)))
                   (smul (Qn 2 1) (of_Z (Z.of_nat d)))).
Proof.
  apply (proj1 get_depth_values_scalar_formula qnum _
           (full Float32 [1; 1; 2; 2] (Qn 10 1)) 5 (Qn 2 1) 1 2 2).
  - reflexivity.
  - reflexivity.
  - lia.
Defined.

(** C10, counterexample.  A 0-dim tensor is a scalar that is not a Python
    float, and it is accepted: it has [ndim] 0, neither branch of lines
    56-59 is taken, and the call returns the depth values that the float of
    the same value gives (here 5, 7, 9, 11, 13 at both pixels), in exact
    arithmetic and in binary64. *)
Lemma get_depth_values_accepts_zero_dim_tensor :
  get_depth_values (full Float32 [1; 1; 1; 2] (Qn 10 1)) 5
    (PyTensor (mkTensor Float32 [] [Qn 2 1]))
  = get_depth_values (full Float32 [1; 1; 1; 2] (Qn 10 1)) 5 (PyFloat (Qn 2 1))
  /\ match get_depth_values (full Float32 [1; 1; 1; 2] (Qn 10 1)) 5
             (PyTensor (mkTensor Float32 [] [Qn 2 1])) with
     | Ok out => shape out = [1; 5; 1; 2] /\
                 same_values out [Qn 5 1; Qn 5 1; Qn 7 1; Qn 7 1; Qn 9 1; Qn 9 1;
                                  Qn 11 1; Qn 11 1; Qn 13 1; Qn 13 1] = true
     | Raise _ => False
     end
  /\ get_depth_values (full Float32 [1; 1; 1; 2] 10%float) 5
       (PyTensor (mkTensor Float32 [] [2%float]))
     = Ok (mkTensor Float32 [1; 5; 1; 2] [5; 5; 7; 7; 9; 9; 11; 11; 13; 13]%float).
Proof. vm_compute. repeat split. Qed.

(** C10 (corrected).  The scalar path is guarded by [isinstance(_, float)]:
    a Python int is not a float, so the code reads its [ndim] attribute,
    which an int does not have, and the call ends in an AttributeError
    whatever the other arguments are.  Not every scalar that is not a float
    fails: a 0-dim tensor has [ndim] 0, is left as it is by lines 56-59 and
    is used as the interval, and the call returns, entry by entry, what the
    Python float of the same value gives. *)
Theorem get_depth_values_non_float_interval :
  (forall (K : Type) (SK : Scalar K) (current_depth : tensor K) (n_depths : nat) (z : Z),
      get_depth_values current_depth n_depths (PyInt z) = Raise AttributeError)
  /\ (forall (K : Type) (SK : Scalar K) (current_depth depth_interval : tensor K)
             (n_depths B H W : nat),
        shape current_depth = [B; 1; H; W] -> wf current_depth = true ->
        shape depth_interval = [] -> wf depth_interval = true ->
        exists out out',
          get_depth_values current_depth n_depths (PyTensor depth_interval) = Ok out /\
          get_depth_values current_depth n_depths (PyFloat (tnth depth_interval []))
          = Ok out' /\
          shape out = [B; n_depths; H; W] /\ shape out' = [B; n_depths; H; W] /\
          t_dtype out = t_dtype current_depth /\
          forall b d h w, b < B -> d < n_depths -> h < H -> w < W ->
            tget out [b; d; h; w]
            = Some (sadd (ssub (tnth current_depth [b; 0; h; w])
                               (smul (sdiv (of_Z (Z.of_nat n_depths)) (of_Z 2))
                                     (tnth depth_interval [])))
                         (smul (tnth depth_interval []) (of_Z (Z.of_nat d)))) /\
            tget out [b; d; h; w] = tget out' [b; d; h; w]).
Proof.
  split; [done|].
  intros K SK cd t n B H W Hs Hwf Ht Hwft.
  destruct (get_depth_values_zero_dim cd t n B H W Hs Ht Hwft)
    as (out & Hout & Hshape & Hdt & Hval).
  destruct (get_depth_values_float cd n (tnth t []) B H W Hs Hwf)
    as (out' & Hout' & Hshape' & _ & Hval').
  exists out, out'. do 5 (split; [done|]).
  intros b d h w Hb Hd Hh Hw. by rewrite Hval, Hval'.
Qed.

Lemma get_depth_values_non_float_interval_witness :
  exists out out',
    get_depth_values (full Float32 [1; 1; 2; 2] (Qn 10 1)) 5
      (PyTensor (mkTensor Float64 [] [Qn 2 1])) = Ok out /\
    get_depth_values (full Float32 [1; 1; 2; 2] (Qn 10 1)) 5
      (PyFloat (tnth (mkTensor Float64 [] [Qn 2 1]) [])) = Ok out' /\
    t_dtype out = Float32 /\
    forall b d h w, b < 1 -> d < 5 -> h < 2 -> w < 2 ->
      tget out [b; d; h; w] = tget out' [b; d; h; w].
Proof.
  destruct (proj2 get_depth_values_non_float_interval qnum _
              (full Float32 [1; 1; 2; 2] (Qn 10 1)) (mkTensor Float64 [] [Qn 2 1])
              5 1 2 2)
    as (out & out' & Hout & Hout' & _ & _ & Hdt & Hval);
    [reflexivity|reflexivity|reflexivity|reflexivity|].
  exists out, out'. split; [assumption|]. split; [assumption|].
  split; [assumption|].
  intros b d h w Hb Hd Hh Hw. apply (Hval b d h w Hb Hd Hh Hw).
Defined.

(** C5, counterexample.  In binary64 (a [torch.float64] depth map), with
    depth 2^60 everywhere, two depths and the positive interval 1.0: the
    minimum depth 2^60 - 1 rounds to 2^60, and so does 2^60 + 1; the two
    depth values are equal, not increasing. *)
Lemma get_depth_values_binary64_absorbs :
  get_depth_values (full Float64 [1; 1; 1; 1] (float_of_Z (2 ^ 60))) 2
                   (PyFloat (float_of_Z 1))
  = Ok (mkTensor Float64 [1; 2; 1; 1] [float_of_Z (2 ^ 60); float_of_Z (2 ^ 60)])
  /\ slt (float_of_Z 0) (float_of_Z 1) = true
  /\ slt (float_of_Z (2 ^ 60)) (float_of_Z (2 ^ 60)) = false.
Proof. vm_compute. repeat split. Qed.

(** C5 (corrected).  In exact arithmetic, for a finite depth map, a positive
    interval and at least two depths, the depth values of every pixel
    increase strictly along the depth axis. *)
Theorem get_depth_values_strictly_increasing
    (current_depth : tensor qnum) (n_depths : nat) (depth_interval : Qc) (B H W : nat) :
  shape current_depth = [B; 1; H; W] -> wf current_depth = true ->
  all_finite current_depth = true ->
  slt (of_Z 0) (Fin depth_interval) = true -> 2 <= n_depths ->
  exists out,
    get_depth_values current_depth n_depths (PyFloat (Fin depth_interval)) = Ok out /\
    forall b h w d d', b < B -> h < H -> w < W -> d < d' -> d' < n_depths ->
      exists v v', tget out [b; d; h; w] = Some v /\
                   tget out [b; d'; h; w] = Some v' /\
                   slt v v' = true.
Proof.
  intros Hs Hwf Hfin Hpos Hn.
  destruct (get_depth_values_float current_depth n_depths (Fin depth_interval)
              B H W Hs Hwf) as (out & Hout & _ & _ & Hval).
  exists out. split; [done|]. intros b h w d d' Hb Hh Hw Hd Hd'.
  destruct (all_finite_tnth current_depth [b; 0; h; w] Hfin Hwf) as [c Hc].
  { rewrite Hs. solve_in_bounds. }
  do 2 eexists. rewrite !Hval by lia. split; [done|]. split; [done|].
  rewrite Hc. cbn [sadd ssub smul sdiv of_Z qnum_scalar qnum_lift2 qnum_div].
  rewrite Qc_is_zero_Zq by done.
  apply qnum_lt_Fin in Hpos. rewrite this_Zq in Hpos.
  apply qnum_lt_Fin. rewrite !this_plus, !this_mult, !this_Zq.
  apply Qplus_lt_r, Qmult_lt_l; [done|].
  rewrite <- Zlt_Qlt. lia.
Qed.

Lemma get_depth_values_strictly_increasing_witness :
  exists out,
    get_depth_values (full Float32 [1; 1; 2; 2] (Qn 10 1)) 5 (PyFloat (Fin (Zq 2))) = Ok out /\
    forall b h w d d', b < 1 -> h < 2 -> w < 2 -> d < d' -> d' < 5 ->
      exists v v', tget out [b; d; h; w] = Some v /\
                   tget out [b; d'; h; w] = Some v' /\
                   slt v v' = true.
Proof.
  apply (get_depth_values_strictly_increasing
           (full Float32 [1; 1; 2; 2] (Qn 10 1)) 5 (Zq 2) 1 2 2).
  - reflexivity.
  - reflexivity.
  - reflexivity.
  - reflexivity.
  - lia.
Defined.

Section IntervalFacts.
Context {K : Type} {SK : Scalar K}.

Lemma reshape_column (t : tensor K) :
  reshape [-1; 1; 1; 1]%Z t
  = Ok (mkStrided (t_dtype t) [numel (shape t); 1; 1; 1] (data t)
          (default (contiguous_strides [numel (shape t); 1; 1; 1])
             (view_strides (shape t) (strides t) [numel (shape t); 1; 1; 1]))).
Proof.
  unfold reshape, infer_size. cbn -[Nat.modulo Nat.div].
  change (Z.to_nat 1) with 1. cbn -[Nat.modulo Nat.div].
  rewrite Nat.mod_1_r, Nat.div_1_r. done.
Qed.

Lemma normalize_interval_tensor (t : tensor K) :
  exists t', normalize_interval (PyTensor t) = Ok (PyTensor t') /\
             shape t' = interval_shape (shape t).
Proof.
  unfold normalize_interval, interval_shape.
  cbn [isinstance_float negb getattr_ndim as_tensor mbind result_bind].
  unfold ndim.
  destruct (length (shape t) =? 2) eqn:E2.
  - rewrite reshape_column. by eexists.
  - destruct (length (shape t) =? 3) eqn:E3.
    + unfold unsqueeze, ndim.
      apply Nat.eqb_eq in E3. rewrite E3. cbn. by eexists.
    + by eexists.
Qed.

Lemma binop_cases (f : K -> K -> K) (a b : tensor K) :
  match bshape (shape a) (shape b) with
  | Some s => exists c, binop f a b = Ok c /\ shape c = s
  | None => binop f a b = Raise RuntimeError
  end.
Proof. unfold binop. destruct (bshape _ _); [by eexists|done]. Qed.

(** With an array as interval the call can only fail in a broadcast. *)
Lemma get_depth_values_tensor_cases (current_depth : tensor K) n (t : tensor K) :
  if broadcasts (shape current_depth) (interval_shape (shape t)) n
  then exists out, get_depth_values current_depth n (PyTensor t) = Ok out
  else get_depth_values current_depth n (PyTensor t) = Raise RuntimeError.
Proof.
  destruct (normalize_interval_tensor t) as (t' & Hn & Hs).
  unfold get_depth_values, broadcasts. rewrite Hn, <- Hs. cbn.
  rewrite reshape_arange. cbn.
  pose proof (binop_cases ssub current_depth
                (tmap (smul (sdiv (of_Z (Z.of_nat n)) (of_Z 2))) t')) as H1.
  cbn [shape tmap] in H1.
  destruct (bshape (shape current_depth) (shape t')) as [s1|];
    [destruct H1 as (c1 & -> & Hc1)|by rewrite H1].
  cbn.
  pose proof (binop_cases smul t'
                (mkTensor (t_dtype current_depth) [1; n; 1; 1]
                   (data (arange (K:=K) n (t_dtype current_depth))))) as H2.
  cbn [shape] in H2.
  destruct (bshape (shape t') [1; n; 1; 1]) as [s2|];
    [destruct H2 as (c2 & -> & Hc2)|by rewrite H2].
  cbn.
  pose proof (binop_cases sadd c1 c2) as H3. rewrite Hc1, Hc2 in H3.
  destruct (bshape s1 s2) as [s3|].
  - destruct H3 as (c3 & -> & _). rewrite bool_decide_true by eauto. by eexists.
  - rewrite H3. rewrite bool_decide_false by (by intros [? ?]). done.
Qed.

End IntervalFacts.

(** C7, counterexample.  None of these calls fails: an interval of rank 1,
    an interval of rank 4, and a (1,1) interval whose leading dimension
    differs from the batch size 2 of the depth map. *)
Lemma get_depth_values_accepts_other_ranks :
  is_Ok (get_depth_values (full Float32 [2; 1; 2; 2] (Qn 10 1)) 3
           (PyTensor (full Float32 [2] (Qn 1 1)))) = true
  /\ is_Ok (get_depth_values (full Float32 [2; 1; 2; 2] (Qn 10 1)) 3
              (PyTensor (full Float32 [2; 1; 2; 2] (Qn 1 1)))) = true
  /\ is_Ok (get_depth_values (full Float32 [2; 1; 2; 2] (Qn 10 1)) 3
              (PyTensor (full Float32 [1; 1] (Qn 1 1)))) = true.
Proof. vm_compute. repeat split. Qed.

(** C7 (corrected).  No rank is rejected as such.  With an array as
    interval, the call fails exactly when the interval, after the rank-2
    reshape to (numel,1,1,1) or the rank-3 unsqueeze, does not broadcast
    with the depth map and the (1,n_depths,1,1) index sequence; the failure
    is torch's RuntimeError and no result is produced. *)
Theorem get_depth_values_fails_iff_no_broadcast :
  forall (K : Type) (SK : Scalar K) (current_depth : tensor K) (n_depths : nat)
         (depth_interval : tensor K),
    is_Ok (get_depth_values current_depth n_depths (PyTensor depth_interval))
    = broadcasts (shape current_depth) (interval_shape (shape depth_interval)) n_depths
    /\ (get_depth_values current_depth n_depths (PyTensor depth_interval)
        = Raise RuntimeError
        <-> broadcasts (shape current_depth)
              (interval_shape (shape depth_interval)) n_depths = false).
Proof.
  intros K SK cd n t.
  pose proof (get_depth_values_tensor_cases cd n t) as Hc.
  destruct (broadcasts _ _ _).
  - destruct Hc as [out ->]. cbn. split; [done|]. split; discriminate.
  - rewrite Hc. cbn. done.
Qed.

(** ** [depth_regression] *)

Lemma numel_app s1 s2 : numel (s1 ++ s2) = numel s1 * numel s2.
Proof.
  induction s1 as [|n s1 IH].
  - cbn [app]. change (numel []) with 1. lia.
  - cbn [app]. rewrite !numel_cons, IH. lia.
Qed.

Lemma infer_size_nat n s :
  infer_size n (Z.of_nat <$> s) = if n =? numel s then Some s else None.
Proof.
  unfold infer_size.
  assert (existsb (fun z => (z <? -1)%Z) (Z.of_nat <$> s) = false) as ->.
  { induction s as [|k s IH]; [done|]. cbn. rewrite IH.
    destruct (Z.ltb_spec (Z.of_nat k) (-1)); [lia|done]. }
  assert (List.filter (fun z => negb (z =? -1)%Z) (Z.of_nat <$> s) = Z.of_nat <$> s) as ->.
  { induction s as [|k s IH]; [done|]. cbn. rewrite IH.
    destruct (Z.eqb_spec (Z.of_nat k) (-1)); [lia|done]. }
  rewrite Nat.sub_diag.
  assert (Z.to_nat <$> (Z.of_nat <$> s) = s) as ->.
  { induction s as [|k s IH]; [done|]. cbn. by rewrite IH, Nat2Z.id. }
  done.
Qed.

(** ** Positions in memory *)

Lemma numel_pos_cons n s : 0 < numel (n :: s) -> 0 < n /\ 0 < numel s.
Proof. rewrite numel_cons. nia. Qed.

Lemma in_bounds_unravel s n : n < numel s -> in_bounds s (unravel s n) = true.
Proof.
  revert n; induction s as [|d s IH]; intros n Hn; [done|].
  destruct (numel_pos_cons d s ltac:(lia)) as [Hd Hs].
  cbn [unravel]. apply in_bounds_cons. split.
  - rewrite numel_cons in Hn. apply Nat.Div0.div_lt_upper_bound. lia.
  - apply IH. apply Nat.mod_upper_bound. lia.
Qed.

Lemma ravel_unravel s n : n < numel s -> ravel s (unravel s n) = n.
Proof.
  revert n; induction s as [|d s IH]; intros n Hn.
  - cbn in *. lia.
  - destruct (numel_pos_cons d s ltac:(lia)) as [Hd Hs].
    cbn [unravel ravel]. rewrite IH by (apply Nat.mod_upper_bound; lia).
    rewrite (Nat.div_mod_eq n (numel s)) at 3. lia.
Qed.

Lemma unravel_ravel s idx : in_bounds s idx = true -> unravel s (ravel s idx) = idx.
Proof.
  revert idx; induction s as [|d s IH]; intros [|i idx]; try done.
  intros [Hi Hb]%in_bounds_cons. cbn [ravel unravel].
  pose proof (ravel_lt s idx Hb) as Hr.
  rewrite Nat.div_add_l, Nat.div_small, Nat.add_0_r by lia.
  rewrite Nat.add_comm, Nat.Div0.mod_add, Nat.mod_small by lia.
  by rewrite IH.
Qed.

Lemma offset_nil_l idx : offset [] idx = 0.
Proof. unfold offset. by destruct idx. Qed.

Lemma offset_cons k st i idx : offset (k :: st) (i :: idx) = i * k + offset st idx.
Proof. reflexivity. Qed.

(** Two stride lists that agree wherever the index is not 0 give the same
    position. *)
Lemma offset_ext a b idx :
  (forall k i, idx !! k = Some i -> i <> 0 -> default 0 (a !! k) = default 0 (b !! k)) ->
  offset a idx = offset b idx.
Proof.
  revert a b; induction idx as [|i idx IH]; intros a b Hab; [by destruct a, b|].
  assert (i * default 0 (a !! 0) = i * default 0 (b !! 0)) as H0.
  { destruct i as [|i]; [lia|]. by rewrite (Hab 0 (S i)). }
  assert (offset (tail a) idx = offset (tail b) idx) as Ht.
  { apply IH. intros k j Hk Hj. rewrite !lookup_tail. by apply (Hab (S k) j). }
  destruct a as [|ka a], b as [|kb b]; cbn [tail lookup list_lookup default] in *;
    rewrite ?offset_cons, ?offset_nil_l in *; unfold id in *; lia.
Qed.

Lemma offset_zeros st idx : offset st (idx ++ [0; 0]) = offset st idx.
Proof.
  revert st; induction idx as [|i idx IH]; intros [|k st]; try done.
  - cbn. by destruct st.
  - cbn [app]. by rewrite !offset_cons, IH.
Qed.

Lemma offset_unravel_0 st s : offset st (unravel s 0) = 0.
Proof.
  revert st; induction s as [|d s IH]; intros [|k st]; try done.
  cbn [unravel]. rewrite Nat.Div0.div_0_l, Nat.Div0.mod_0_l, offset_cons, IH. lia.
Qed.

Lemma contiguous_strides_cons n s :
  contiguous_strides (n :: s) = numel s :: contiguous_strides s.
Proof. reflexivity. Qed.

(** The row-major stride of a dimension of size 2 or more is the rank of
    the unit index of that dimension. *)
Lemma unravel_unit s : forall k c d,
  0 < numel s -> contiguous_strides s !! k = Some c -> s !! k = Some d -> 2 <= d ->
  c < numel s /\ forall st, offset st (unravel s c) = default 0 (st !! k).
Proof.
  induction s as [|n s IH]; intros k c d Hpos Hc Hd H2; [done|].
  destruct (numel_pos_cons n s Hpos) as [Hn Hs].
  rewrite contiguous_strides_cons in Hc. rewrite numel_cons.
  destruct k as [|k]; cbn [lookup list_lookup] in Hc, Hd.
  - injection Hc as <-. injection Hd as ->. split; [nia|].
    intros st. cbn [unravel]. rewrite Nat.div_same, Nat.Div0.mod_same by lia.
    destruct st as [|k0 st]; [done|].
    rewrite offset_cons, offset_unravel_0. cbn. lia.
  - destruct (IH k c d Hs Hc Hd H2) as [Hlt Hoff]. split; [nia|].
    intros st. cbn [unravel]. rewrite Nat.div_small, Nat.mod_small by done.
    destruct st as [|k0 st]; [done|].
    by rewrite offset_cons, Hoff.
Qed.

Lemma in_bounds_lookup s idx k i :
  in_bounds s idx = true -> idx !! k = Some i -> exists d, s !! k = Some d /\ i < d.
Proof.
  revert idx k; induction s as [|n s IH]; intros [|j idx] k; try done.
  intros [Hj Hb]%in_bounds_cons Hk. destruct k as [|k].
  - injection Hk as <-. by exists n.
  - by apply (IH idx k).
Qed.

Lemma unravel_app_ones s n :
  n < numel s -> unravel (s ++ [1; 1]) n = unravel s n ++ [0; 0].
Proof.
  revert n; induction s as [|d s IH]; intros n Hn.
  - cbn in Hn. by replace n with 0 by lia.
  - destruct (numel_pos_cons d s ltac:(lia)) as [Hd Hs].
    cbn [app unravel]. rewrite numel_app.
    replace (numel s * numel [1; 1]) with (numel s) by (cbn; lia).
    by rewrite IH by (apply Nat.mod_upper_bound; lia).
Qed.

Lemma contiguous_strides_app_ones s :
  contiguous_strides (s ++ [1; 1]) = contiguous_strides s ++ [1; 1].
Proof.
  induction s as [|d s IH]; [done|].
  cbn [app]. rewrite !contiguous_strides_cons, IH, numel_app.
  cbn [app]. f_equal. cbn. lia.
Qed.

Lemma length_contiguous_strides s : length (contiguous_strides s) = length s.
Proof. induction s as [|d s IH]; [done|]. rewrite contiguous_strides_cons. cbn. by rewrite IH. Qed.

(** A view exists as soon as every entry keeps its position under the
    strides read off the old layout. *)
Lemma view_strides_ok s st s' :
  (forall n, n < numel s ->
     position s' ((fun c => if c <? numel s then position s st c else c)
                    <$> contiguous_strides s') n
     = position s st n) ->
  exists st', view_strides s st s' = Some st'.
Proof.
  intros Hpos. unfold view_strides.
  destruct ((numel s =? 0) || contiguous_from s st); [by eexists|].
  cbv zeta.
  replace (forallb _ _) with true; [by eexists|].
  symmetry. apply forallb_forall. intros n Hn.
  apply in_seq in Hn. apply Nat.eqb_eq, Hpos. lia.
Qed.

(** Two trailing dimensions of size 1 can be added to any layout. *)
Lemma view_strides_app_ones s st :
  exists st', view_strides s st (s ++ [1; 1]) = Some st'.
Proof.
  apply view_strides_ok. intros n Hn. unfold position.
  rewrite unravel_app_ones, offset_zeros by done.
  pose proof (in_bounds_unravel s n Hn) as Hb.
  apply offset_ext. intros k i Hk Hi.
  destruct (in_bounds_lookup s _ k i Hb Hk) as (d & Hd & Hid).
  destruct (lookup_lt_is_Some_2 (contiguous_strides s) k) as [c Hc].
  { rewrite length_contiguous_strides. by apply lookup_lt_Some in Hd. }
  destruct (unravel_unit s k c d ltac:(lia) Hc Hd ltac:(lia)) as [Hlt Hoff].
  rewrite contiguous_strides_app_ones, list_lookup_fmap, lookup_app_l
    by (rewrite length_contiguous_strides; by apply lookup_lt_Some in Hd).
  rewrite Hc. cbn [fmap option_fmap option_map default].
  replace (c <? numel s) with true by (symmetry; by apply Nat.ltb_lt).
  apply Hoff.
Qed.

Lemma position_ravel s st idx :
  in_bounds s idx = true -> position s st (ravel s idx) = offset st idx.
Proof. intros Hb. unfold position. by rewrite unravel_ravel. Qed.

(** Lines 95-96: the (B, 2, N) grid, permuted to (B, N, 2), can be viewed
    as (B, D, M, 2) when N = D * M: the dimension of size N is split, and the
    others are kept. *)
Lemma view_strides_grid B D M N a c :
  N = D * M -> a = 2 * N -> c = N ->
  exists st', view_strides [B; N; 2] [a; 1; c] [B; D; M; 2] = Some st'.
Proof.
  intros -> -> ->. apply view_strides_ok. intros n Hn.
  set (s := [B; D * M; 2]) in *. set (s' := [B; D; M; 2]).
  set (st := [2 * (D * M); 1; D * M]).
  assert (numel s' = numel s) as Hnum by (cbn; lia).
  pose proof (in_bounds_unravel s' n ltac:(lia)) as Hb'.
  pose proof (ravel_unravel s' n ltac:(lia)) as Hr'.
  destruct (unravel s' n) as [|b [|d [|k [|e [|]]]]] eqn:Hidx; try done.
  apply in_bounds_cons in Hb' as [Hb Hb'].
  apply in_bounds_cons in Hb' as [Hd Hb'].
  apply in_bounds_cons in Hb' as [Hk Hb'].
  apply in_bounds_cons in Hb' as [He _].
  assert (in_bounds s [b; d * M + k; e] = true) as Hin.
  { apply in_bounds_cons; split; [done|]. apply in_bounds_cons; split; [nia|].
    apply in_bounds_cons; split; [done|done]. }
  assert (n = ravel s [b; d * M + k; e]) as Hn'.
  { rewrite <- Hr'. cbn. nia. }
  unfold position at 1. rewrite Hidx.
  rewrite Hn' at 1. rewrite position_ravel by done.
  assert (forall j (idx : list nat), in_bounds s idx = true -> j = ravel s idx ->
            (if j <? numel s then position s st j else j) = offset st idx) as Hg.
  { intros j idx Hi ->. rewrite position_ravel by done.
    by replace (ravel s idx <? numel s) with true
      by (symmetry; apply Nat.ltb_lt; by apply ravel_lt). }
  change (contiguous_strides s')
    with [numel [D; M; 2]; numel [M; 2]; numel [2]; numel []].
  cbn [fmap list_fmap].
  rewrite !offset_cons.
  assert (b * (if numel [D; M; 2] <? numel s then position s st (numel [D; M; 2])
               else numel [D; M; 2]) = b * (2 * (D * M))) as ->.
  { destruct b as [|b]; [lia|]. f_equal.
    rewrite (Hg _ [1; 0; 0]); [cbn; lia| |cbn; lia].
    apply in_bounds_cons; split; [lia|]. apply in_bounds_cons; split; [nia|].
    apply in_bounds_cons; split; [lia|done]. }
  assert (d * (if numel [M; 2] <? numel s then position s st (numel [M; 2])
               else numel [M; 2]) = d * M) as ->.
  { destruct d as [|d]; [lia|]. f_equal.
    rewrite (Hg _ [0; M; 0]); [cbn; lia| |cbn; lia].
    apply in_bounds_cons; split; [lia|]. apply in_bounds_cons; split; [nia|].
    apply in_bounds_cons; split; [lia|done]. }
  assert (k * (if numel [2] <? numel s then position s st (numel [2])
               else numel [2]) = k) as ->.
  { destruct k as [|k]; [lia|].
    rewrite (Hg _ [0; 1; 0]); [cbn; lia| |cbn; lia].
    apply in_bounds_cons; split; [lia|]. apply in_bounds_cons; split; [nia|].
    apply in_bounds_cons; split; [lia|done]. }
  assert (e * (if numel [] <? numel s then position s st (numel [])
               else numel []) = e * (D * M)) as ->.
  { destruct e as [|e]; [lia|]. f_equal.
    rewrite (Hg _ [0; 0; 1]); [cbn; lia| |cbn; lia].
    apply in_bounds_cons; split; [lia|]. apply in_bounds_cons; split; [nia|].
    apply in_bounds_cons; split; [lia|done]. }
  unfold st. rewrite !offset_cons. cbn. lia.
Qed.

Section RegressionFacts.
Context {K : Type} {SK : Scalar K}.

Lemma reshape_nat (s : list nat) (t : tensor K) :
  numel s = numel (shape t) ->
  reshape (Z.of_nat <$> s) t
  = Ok (mkStrided (t_dtype t) s (data t)
          (default (contiguous_strides s) (view_strides (shape t) (strides t) s))).
Proof.
  intros Hn. unfold reshape. rewrite infer_size_nat, Hn, Nat.eqb_refl. done.
Qed.

Lemma view_ok (s st : list nat) (t : tensor K) :
  numel s = numel (shape t) -> view_strides (shape t) (strides t) s = Some st ->
  view (Z.of_nat <$> s) t = Ok (mkStrided (t_dtype t) s (data t) st).
Proof.
  intros Hn Hst. unfold view. by rewrite infer_size_nat, Hn, Nat.eqb_refl, Hst.
Qed.

(** A contiguous tensor can be viewed under every shape of as many entries. *)
Lemma view_nat (s : list nat) (t : tensor K) :
  is_contiguous t = true -> numel s = numel (shape t) ->
  view (Z.of_nat <$> s) t = Ok (mkTensor (t_dtype t) s (data t)).
Proof.
  intros Hc Hn. apply view_ok; [done|]. by apply view_strides_contiguous.
Qed.

(** Line 113 succeeds whatever the strides of [depth_values] are. *)
Lemma regression_view (depth_values : tensor K) :
  exists t,
    (if ndim depth_values <=? 2
     then view ((Z.of_nat <$> shape depth_values) ++ [1; 1]%Z) depth_values
     else Ok depth_values) = Ok t /\
    t_dtype t = t_dtype depth_values /\
    shape t = regression_shape (shape depth_values) /\
    data t = data depth_values.
Proof.
  unfold regression_shape, ndim.
  destruct (length (shape depth_values) <=? 2).
  - change ((Z.of_nat <$> shape depth_values) ++ [1%Z; 1%Z])
      with ((Z.of_nat <$> shape depth_values) ++ (Z.of_nat <$> [1; 1])).
    rewrite <- fmap_app.
    destruct (view_strides_app_ones (shape depth_values) (strides depth_values))
      as [st Hst].
    rewrite (view_ok _ st) by (done || (rewrite numel_app; cbn; lia)).
    by eexists.
  - by eexists.
Qed.

(** Entries are read from the shape and the data alone. *)
Lemma tnth_layout (t u : tensor K) idx :
  shape t = shape u -> data t = data u -> tnth t idx = tnth u idx.
Proof. intros Hs Hd. unfold tnth, tget. by rewrite Hs, Hd. Qed.

(** What the call does, by cases on the broadcast of the two shapes. *)
Lemma depth_regression_cases (p depth_values : tensor K) :
  match bshape (shape p) (regression_shape (shape depth_values)) with
  | None => depth_regression p depth_values = Raise RuntimeError
  | Some s =>
      match s !! 1 with
      | None => depth_regression p depth_values = Raise IndexError
      | Some n =>
          depth_regression p depth_values
          = Ok (tabulate (t_dtype depth_values) (delete 1 s)
                  (fun idx => ssum ((fun k =>
                       smul (tnth p (bidx (shape p) (take 1 idx ++ k :: drop 1 idx)))
                            (tnth (regression_values depth_values)
                               (bidx (regression_shape (shape depth_values))
                                     (take 1 idx ++ k :: drop 1 idx))))
                     <$> seq 0 n)))
      end
  end.
Proof.
  unfold depth_regression.
  destruct (regression_view depth_values) as (t & -> & Hdt & Hst & Hdat).
  cbn [mbind result_bind]. unfold binop. rewrite Hst.
  destruct (bshape _ _) as [s|]; [|done].
  cbn [mbind result_bind]. unfold sum. rewrite !shape_tabulate, t_dtype_tabulate.
  destruct (s !! 1) as [n|] eqn:Hn; [|done].
  cbn [mbind result_bind]. rewrite to_tabulate, Hdt. f_equal.
  apply tabulate_ext. intros idx Hidx.
  f_equal. apply list_fmap_ext. intros j k Hk.
  apply lookup_seq in Hk as [-> Hj].
  rewrite tnth_tabulate; [by rewrite (tnth_layout t (regression_values depth_values))|].
  (* the index with [k] put back at axis 1 is in bounds of [s] *)
  destruct s as [|a [|m s]]; try done.
  cbn in Hn. injection Hn as ->.
  destruct idx as [|b idx]; [done|].
  apply in_bounds_cons in Hidx as [Hb Hidx]. cbn.
  apply andb_true_iff; split; [by apply Nat.ltb_lt|].
  apply andb_true_iff; split; [by apply Nat.ltb_lt|done].
Qed.

End RegressionFacts.

Lemma qnum_eqb_eq (x y : qnum) : qnum_eqb x y = true -> x = y.
Proof.
  destruct x as [x|], y as [y|]; try done. cbn.
  intros Hq%Qeq_bool_iff. f_equal. by apply Qc_is_canon.
Qed.

Lemma indices_elem_of s idx : in_bounds s idx = true -> idx ∈ indices s.
Proof. intros Hb. eapply list_elem_of_lookup_2, indices_lookup, Hb. Qed.

Lemma one_hot_tnth (p : tensor qnum) k B D H W b d h w :
  one_hot p k = true -> shape p = [B; D; H; W] ->
  b < B -> d < D -> h < H -> w < W ->
  tnth p [b; d; h; w] = of_Z (if d =? k then 1 else 0).
Proof.
  intros Hp Hs Hb Hd Hh Hw. unfold one_hot in Hp.
  rewrite forallb_forall in Hp.
  specialize (Hp [b; d; h; w]). cbn in Hp. apply qnum_eqb_eq, Hp.
  apply list_elem_of_In, indices_elem_of. rewrite Hs. solve_in_bounds.
Qed.

Lemma all_finite_tnth_any (t : tensor qnum) idx :
  all_finite t = true -> tnth t idx = Fin (qval (tnth t idx)).
Proof.
  intros Hf. unfold tnth, tget.
  destruct (in_bounds _ _); [|done].
  destruct (data t !! ravel (shape t) idx) as [v|] eqn:Hv; [|done].
  apply list_elem_of_lookup_2, list_elem_of_In in Hv.
  unfold all_finite in Hf. rewrite forallb_forall in Hf.
  specialize (Hf _ Hv). by destruct v.
Qed.

Lemma in_range_S a n k :
  (a <=? k) && (k <? a + S n) = (a =? k) || ((S a <=? k) && (k <? S a + n)).
Proof.
  apply eq_true_iff_eq.
  rewrite orb_true_iff, !andb_true_iff, !Nat.leb_le, !Nat.ltb_lt, Nat.eqb_eq. lia.
Qed.

(** A weighted sum whose weights are 1 at [k] and 0 elsewhere. *)
Lemma foldl_one_hot (g : nat -> Qc) k a n (acc : Qc) :
  foldl sadd (Fin acc)
    ((fun d => smul (of_Z (if d =? k then 1 else 0)) (Fin (g d))) <$> seq a n)
  = Fin (acc + (if (a <=? k) && (k <? a + n) then g k else 0))%Qc.
Proof.
  revert a acc; induction n as [|n IH]; intros a acc.
  - cbn [seq fmap list_fmap foldl]. f_equal.
    replace ((a <=? k) && (k <? a + 0)) with false; [ring|].
    symmetry. apply andb_false_iff.
    destruct (Nat.leb_spec a k); [right; apply Nat.ltb_ge; lia|by left].
  - cbn [seq fmap list_fmap foldl]. rewrite in_range_S.
    cbn [sadd smul of_Z qnum_scalar qnum_lift2]. rewrite IH. f_equal.
    destruct (Nat.eqb_spec a k) as [->|Hak]; cbn [orb].
    + replace ((S k <=? k) && (k <? S k + n)) with false.
      * change (Zq 1) with 1%Qc. ring.
      * symmetry. apply andb_false_iff. left. apply Nat.leb_gt. lia.
    + change (Zq 0) with 0%Qc. ring.
Qed.

Lemma ssum_one_hot (g : nat -> Qc) k D :
  k < D ->
  ssum ((fun d => smul (of_Z (if d =? k then 1 else 0)) (Fin (g d))) <$> seq 0 D)
  = Fin (g k).
Proof.
  intros Hk. unfold ssum.
  etrans; [apply (foldl_one_hot g k 0 D (Zq 0))|]. f_equal.
  replace ((0 <=? k) && (k <? 0 + D)) with true.
  - change (Zq 0) with 0%Qc. ring.
  - symmetry. apply andb_true_iff. split; [done|]. apply Nat.ltb_lt. lia.
Qed.

Lemma depth_regression_value {K} {SK : Scalar K} (p depth_values : tensor K) B D H W :
  shape p = [B; D; H; W] ->
  bshape [B; D; H; W] (regression_shape (shape depth_values)) = Some [B; D; H; W] ->
  exists out,
    depth_regression p depth_values = Ok out /\
    shape out = [B; H; W] /\ t_dtype out = t_dtype depth_values /\
    forall b h w, b < B -> h < H -> w < W ->
      tget out [b; h; w]
      = Some (ssum ((fun d => smul (tnth p [b; d; h; w])
                                   (depth_value_at depth_values b d h w))
                      <$> seq 0 D)).
Proof.
  intros Hs Hbc. pose proof (depth_regression_cases p depth_values) as Hc.
  rewrite Hs, Hbc in Hc. cbn [lookup list_lookup] in Hc.
  eexists. split; [exact Hc|]. split; [done|]. split; [done|].
  intros b h w Hb Hh Hw. rewrite tget_tabulate by (cbn [delete list_delete]; solve_in_bounds).
  f_equal. f_equal. apply list_fmap_ext. intros i d [-> Hd]%lookup_seq.
  cbn [take drop app]. unfold depth_value_at. f_equal.
  f_equal. simpl_bidx. done.
Qed.

(** A volume of the shape of [p] is multiplied entry by entry. *)
Lemma depth_value_at_volume {K} {SK : Scalar K} (depth_values : tensor K) B D H W b d h w :
  shape depth_values = [B; D; H; W] -> b < B -> d < D -> h < H -> w < W ->
  depth_value_at depth_values b d h w = tnth depth_values [b; d; h; w].
Proof.
  intros Hs Hb Hd Hh Hw. unfold depth_value_at, regression_values, regression_shape.
  rewrite Hs. cbn [length Nat.leb]. simpl_bidx. unfold tnth, tget. cbn [shape data].
  by rewrite Hs.
Qed.

(** A flat sequence of D depth values is shared by every pixel. *)
Lemma depth_value_at_flat {K} {SK : Scalar K} (depth_values : tensor K) D b d h w :
  shape depth_values = [D] -> d < D ->
  depth_value_at depth_values b d h w = tnth depth_values [d].
Proof.
  intros Hs Hd. unfold depth_value_at, regression_values, regression_shape, tnth, tget.
  cbn [shape data]. rewrite Hs. cbn [length Nat.leb app]. simpl_bidx.
  cbn [in_bounds ravel].
  replace (d <? D) with true by (symmetry; by apply Nat.ltb_lt).
  cbn [andb Nat.ltb Nat.leb].
  do 2 f_equal; cbn; lia.
Qed.

Lemma bshape_refl s : bshape s s = Some s.
Proof.
  unfold bshape.
  assert (forall r, bshape_rev r r = Some r) as ->.
  { induction r as [|a r IH]; [done|]. cbn. rewrite bdim2_refl. cbn. by rewrite IH. }
  cbn. by rewrite reverse_involutive.
Qed.

(** A weighted sum whose weights are 1 at [k] and 0 elsewhere, in any
    arithmetic: the accumulator is 0 before [k] and the value at [k] from
    there on. *)
Lemma foldl_selects {K} {SK : Scalar K} (v : nat -> K) k a n (acc : K) :
  (forall d, a <= d < a + n -> selects (v k) (v d)) ->
  acc = (if k <? a then v k else of_Z 0) ->
  foldl sadd acc ((fun d => smul (of_Z (if d =? k then 1 else 0)) (v d)) <$> seq a n)
  = if k <? a + n then v k else of_Z 0.
Proof.
  revert a acc; induction n as [|n IH]; intros a acc Hlaw ->.
  - cbn [seq fmap list_fmap foldl]. by rewrite Nat.add_0_r.
  - cbn [seq fmap list_fmap foldl].
    destruct (Hlaw a ltac:(lia)) as (H1 & H2 & H3 & H4).
    replace (a + S n) with (S a + n) by lia.
    apply IH; [intros d Hd; apply Hlaw; lia|].
    destruct (Nat.ltb_spec k a) as [Hka|Hka].
    + replace (a =? k) with false by (symmetry; apply Nat.eqb_neq; lia).
      replace (k <? S a) with true by (symmetry; apply Nat.ltb_lt; lia). done.
    + destruct (Nat.eqb_spec a k) as [->|Hne].
      * replace (k <? S k) with true by (symmetry; apply Nat.ltb_lt; lia).
        by rewrite H1, H2.
      * replace (k <? S a) with false by (symmetry; apply Nat.ltb_ge; lia). done.
Qed.

Lemma selects_finite (x y : Qc) : selects (Fin x) (Fin y).
Proof.
  unfold selects. cbn. change (Zq 1) with 1%Qc. change (Zq 0) with 0%Qc.
  repeat split; f_equal; ring.
Qed.

(** The regression of a one-hot volume, in any arithmetic. *)
Lemma depth_regression_one_hot {K} {SK : Scalar K} (p depth_values : tensor K)
    B D H W k :
  shape p = [B; D; H; W] ->
  bshape [B; D; H; W] (regression_shape (shape depth_values)) = Some [B; D; H; W] ->
  k < D ->
  (forall b d h w, b < B -> d < D -> h < H -> w < W ->
     tnth p [b; d; h; w] = of_Z (if d =? k then 1 else 0)) ->
  exists out,
    depth_regression p depth_values = Ok out /\
    forall b h w, b < B -> h < H -> w < W ->
      (forall d, d < D -> selects (depth_value_at depth_values b k h w)
                                  (depth_value_at depth_values b d h w)) ->
      tget out [b; h; w] = Some (depth_value_at depth_values b k h w).
Proof.
  intros Hs Hbc Hk Hp.
  destruct (depth_regression_value p depth_values B D H W Hs Hbc)
    as (out & Hout & _ & _ & Hval).
  exists out. split; [done|]. intros b h w Hb Hh Hw Hlaw.
  rewrite Hval by done. f_equal. unfold ssum.
  rewrite (list_fmap_ext _
             (fun d => smul (of_Z (if d =? k then 1 else 0))
                            (depth_value_at depth_values b d h w))).
  - rewrite (foldl_selects (fun d => depth_value_at depth_values b d h w) k 0 D).
    + by replace (k <? 0 + D) with true by (symmetry; apply Nat.ltb_lt; lia).
    + intros d Hd. apply Hlaw. lia.
    + done.
  - intros i d Hd. apply lookup_seq in Hd as [Hd' Hd]. cbn in Hd'. subst d.
    by rewrite Hp.
Qed.

(** C3, counterexamples.  In binary64, a volume that is one-hot at depth
    index 0 and the depth values (5, inf): the product 0 * inf is NaN and so
    is the sum, not the depth value 5 at index 0.  The same in exact
    arithmetic with an undefined second depth value.  And depth values of
    rank 1 need not give a (B,H,W) map: two depth values against a volume of
    three depths do not broadcast, and the call raises. *)
Lemma depth_regression_one_hot_not_exact :
  depth_regression (mkTensor Float32 [1; 2; 1; 1] [1; 0]%float)
                   (mkTensor Float32 [2] [5%float; PrimFloat.infinity])
  = Ok (mkTensor Float32 [1; 1; 1] [PrimFloat.nan])
  /\ one_hot (one_hot_tensor Float32 [1; 2; 1; 1] 0) 0 = true
  /\ match depth_regression (one_hot_tensor Float32 [1; 2; 1; 1] 0)
             (mkTensor Float32 [2] [Qn 5 1; Undef]) with
     | Ok out => shape out = [1; 1; 1] /\ same_values out [Undef] = true
     | Raise _ => False
     end
  /\ depth_regression (one_hot_tensor Float32 [1; 3; 1; 1] 0)
       (mkTensor Float32 [2] [Qn 5 1; Qn 6 1])
     = Raise RuntimeError.
Proof. vm_compute. repeat split. Qed.

(** C3 (corrected).  For a probability volume [p] of shape (B,D,H,W) and
    depth values of the same shape, or of rank at most 2 and broadcasting to
    that shape, [depth_regression] returns a (B,H,W) map with the dtype of
    the depth values whose entry (b,h,w) is the sum over d of
    [p[b,d,h,w] * depth_values[b,d,h,w]], in any arithmetic.  When [p] is
    one-hot at depth index [k] at every pixel, that entry is exactly the
    depth value at index [k] wherever the depth values of the pixel are
    such that multiplying by 1 and adding 0 change nothing and 0 times a
    depth value adds nothing; this is the case of all finite depth values
    in exact arithmetic. *)
Theorem depth_regression_expectation :
  (forall (K : Type) (SK : Scalar K) (p depth_values : tensor K) (B D H W : nat),
      shape p = [B; D; H; W] ->
      shape depth_values = [B; D; H; W] \/
      (length (shape depth_values) <= 2 /\
       bshape [B; D; H; W] (shape depth_values ++ [1; 1]) = Some [B; D; H; W]) ->
      exists out,
        depth_regression p depth_values = Ok out /\
        shape out = [B; H; W] /\ t_dtype out = t_dtype depth_values /\
        forall b h w, b < B -> h < H -> w < W ->
          tget out [b; h; w]
          = Some (ssum ((fun d => smul (tnth p [b; d; h; w])
                                       (depth_value_at depth_values b d h w))
                          <$> seq 0 D)) /\
          (shape depth_values = [B; D; H; W] ->
           forall d, d < D ->
             depth_value_at depth_values b d h w = tnth depth_values [b; d; h; w]) /\
          (shape depth_values = [D] ->
           forall d, d < D ->
             depth_value_at depth_values b d h w = tnth depth_values [d]))
  /\ (forall (K : Type) (SK : Scalar K) (p depth_values : tensor K) (B D H W k : nat),
        shape p = [B; D; H; W] ->
        shape depth_values = [B; D; H; W] \/
        (length (shape depth_values) <= 2 /\
         bshape [B; D; H; W] (shape depth_values ++ [1; 1]) = Some [B; D; H; W]) ->
        k < D ->
        (forall b d h w, b < B -> d < D -> h < H -> w < W ->
           tnth p [b; d; h; w] = of_Z (if d =? k then 1 else 0)) ->
        exists out,
          depth_regression p depth_values = Ok out /\
          forall b h w, b < B -> h < H -> w < W ->
            (forall d, d < D -> selects (depth_value_at depth_values b k h w)
                                        (depth_value_at depth_values b d h w)) ->
            tget out [b; h; w] = Some (depth_value_at depth_values b k h w))
  /\ (forall (p depth_values : tensor qnum) (B D H W k : nat),
        shape p = [B; D; H; W] ->
        shape depth_values = [B; D; H; W] \/
        (length (shape depth_values) <= 2 /\
         bshape [B; D; H; W] (shape depth_values ++ [1; 1]) = Some [B; D; H; W]) ->
        all_finite depth_values = true -> k < D -> one_hot p k = true ->
        exists out,
          depth_regression p depth_values = Ok out /\
          forall b h w, b < B -> h < H -> w < W ->
            tget out [b; h; w] = Some (depth_value_at depth_values b k h w)).
Proof.
  assert (forall (s : list nat) B D H W,
             s = [B; D; H; W] \/
             (length s <= 2 /\ bshape [B; D; H; W] (s ++ [1; 1]) = Some [B; D; H; W]) ->
             bshape [B; D; H; W] (regression_shape s) = Some [B; D; H; W]) as Hbc.
  { intros s B D H W [->|[Hlen Hb]]; unfold regression_shape.
    - cbn [length Nat.leb]. apply bshape_refl.
    - apply Nat.leb_le in Hlen. by rewrite Hlen. }
  split; [|split].
  - intros K SK p dv B D H W Hs Hdv.
    destruct (depth_regression_value p dv B D H W Hs (Hbc _ _ _ _ _ Hdv))
      as (out & Hout & Hshape & Hdt & Hval).
    exists out. repeat (split; [done|]). intros b h w Hb Hh Hw.
    split; [by apply Hval|]. split.
    + intros Hsd d Hd. by apply depth_value_at_volume with B D H W.
    + intros Hsd d Hd. by apply depth_value_at_flat with D.
  - intros K SK p dv B D H W k Hs Hdv Hk Hp.
    by apply (depth_regression_one_hot p dv B D H W k Hs (Hbc _ _ _ _ _ Hdv) Hk Hp).
  - intros p dv B D H W k Hs Hdv Hfin Hk Hp.
    destruct (depth_regression_one_hot p dv B D H W k Hs (Hbc _ _ _ _ _ Hdv) Hk)
      as (out & Hout & Hval).
    { intros b d h w Hb Hd Hh Hw. by apply (one_hot_tnth p k B D H W). }
    exists out. split; [done|]. intros b h w Hb Hh Hw. apply Hval; [done..|].
    intros d Hd. assert (all_finite (regression_values dv) = true) as Hfin' by done.
    unfold depth_value_at.
    rewrite (all_finite_tnth_any _ (bidx _ [b; k; h; w]) Hfin'),
      (all_finite_tnth_any _ (bidx _ [b; d; h; w]) Hfin').
    apply selects_finite.
Qed.

Lemma depth_regression_expectation_witness :
  (exists out,
     depth_regression (one_hot_tensor Float32 [1; 3; 2; 2] 1)
                      (mkTensor Float32 [3] [Qn 4 1; Qn 5 1; Qn 6 1]) = Ok out /\
     forall b h w, b < 1 -> h < 2 -> w < 2 ->
       tget out [b; h; w]
       = Some (depth_value_at (mkTensor Float32 [3] [Qn 4 1; Qn 5 1; Qn 6 1]) b 1 h w))
  /\ (exists out,
        depth_regression (mkTensor Float32 [1; 2; 1; 1] [0; 1]%float)
                         (mkTensor Float32 [2] [5; 7]%float) = Ok out /\
        tget out [0; 0; 0] = Some 7%float).
Proof.
  split.
  - apply (proj2 (proj2 depth_regression_expectation)
             (one_hot_tensor Float32 [1; 3; 2; 2] 1)
             (mkTensor Float32 [3] [Qn 4 1; Qn 5 1; Qn 6 1]) 1 3 2 2 1).
    + reflexivity.
    + right. split; [cbn; lia|reflexivity].
    + reflexivity.
    + lia.
    + vm_compute. reflexivity.
  - destruct (proj1 (proj2 depth_regression_expectation) float _
                (mkTensor Float32 [1; 2; 1; 1] [0; 1]%float)
                (mkTensor Float32 [2] [5; 7]%float) 1 2 1 1 1)
      as (out & Hout & Hval).
    + reflexivity.
    + right. split; [cbn; lia|reflexivity].
    + lia.
    + intros [|b] [|[|d]] [|h] [|w] Hb Hd Hh Hw; try lia; reflexivity.
    + exists out. split; [assumption|].
      apply (Hval 0 0 0); [lia|lia|lia|].
      intros [|[|d]] Hd; [| |lia]; vm_compute; repeat split.
Defined.

Lemma length_bshape_rev r1 r2 r :
  bshape_rev r1 r2 = Some r -> length r = length r1 `max` length r2.
Proof.
  revert r2 r; induction r1 as [|a r1 IH]; intros [|b r2] r; cbn.
  - by intros [= <-].
  - by intros [= <-].
  - intros [= <-]. cbn. lia.
  - destruct (bdim2 a b) as [c|]; [|done]. cbn.
    destruct (bshape_rev r1 r2) as [r'|] eqn:Hr; [|done]. cbn.
    intros [= <-]. cbn. rewrite (IH _ _ Hr). lia.
Qed.

Lemma length_bshape s1 s2 s :
  bshape s1 s2 = Some s -> length s = length s1 `max` length s2.
Proof.
  unfold bshape. destruct (bshape_rev _ _) as [r|] eqn:Hr; [|done].
  intros [= <-]. rewrite length_reverse, (length_bshape_rev _ _ _ Hr).
  by rewrite !length_reverse.
Qed.

(** C8, counterexample.  Depth values of rank 3, shape (D,H,W) = (2,1,2),
    are not rejected: they are broadcast over the batch axis of a
    (1,2,1,2) volume and the weighted sum is returned. *)
Lemma depth_regression_accepts_rank_3 :
  match depth_regression (full Float32 [1; 2; 1; 2] (Qn 1 2))
          (mkTensor Float32 [2; 1; 2] [Qn 3 1; Qn 5 1; Qn 7 1; Qn 9 1]) with
  | Ok out => shape out = [1; 1; 2] /\ same_values out [Qn 5 1; Qn 7 1] = true
  | Raise _ => False
  end.
Proof. vm_compute. split; reflexivity. Qed.

(** C8 (corrected).  For a probability volume of rank at least 2,
    [depth_regression] fails exactly when [p] and the depth values (after
    the reshape of an array of rank at most 2) do not broadcast, and the
    failure is torch's RuntimeError.  No rank of the depth values is
    rejected as such; depth values of shape (D,H,W) are accepted with a
    volume of shape (B,D,H,W). *)
Theorem depth_regression_fails_iff_no_broadcast
    {K : Type} {SK : Scalar K} (p depth_values : tensor K) :
  2 <= length (shape p) ->
  (depth_regression p depth_values = Raise RuntimeError
   <-> bshape (shape p) (regression_shape (shape depth_values)) = None)
  /\ (is_Ok (depth_regression p depth_values) = true
      <-> is_Some (bshape (shape p) (regression_shape (shape depth_values))))
  /\ (forall B D H W, shape p = [B; D; H; W] -> shape depth_values = [D; H; W] ->
        is_Ok (depth_regression p depth_values) = true).
Proof.
  intros Hrank. pose proof (depth_regression_cases p depth_values) as Hc.
  assert ((depth_regression p depth_values = Raise RuntimeError
           <-> bshape (shape p) (regression_shape (shape depth_values)) = None)
          /\ (is_Ok (depth_regression p depth_values) = true
              <-> is_Some (bshape (shape p) (regression_shape (shape depth_values)))))
    as [H1 H2].
  { destruct (bshape _ _) as [s|] eqn:Hb.
    - apply length_bshape in Hb.
      destruct (lookup_lt_is_Some_2 s 1) as [n Hn]; [lia|].
      rewrite Hn in Hc. rewrite Hc. cbn. split; split; try done; eauto.
    - rewrite Hc. cbn. split; split; try done; by intros [? ?]. }
  split; [done|]. split; [done|].
  intros B D H W Hs Hd. apply H2. rewrite Hs, Hd. unfold regression_shape.
  cbn [length Nat.leb]. simpl_bshape. eauto.
Qed.

Lemma depth_regression_fails_iff_no_broadcast_witness :
  (depth_regression (full Float32 [1; 2; 1; 2] (Qn 1 2))
     (mkTensor Float32 [3; 1; 2] [Qn 3 1; Qn 5 1; Qn 7 1; Qn 9 1; Qn 1 1; Qn 1 1])
   = Raise RuntimeError
   <-> bshape [1; 2; 1; 2] (regression_shape [3; 1; 2]) = None)
  /\ (is_Ok (depth_regression (full Float32 [1; 2; 1; 2] (Qn 1 2))
        (mkTensor Float32 [3; 1; 2] [Qn 3 1; Qn 5 1; Qn 7 1; Qn 9 1; Qn 1 1; Qn 1 1])) = true
      <-> is_Some (bshape [1; 2; 1; 2] (regression_shape [3; 1; 2])))
  /\ (forall B D H W, [1; 2; 1; 2] = [B; D; H; W] -> [3; 1; 2] = [D; H; W] ->
        is_Ok (depth_regression (full Float32 [1; 2; 1; 2] (Qn 1 2))
          (mkTensor Float32 [3; 1; 2] [Qn 3 1; Qn 5 1; Qn 7 1; Qn 9 1; Qn 1 1; Qn 1 1])) = true).
Proof.
  apply (depth_regression_fails_iff_no_broadcast
           (full Float32 [1; 2; 1; 2] (Qn 1 2))
           (mkTensor Float32 [3; 1; 2] [Qn 3 1; Qn 5 1; Qn 7 1; Qn 9 1; Qn 1 1; Qn 1 1])).
  cbn. lia.
Defined.

(** ** [AttentionBranch] *)

Section BlockFacts.
Context {K : Type} {SK : Scalar K} {NA : NormAct K}.


Lemma tnth_tmap (f : K -> K) (t : tensor K) idx :
  wf t = true -> in_bounds (shape t) idx = true ->
  tnth (tmap f t) idx = f (tnth t idx).
Proof.
  intros Hwf Hb. unfold tnth at 1. by rewrite tget_tmap, (tget_wf t idx Hwf Hb).
Qed.




End BlockFacts.







(** ** [homo_warp] *)

(** Names the tensor the next statement of the program is applied to,
    keeping its shape and its entries as hypotheses. *)
Ltac name_tab t Hs Hv :=
  lazymatch goal with
  | |- exists g, ?bind ?k (Ok (tabulate_st ?dt ?s ?st ?f)) = Ok g /\ @?Q g =>
      set (t := tabulate_st dt s st f);
      assert (Hs : shape t = s) by reflexivity;
      assert (Hv : forall idx, in_bounds s idx = true -> tnth t idx = f idx)
        by (let i := fresh in let Hi := fresh in
            intros i Hi; exact (tnth_tabulate dt s st f i Hi));
      cbv beta in Hv;
      clearbody t;
      change (exists g, k t = Ok g /\ Q g); cbv beta
  end.

Ltac name_tab_wf t Hs Hv Hw :=
  lazymatch goal with
  | |- exists g, ?bind ?k (Ok (tabulate_st ?dt ?s ?st ?f)) = Ok g /\ @?Q g =>
      set (t := tabulate_st dt s st f);
      assert (Hs : shape t = s) by reflexivity;
      assert (Hw : wf t = true) by apply wf_tabulate;
      assert (Hv : forall idx, in_bounds s idx = true -> tnth t idx = f idx)
        by (let i := fresh in let Hi := fresh in
            intros i Hi; exact (tnth_tabulate dt s st f i Hi));
      cbv beta in Hv;
      clearbody t;
      change (exists g, k t = Ok g /\ Q g); cbv beta
  end.

(** The same, keeping the dtype and the strides as well. *)
Ltac name_tab_layout t Hs Hv Hd Hst :=
  lazymatch goal with
  | |- exists g, ?bind ?k (Ok (tabulate_st ?dt ?s ?st ?f)) = Ok g /\ @?Q g =>
      set (t := tabulate_st dt s st f);
      assert (Hs : shape t = s) by reflexivity;
      assert (Hd : t_dtype t = dt) by reflexivity;
      assert (Hst : strides t = st) by reflexivity;
      assert (Hv : forall idx, in_bounds s idx = true -> tnth t idx = f idx)
        by (let i := fresh in let Hi := fresh in
            intros i Hi; exact (tnth_tabulate dt s st f i Hi));
      cbv beta in Hv;
      clearbody t;
      change (exists g, k t = Ok g /\ Q g); cbv beta
  end.

Section WarpFacts.
Context {K : Type} {SK : Scalar K}.

(** Entries seen through a reshape: equal row-major offsets. *)
Lemma tget_reshaped (t : tensor K) dt s' st' idx' idx :
  in_bounds s' idx' = true -> in_bounds (shape t) idx = true ->
  ravel s' idx' = ravel (shape t) idx ->
  tget (mkStrided dt s' (data t) st') idx' = tget t idx.
Proof. intros Hb' Hb Hr. unfold tget. cbn [shape data]. by rewrite Hb', Hb, Hr. Qed.

Lemma expand_dim_batch B : expand_dim 1 (Z.of_nat B) = Some B.
Proof.
  unfold expand_dim.
  destruct (Z.eqb_spec (Z.of_nat B) (-1)); [lia|].
  destruct (Z.eqb_spec (Z.of_nat B) (Z.of_nat 1)) as [E|_].
  - apply Nat2Z.inj in E. by subst.
  - replace (0 <=? Z.of_nat B)%Z with true by (symmetry; apply Z.leb_le; lia).
    cbn. by rewrite Nat2Z.id.
Qed.

Lemma expand_dim_keep n : expand_dim n (-1) = Some n.
Proof. reflexivity. Qed.

Lemma tnth_reshaped (t : tensor K) dt s' st' idx' idx :
  in_bounds s' idx' = true -> in_bounds (shape t) idx = true ->
  ravel s' idx' = ravel (shape t) idx ->
  tnth (mkStrided dt s' (data t) st') idx' = tnth t idx.
Proof. intros. unfold tnth. by rewrite (tget_reshaped t dt s' st' idx' idx). Qed.

Lemma homo_warp_ref_grid_value B H W D :
  exists g,
    homo_warp_ref_grid (K:=K) B H W D = Ok g /\
    shape g = [B; 3; D * H * W] /\ t_dtype g = Float32 /\
    forall b i d h w, b < B -> i < 3 -> d < D -> h < H -> w < W ->
      tnth g [b; i; d * (H * W) + (h * W + w)]
      = of_Z (Z.of_nat (match i with 0 => w | 1 => h | _ => 1 end)).
Proof.
  unfold homo_warp_ref_grid.
  (* the mesh grid *)
  assert (forall h w c, h < H -> w < W -> c < 2 ->
            tnth (create_meshgrid (K:=K) H W) [0; h; w; c]
            = of_Z (Z.of_nat (if c =? 0 then w else h))) as Hmesh.
  { intros h w c Hh Hw Hc. unfold create_meshgrid.
    by rewrite tnth_tabulate by solve_in_bounds. }
  assert (shape (create_meshgrid (K:=K) H W) = [1; H; W; 2]) as Hs0 by reflexivity.
  assert (t_dtype (create_meshgrid (K:=K) H W) = Float32) as Hd0 by reflexivity.
  generalize dependent (create_meshgrid (K:=K) H W). intros mesh Hmesh Hs0 Hd0.
  (* permute *)
  unfold permute, ndim. rewrite Hs0, Hd0.
  change (is_permutation [0; 3; 1; 2] (length [1; H; W; 2])) with true. cbn iota.
  change ((fun k => [1; H; W; 2] !!! k) <$> [0; 3; 1; 2]) with [1; 2; H; W].
  name_tab_layout t1 Hs1 Hv1 Hd1 Hst1.
  (* reshape *)
  rewrite reshape_nat by (rewrite Hs1; cbn; lia).
  cbn [mbind result_bind]. rewrite Hd1.
  set (t2 := mkStrided Float32 [1; 2; H * W] (data t1) _).
  assert (forall c h w, c < 2 -> h < H -> w < W ->
            tnth t2 [0; c; h * W + w] = of_Z (Z.of_nat (if c =? 0 then w else h))) as Hv2.
  { intros c h w Hc Hh Hw. unfold t2.
    rewrite (tnth_reshaped t1 _ _ _ _ [0; c; h; w]).
    - rewrite Hv1 by solve_in_bounds. by apply Hmesh.
    - apply in_bounds_cons; split; [lia|]. apply in_bounds_cons; split; [lia|].
      apply in_bounds_cons; split; [nia|done].
    - rewrite Hs1. solve_in_bounds.
    - rewrite Hs1. cbn. lia. }
  assert (shape t2 = [1; 2; H * W]) as Hs2 by reflexivity.
  assert (t_dtype t2 = Float32) as Hd2 by reflexivity.
  clearbody t2. clear t1 Hs1 Hv1 Hd1 Hst1 mesh Hmesh Hs0 Hd0.
  (* expand *)
  unfold expand, ndim. rewrite Hs2, Hd2. cbn [length Nat.eqb zip zip_with mapM].
  rewrite expand_dim_batch, !expand_dim_keep.
  cbn [mbind option_bind mret option_ret fmap option_fmap option_map].
  name_tab_layout t3 Hs3 Hv3 Hd3 Hst3.
  (* the row of ones *)
  unfold slice. rewrite Hs3, Hd3. cbn [lookup list_lookup].
  change (slice_pos 2 0) with 0. change (from_option (slice_pos 2) 2 (Some 1%Z)) with 1.
  cbn [Nat.sub insert list_insert]. cbn [fmap result_fmap].
  unfold ones_like. rewrite shape_tabulate, t_dtype_tabulate.
  name_tab_layout ones Hso Hvo Hdo Hsto.
  (* cat *)
  unfold cat. rewrite Hs3, Hso, Hd3, Hdo. cbn [lookup list_lookup delete list_delete].
  rewrite bool_decide_true by done. cbn [Nat.add insert list_insert promote].
  name_tab_layout t4 Hs4 Hv4 Hd4 Hst4.
  (* repeat *)
  unfold repeat_, ndim. rewrite Hs4. cbn [length Nat.eqb zip_with].
  eexists. split; [reflexivity|]. rewrite shape_tabulate, t_dtype_tabulate.
  split; [f_equal; [lia|f_equal; f_equal; lia]|]. split; [done|].
  intros b i d h w Hb Hi Hd Hh Hw.
  assert (h * W + w < H * W) as Hhw by nia.
  rewrite tnth_tabulate
    by (apply in_bounds_cons; split; [lia|]; apply in_bounds_cons; split; [lia|];
        apply in_bounds_cons; split; [nia|done]).
  cbn [zip_with].
  rewrite (Nat.mod_small b B), (Nat.mod_small i 3) by done.
  rewrite (Nat.add_comm (d * (H * W))), Nat.Div0.mod_add, Nat.mod_small by done.
  rewrite Hv4 by solve_in_bounds.
  change ([b; i; h * W + w] !!! 1) with i.
  destruct i as [|[|[|i]]]; [| | |lia].
  - change (0 <? 2) with true. cbn iota. rewrite Hv3 by solve_in_bounds.
    simpl_bidx. by rewrite Hv2 by lia.
  - change (1 <? 2) with true. cbn iota. rewrite Hv3 by solve_in_bounds.
    simpl_bidx. by rewrite Hv2 by lia.
  - change (2 <? 2) with false. cbn iota. cbn [Nat.sub insert list_insert].
    by rewrite Hvo by solve_in_bounds.
Qed.

Lemma flat_index_lt D H W d h w :
  d < D -> h < H -> w < W -> d * (H * W) + (h * W + w) < D * H * W.
Proof.
  intros Hd Hh Hw.
  assert (h * W + w < H * W) by nia.
  assert (d * (H * W) + H * W <= D * (H * W)) by nia.
  rewrite <- Nat.mul_assoc. lia.
Qed.

Lemma dtype_eqb_refl dt : dtype_eqb dt dt = true.
Proof. by destruct dt. Qed.

Lemma promote_refl dt : promote dt dt = dt.
Proof. by destruct dt. Qed.

Lemma homo_warp_project_value B H W D (R T g depth_values : tensor K) :
  shape R = [B; 3; 3] -> shape T = [B; 3; 1] -> shape g = [B; 3; D * H * W] ->
  shape depth_values = [B; D; H; W] ->
  t_dtype R = t_dtype g -> is_contiguous depth_values = true ->
  exists s,
    homo_warp_project B H W D R T g depth_values = Ok s /\
    shape s = [B; 3; D * H * W] /\
    t_dtype s = promote (t_dtype R) (promote (t_dtype T) (t_dtype depth_values)) /\
    forall b i d h w, b < B -> i < 3 -> d < D -> h < H -> w < W ->
      tnth s [b; i; d * (H * W) + (h * W + w)]
      = sadd (ssum ((fun k => smul (tnth R [b; i; k])
                                   (tnth g [b; k; d * (H * W) + (h * W + w)]))
                      <$> seq 0 3))
             (sdiv (tnth T [b; i; 0]) (tnth depth_values [b; d; h; w])).
Proof.
  intros HsR HsT Hsg Hsd Hdt Hcont. unfold homo_warp_project.
  (* R @ ref_grid_d *)
  unfold matmul, ndim. rewrite HsR, Hsg, Hdt, dtype_eqb_refl.
  cbn [length Nat.sub drop take Nat.eqb andb].
  simpl_bshape. cbn [length app].
  name_tab_layout rotated Hsr Hvr Hdr Hstr.
  (* the depth values, flattened *)
  rewrite view_nat by (done || (rewrite Hsd; cbn; lia)).
  cbn [mbind result_bind].
  set (depth_flat := mkTensor (t_dtype depth_values) [B; 1; D * H * W] (data depth_values)).
  assert (forall b d h w, b < B -> d < D -> h < H -> w < W ->
            tnth depth_flat [b; 0; d * (H * W) + (h * W + w)]
            = tnth depth_values [b; d; h; w]) as Hvf.
  { intros b d h w Hb Hd Hh Hw. apply tnth_reshaped.
    - apply in_bounds_cons; split; [lia|]. apply in_bounds_cons; split; [lia|].
      apply in_bounds_cons; split; [by apply flat_index_lt|done].
    - rewrite Hsd. solve_in_bounds.
    - rewrite Hsd. cbn. nia. }
  assert (shape depth_flat = [B; 1; D * H * W]) as Hsf by reflexivity.
  assert (t_dtype depth_flat = t_dtype depth_values) as Hdf by reflexivity.
  clearbody depth_flat.
  (* T / depth *)
  unfold binop, result_dtype. rewrite HsT, Hsf. simpl_bshape.
  name_tab_layout translated Hst Hvt Hdtr Hsttr.
  rewrite Hsr, Hst. simpl_bshape.
  eexists. split; [reflexivity|]. split; [done|]. split.
  { by rewrite t_dtype_tabulate, Hdr, Hdtr, Hdf, ?Hdt. }
  intros b i d h w Hb Hi Hd Hh Hw.
  pose proof (flat_index_lt D H W d h w Hd Hh Hw) as Hn.
  rewrite tnth_tabulate by solve_in_bounds. simpl_bidx.
  rewrite Hvr, Hvt by solve_in_bounds. simpl_bidx. rewrite Hvf by done.
  cbn [take length Nat.sub drop app].
  change ([b; i; d * (H * W) + (h * W + w)] !!! 1) with i.
  change ([b; i; d * (H * W) + (h * W + w)] !!! 2) with (d * (H * W) + (h * W + w)).
  rewrite (bdim_lt B b) by done. done.
Qed.

Lemma select_eq d i (t : tensor K) n :
  shape t !! d = Some n -> i < n ->
  select d i t
  = Ok (tabulate_st (t_dtype t) (delete d (shape t)) (delete d (strides t))
          (fun idx => tnth t (take d idx ++ i :: drop d idx))).
Proof.
  intros Hn Hi. unfold select. rewrite Hn.
  by replace (i <? n) with true by (symmetry; by apply Nat.ltb_lt).
Qed.

Lemma setitem_select_eq d i (v t : tensor K) n :
  shape t !! d = Some n -> i < n ->
  bshape (delete d (shape t)) (shape v) = Some (delete d (shape t)) ->
  setitem_select d i v t
  = Ok (tabulate_st (t_dtype t) (shape t) (strides t)
          (fun idx => if idx !!! d =? i
                      then tnth v (bidx (shape v) (delete d idx))
                      else tnth t idx)).
Proof.
  intros Hn Hi Hb. unfold setitem_select. rewrite Hn.
  replace (i <? n) with true by (symmetry; by apply Nat.ltb_lt).
  by rewrite bool_decide_true.
Qed.

Lemma permute_eq dims (t : tensor K) :
  is_permutation dims (ndim t) = true ->
  permute dims t
  = Ok (tabulate_st (t_dtype t) ((fun k => shape t !!! k) <$> dims)
          ((fun k => strides t !!! k) <$> dims)
          (fun idx => tnth t ((fun k => idx !!! index_of k dims) <$> seq 0 (ndim t)))).
Proof. intros Hp. unfold permute. by rewrite Hp. Qed.

Lemma homo_warp_normalize_value B H W D (s : tensor K) :
  shape s = [B; 3; D * H * W] ->
  exists G,
    homo_warp_normalize B H W D s = Ok G /\
    shape G = [B; D; H * W; 2] /\ t_dtype G = t_dtype s /\
    forall b d hw c, b < B -> d < D -> hw < H * W -> c < 2 ->
      tnth G [b; d; hw; c]
      = ssub (sdiv (sdiv (tnth s [b; c; d * (H * W) + hw])
                         (tnth s [b; 2; d * (H * W) + hw]))
                   (sdiv (of_Z (Z.of_nat (if c =? 0 then W else H) - 1)) (of_Z 2)))
             (of_Z 1).
Proof.
  intros Hs. unfold homo_warp_normalize.
  (* x, y and the third coordinate *)
  unfold slice. rewrite Hs. cbn [lookup list_lookup].
  change (slice_pos 3 0) with 0. change (from_option (slice_pos 3) 3 (Some 2%Z)) with 2.
  change (slice_pos 3 (-1)) with 2. change (from_option (slice_pos 3) 3 None) with 3.
  cbn [Nat.sub insert list_insert].
  name_tab_layout xy Hsxy Hvxy Hdxy Hstxy. name_tab_layout z Hsz Hvz Hdz Hstz.
  unfold binop, result_dtype. rewrite Hsxy, Hsz, Hdxy, Hdz, promote_refl. simpl_bshape.
  name_tab_layout g0 Hs0 Hv0 Hd0 Hst0.
  assert (forall b c n, b < B -> c < 2 -> n < D * H * W ->
            tnth g0 [b; c; n] = sdiv (tnth s [b; c; n]) (tnth s [b; 2; n])) as Hg0.
  { intros b c n Hb Hc Hn. rewrite Hv0 by solve_in_bounds. simpl_bidx.
    rewrite Hvxy, Hvz by solve_in_bounds.
    cbn [insert list_insert lookup_total list_lookup_total].
    by rewrite Nat.add_0_r. }
  clear Hv0 Hvxy Hvz Hsxy Hsz Hdxy Hdz Hstxy Hstz xy z.
  (* first coordinate *)
  rewrite (select_eq 1 0 g0 2) by (by rewrite Hs0 || lia).
  rewrite Hs0. cbn [delete list_delete]. name_tab_wf x Hsx Hvx Hwx.
  rewrite (setitem_select_eq 1 0 _ g0 2).
  2:{ by rewrite Hs0. }
  2:{ lia. }
  2:{ rewrite Hs0. cbn [shape tmap delete list_delete]. rewrite Hsx. apply bshape_refl. }
  rewrite Hs0, Hd0, Hst0. cbn [shape tmap]. rewrite Hsx.
  name_tab_layout g1 Hs1 Hv1 Hd1 Hst1.
  assert (forall b n, b < B -> n < D * H * W ->
            tnth g1 [b; 0; n]
            = ssub (sdiv (tnth g0 [b; 0; n]) (sdiv (of_Z (Z.of_nat W - 1)) (of_Z 2)))
                   (of_Z 1)) as Hg1x.
  { intros b n Hb Hn. rewrite Hv1 by solve_in_bounds.
    change ([b; 0; n] !!! 1 =? 0) with true. cbn iota. cbn [delete list_delete].
    simpl_bidx. rewrite tnth_tmap by (done || (rewrite Hsx; solve_in_bounds)).
    by rewrite Hvx by solve_in_bounds. }
  assert (forall b n, b < B -> n < D * H * W ->
            tnth g1 [b; 1; n] = tnth g0 [b; 1; n]) as Hg1y.
  { intros b n Hb Hn. by rewrite Hv1 by solve_in_bounds. }
  clear Hv1 Hvx Hsx Hwx x.
  (* second coordinate *)
  rewrite (select_eq 1 1 g1 2) by (by rewrite Hs1 || lia).
  rewrite Hs1. cbn [delete list_delete]. name_tab_wf y Hsy Hvy Hwy.
  rewrite (setitem_select_eq 1 1 _ g1 2).
  2:{ by rewrite Hs1. }
  2:{ lia. }
  2:{ rewrite Hs1. cbn [shape tmap delete list_delete]. rewrite Hsy. apply bshape_refl. }
  rewrite Hs1, Hd1, Hst1. cbn [shape tmap]. rewrite Hsy.
  name_tab_layout g2 Hs2 Hv2 Hd2 Hst2.
  assert (forall b c n, b < B -> c < 2 -> n < D * H * W ->
            tnth g2 [b; c; n]
            = ssub (sdiv (tnth g0 [b; c; n])
                         (sdiv (of_Z (Z.of_nat (if c =? 0 then W else H) - 1)) (of_Z 2)))
                   (of_Z 1)) as Hg2.
  { intros b c n Hb Hc Hn. rewrite Hv2 by solve_in_bounds.
    destruct c as [|[|c]]; [| |lia].
    - change ([b; 0; n] !!! 1 =? 1) with false. cbn iota. by apply Hg1x.
    - change ([b; 1; n] !!! 1 =? 1) with true. cbn iota. cbn [delete list_delete].
      simpl_bidx. rewrite tnth_tmap by (done || (rewrite Hsy; solve_in_bounds)).
      rewrite Hvy by solve_in_bounds. cbn [take drop app]. by rewrite Hg1y. }
  clear Hv2 Hvy Hsy Hwy y Hg1x Hg1y Hs1 Hd1 Hst1 g1.
  (* the coordinate pair on the last axis, then one row per depth *)
  rewrite permute_eq by (unfold ndim; by rewrite Hs2).
  unfold ndim. rewrite Hs2, Hd2, Hst2.
  change ((fun k => [B; 2; D * H * W] !!! k) <$> [0; 2; 1]) with [B; D * H * W; 2].
  change ((fun k => contiguous_strides [B; 2; D * H * W] !!! k) <$> [0; 2; 1])
    with [numel [2; D * H * W]; numel []; numel [D * H * W]].
  name_tab_layout g3 Hs3 Hv3 Hd3 Hst3.
  destruct (view_strides_grid B D (H * W) (D * H * W)
              (numel [2; D * H * W]) (numel [D * H * W])) as [st' Hst'];
    [lia|cbn; lia|cbn; lia|].
  rewrite (view_ok _ st') by (rewrite ?Hs3, ?Hst3; (done || (cbn; lia))).
  eexists. split; [reflexivity|]. split; [done|]. split; [done|].
  intros b d hw c Hb Hd Hhw Hc.
  assert (d * (H * W) + hw < D * H * W) as Hn.
  { assert (d * (H * W) + H * W <= D * (H * W)) by nia.
    rewrite <- Nat.mul_assoc. lia. }
  rewrite (tnth_reshaped g3 _ _ _ _ [b; d * (H * W) + hw; c]).
  - rewrite Hv3 by solve_in_bounds.
    cbn [length seq fmap list_fmap index_of Nat.eqb lookup_total list_lookup_total].
    rewrite Hg2, Hg0 by done. done.
  - solve_in_bounds.
  - rewrite Hs3. solve_in_bounds.
  - rewrite Hs3. cbn. nia.
Qed.

Lemma slice_eq d lo hi (t : tensor K) n :
  shape t !! d = Some n ->
  slice d lo hi t
  = Ok (tabulate_st (t_dtype t)
          (<[d := from_option (slice_pos n) n hi - slice_pos n lo]> (shape t))
          (strides t)
          (fun idx => tnth t (<[d := idx !!! d + slice_pos n lo]> idx))).
Proof. intros Hn. unfold slice. by rewrite Hn. Qed.

(** The sampling grid: float32 projection, contiguous depth values. *)
Lemma homo_warp_grid_value B H W D (proj_mat depth_values : tensor K) :
  shape proj_mat = [B; 3; 4] -> shape depth_values = [B; D; H; W] ->
  t_dtype proj_mat = Float32 -> is_contiguous depth_values = true ->
  exists G,
    homo_warp_grid B H W D proj_mat depth_values = Ok G /\
    shape G = [B; D; H * W; 2] /\
    t_dtype G = promote Float32 (t_dtype depth_values) /\
    forall b d h w c, b < B -> d < D -> h < H -> w < W -> c < 2 ->
      tnth G [b; d; h * W + w; c] = normalized proj_mat depth_values H W b d h w c.
Proof.
  intros Hsp Hsd Hdp Hcont. unfold homo_warp_grid.
  rewrite (slice_eq 2 0 _ proj_mat 4) by (by rewrite Hsp).
  rewrite Hsp, Hdp.
  change (slice_pos 4 0) with 0. change (from_option (slice_pos 4) 4 (Some 3%Z)) with 3.
  cbn [Nat.sub insert list_insert].
  name_tab_layout R HsR HvR HdR HstR.
  rewrite (slice_eq 2 3 _ proj_mat 4) by (by rewrite Hsp).
  rewrite Hsp, Hdp.
  change (slice_pos 4 3) with 3. change (from_option (slice_pos 4) 4 None) with 4.
  cbn [Nat.sub insert list_insert].
  name_tab_layout T HsT HvT HdT HstT.
  destruct (homo_warp_ref_grid_value B H W D) as (g & -> & Hsg & Hdg & Hvg).
  cbn [mbind result_bind].
  destruct (homo_warp_project_value B H W D R T g depth_values HsR HsT Hsg Hsd)
    as (s & -> & Hss & Hds & Hvs); [by rewrite HdR, Hdg|done|].
  cbn [mbind result_bind].
  destruct (homo_warp_normalize_value B H W D s Hss) as (G & -> & HsG & HdG & HvG).
  exists G. split; [done|]. split; [done|]. split.
  { rewrite HdG, Hds, HdR, HdT. by destruct (t_dtype depth_values). }
  intros b d h w c Hb Hd Hh Hw Hc.
  assert (h * W + w < H * W) as Hhw by nia.
  assert (forall i, i < 3 ->
            tnth s [b; i; d * (H * W) + (h * W + w)]
            = projected proj_mat depth_values b d h w i) as Hp.
  { intros i Hi. rewrite Hvs by done. unfold projected.
    rewrite HvT by solve_in_bounds.
    cbn [insert list_insert lookup_total list_lookup_total Nat.add].
    f_equal. f_equal. apply list_fmap_ext. intros j k [-> Hk]%lookup_seq.
    rewrite HvR, Hvg by (solve_in_bounds || lia).
    cbn [insert list_insert lookup_total list_lookup_total]. by rewrite Nat.add_0_r. }
  rewrite HvG by done. unfold normalized. by rewrite !Hp by lia.
Qed.

(** The call on well-shaped arguments: a float32 projection, contiguous
    depth values and a source map of the sampling grid's dtype. *)
Lemma homo_warp_value (src_feat proj_mat depth_values : tensor K) B C D H W :
  shape src_feat = [B; C; H; W] -> shape proj_mat = [B; 3; 4] ->
  shape depth_values = [B; D; H; W] -> 0 < H -> 0 < W ->
  t_dtype proj_mat = Float32 -> is_contiguous depth_values = true ->
  t_dtype src_feat = promote Float32 (t_dtype depth_values) ->
  exists out,
    homo_warp src_feat proj_mat depth_values = Ok out /\
    shape out = [B; C; D; H; W] /\
    forall b c d h w, b < B -> c < C -> d < D -> h < H -> w < W ->
      tget out [b; c; d; h; w]
      = Some (bilinear src_feat b c
                (normalized proj_mat depth_values H W b d h w 0)
                (normalized proj_mat depth_values H W b d h w 1)).
Proof.
  intros Hs Hsp Hsd HH HW Hdp Hcont Hds. unfold homo_warp, unpack4, shape_at.
  rewrite Hs, Hsd. cbn [lookup list_lookup mbind result_bind].
  destruct (homo_warp_grid_value B H W D proj_mat depth_values Hsp Hsd Hdp Hcont)
    as (G & -> & HsG & HdG & HvG).
  cbn [mbind result_bind].
  unfold grid_sample. rewrite Hs, HsG, HdG, Hds, dtype_eqb_refl, !Nat.eqb_refl.
  replace (0 <? H) with true by (symmetry; by apply Nat.ltb_lt).
  replace (0 <? W) with true by (symmetry; by apply Nat.ltb_lt).
  cbn [andb].
  lazymatch goal with
  | |- context [Ok (tabulate_st ?dt ?s ?st ?f)] =>
      pose proof (is_contiguous_tabulate dt s f) as Hct;
      pose proof (wf_tabulate dt s st f) as Hww;
      pose proof (fun i => tnth_tabulate dt s st f i) as Hvw;
      assert (shape (tabulate_st dt s st f) = s) as Hsw by reflexivity;
      set (warped := tabulate_st dt s st f) in *
  end.
  clearbody warped. cbn [mbind result_bind]. cbv beta in Hvw.
  rewrite view_nat by (done || (rewrite Hsw; cbn; lia)).
  eexists. split; [reflexivity|]. split; [done|].
  intros b c d h w Hb Hc Hd Hh Hw.
  assert (h * W + w < H * W) as Hhw by nia.
  rewrite (tget_reshaped warped _ _ _ _ [b; c; d; h * W + w]).
  - rewrite (tget_wf warped) by (done || (rewrite Hsw; solve_in_bounds)).
    rewrite Hvw by solve_in_bounds. by rewrite !HvG by lia.
  - solve_in_bounds.
  - rewrite Hsw. solve_in_bounds.
  - rewrite Hsw. cbn. nia.
Qed.
End WarpFacts.

Lemma forallb_seq (P : nat -> bool) n i :
  forallb P (seq 0 n) = true -> i < n -> P i = true.
Proof.
  intros HP Hi. rewrite forallb_forall in HP. apply HP, in_seq. lia.
Qed.

Lemma bilinear_off_frame {K} {SK : Scalar K} (input : tensor K) B C H W b c x y :
  shape input = [B; C; H; W] -> off_frame x y H W = true ->
  bilinear input b c x y = of_Z 0.
Proof.
  intros Hs Hoff. unfold bilinear, off_frame in *. rewrite Hs.
  destruct (sfloor (unnormalize x W)) as [ix|]; [|done].
  destruct (sfloor (unnormalize y H)) as [iy|]; [|done].
  assert (forall h w, (h = iy \/ h = iy + 1)%Z -> (w = ix \/ w = ix + 1)%Z ->
            within_bounds_2d h w H W = false) as Hout.
  { intros h w Hh Hw. unfold within_bounds_2d.
    rewrite !orb_true_iff, !Z.ltb_lt, !Z.leb_le in Hoff.
    rewrite !andb_false_iff, !Z.leb_gt, !Z.ltb_ge. lia. }
  cbv zeta. rewrite !Hout by auto. done.
Qed.

(** C6, counterexamples.  A 2x2 source map of ones, depth 1 and a shift by
    1.5 pixels along x and y: every normalized coordinate is 2 or 4, outside
    [-1, 1], yet the first pixel samples position (1.5, 1.5), half a pixel
    off the corner (1, 1), and receives 1/4 of it: the slice is not zero.
    And with a shift by 5 pixels, every coordinate far outside [-1, 1], the
    call is an error where the dtypes or the layout are not those the code
    needs: a float64 [proj_mat] (line 89 multiplies it with the float32 mesh
    grid), a float64 [src_feat] against a float32 sampling grid (line 100),
    depth values transposed along their last two axes (the [view] of
    line 89). *)
Lemma homo_warp_near_frame_not_zero :
  slice_outside_unit (proj_shift (Qn 3 2) (Qn 3 2)) (full Float32 [1; 1; 2; 2] (Qn 1 1))
                     2 2 0 0 = true
  /\ match homo_warp (full Float32 [1; 1; 2; 2] (Qn 1 1))
             (proj_shift (Qn 3 2) (Qn 3 2)) (full Float32 [1; 1; 2; 2] (Qn 1 1)) with
     | Ok out => shape out = [1; 1; 1; 2; 2] /\
                 same_values out [Qn 1 4; Qn 0 1; Qn 0 1; Qn 0 1] = true
     | Raise _ => False
     end
  /\ slice_outside_unit (to Float64 (proj_shift (Qn 5 1) (Qn 5 1)))
       (full Float32 [1; 1; 2; 2] (Qn 1 1)) 2 2 0 0 = true
  /\ homo_warp (full Float32 [1; 1; 2; 2] (Qn 1 1))
       (to Float64 (proj_shift (Qn 5 1) (Qn 5 1))) (full Float32 [1; 1; 2; 2] (Qn 1 1))
     = Raise RuntimeError
  /\ homo_warp (full Float64 [1; 1; 2; 2] (Qn 1 1))
       (proj_shift (Qn 5 1) (Qn 5 1)) (full Float32 [1; 1; 2; 2] (Qn 1 1))
     = Raise RuntimeError
  /\ slice_outside_unit (proj_shift (Qn 5 1) (Qn 5 1))
       (mkStrided Float32 [1; 1; 2; 2] (replicate 4 (Qn 1 1)) [4; 4; 1; 2]) 2 2 0 0 = true
  /\ homo_warp (full Float32 [1; 1; 2; 2] (Qn 1 1)) (proj_shift (Qn 5 1) (Qn 5 1))
       (mkStrided Float32 [1; 1; 2; 2] (replicate 4 (Qn 1 1)) [4; 4; 1; 2])
     = Raise RuntimeError.
Proof. vm_compute. repeat split. Qed.

(** C6 (corrected).  When at depth index [d] every reference pixel of a
    batch element is sampled a full pixel or more outside the source image
    (pixel coordinate below -1 or at least the image size, along x or y),
    the warped slice at [d] is zero for every channel, and the call
    succeeds.  This holds in any arithmetic, for the arguments the call
    accepts: a float32 [proj_mat] (line 89 multiplies it with the float32
    mesh grid), contiguous [depth_values] (line 89 views them) and a
    [src_feat] of the sampling grid's dtype (line 100). *)
Theorem homo_warp_off_frame_zero {K : Type} {SK : Scalar K}
    (src_feat proj_mat depth_values : tensor K) (B C D H W b d : nat) :
  shape src_feat = [B; C; H; W] -> shape proj_mat = [B; 3; 4] ->
  shape depth_values = [B; D; H; W] -> 0 < H -> 0 < W -> b < B -> d < D ->
  t_dtype proj_mat = Float32 -> is_contiguous depth_values = true ->
  t_dtype src_feat = promote Float32 (t_dtype depth_values) ->
  slice_off_frame proj_mat depth_values H W b d = true ->
  exists grid out,
    homo_warp_grid B H W D proj_mat depth_values = Ok grid /\
    (forall h w c, h < H -> w < W -> c < 2 ->
       tnth grid [b; d; h * W + w; c] = normalized proj_mat depth_values H W b d h w c) /\
    homo_warp src_feat proj_mat depth_values = Ok out /\
    shape out = [B; C; D; H; W] /\
    forall c h w, c < C -> h < H -> w < W ->
      tget out [b; c; d; h; w] = Some (of_Z 0).
Proof.
  intros Hs Hsp Hsd HH HW Hb Hd Hdp Hcont Hds Hoff.
  destruct (homo_warp_grid_value B H W D proj_mat depth_values Hsp Hsd Hdp Hcont)
    as (G & HG & _ & _ & HvG).
  destruct (homo_warp_value src_feat proj_mat depth_values B C D H W
              Hs Hsp Hsd HH HW Hdp Hcont Hds)
    as (out & Hout & Hso & Hvo).
  exists G, out. split; [done|]. split; [by intros; apply HvG|].
  split; [done|]. split; [done|].
  intros c h w Hc Hh Hw. rewrite Hvo by done. f_equal.
  apply (bilinear_off_frame src_feat B C H W); [done|].
  unfold slice_off_frame in Hoff.
  apply (forallb_seq _ _ h) in Hoff; [|done].
  by apply (forallb_seq _ _ w) in Hoff.
Qed.

Lemma homo_warp_off_frame_zero_witness :
  exists grid out,
    homo_warp_grid 1 2 2 1 (proj_shift (Qn 5 1) (Qn 0 1)) (full Float32 [1; 1; 2; 2] (Qn 1 1))
    = Ok grid /\
    (forall h w c, h < 2 -> w < 2 -> c < 2 ->
       tnth grid [0; 0; h * 2 + w; c]
       = normalized (proj_shift (Qn 5 1) (Qn 0 1)) (full Float32 [1; 1; 2; 2] (Qn 1 1))
                    2 2 0 0 h w c) /\
    homo_warp (full Float32 [1; 1; 2; 2] (Qn 1 1)) (proj_shift (Qn 5 1) (Qn 0 1))
              (full Float32 [1; 1; 2; 2] (Qn 1 1)) = Ok out /\
    shape out = [1; 1; 1; 2; 2] /\
    forall c h w, c < 1 -> h < 2 -> w < 2 ->
      tget out [0; c; 0; h; w] = Some (of_Z 0).
Proof.
  apply (homo_warp_off_frame_zero
           (full Float32 [1; 1; 2; 2] (Qn 1 1)) (proj_shift (Qn 5 1) (Qn 0 1))
           (full Float32 [1; 1; 2; 2] (Qn 1 1)) 1 1 1 2 2 0 0).
  - reflexivity.
  - reflexivity.
  - reflexivity.
  - lia.
  - lia.
  - lia.
  - lia.
  - reflexivity.
  - reflexivity.
  - reflexivity.
  - vm_compute. reflexivity.
Defined.

Lemma Zq_plus a b : Zq (a + b) = (Zq a + Zq b)%Qc.
Proof.
  apply Qc_is_canon. rewrite this_plus, !this_Zq, inject_Z_plus. reflexivity.
Qed.

Lemma Zq_neq_0 z : z ≠ 0%Z -> Zq z ≠ 0%Qc.
Proof.
  intros Hz E. apply (f_equal this) in E.
  assert (this (Zq z) == 0)%Q as E' by (rewrite E; reflexivity).
  rewrite this_Zq in E'. unfold Qeq in E'. cbn in E'. lia.
Qed.

Lemma Qfloor_Zq z : Qfloor (this (Zq z)) = z.
Proof. rewrite this_Zq. apply Qfloor_Z. Qed.

Lemma Qc_is_zero_neq (q : Qc) : q ≠ 0%Qc -> Qc_is_zero q = false.
Proof.
  intros Hq. destruct (Qc_is_zero q) eqn:E; [|done].
  by apply Qc_is_zero_true in E.
Qed.

Lemma qnum_div_Fin (x y : Qc) : y ≠ 0%Qc -> sdiv (Fin x) (Fin y) = Fin (x / y)%Qc.
Proof. intros Hy. cbn. by rewrite Qc_is_zero_neq. Qed.

Lemma all_positive_tnth (t : tensor qnum) idx :
  all_positive t = true -> wf t = true -> in_bounds (shape t) idx = true ->
  exists q, tnth t idx = Fin q /\ q ≠ 0%Qc.
Proof.
  intros Hp Hwf Hb. pose proof (tget_wf t idx Hwf Hb) as Hg.
  unfold tget in Hg. rewrite Hb in Hg.
  apply list_elem_of_lookup_2, list_elem_of_In in Hg.
  unfold all_positive in Hp. rewrite forallb_forall in Hp.
  specialize (Hp _ Hg). destruct (tnth t idx) as [q|]; [|done].
  exists q. split; [done|]. intros ->. revert Hp. by vm_compute.
Qed.



Lemma half_size_neq_0 n : 2 <= n -> (Zq (Z.of_nat n - 1) / Zq 2 ≠ 0)%Qc.
Proof.
  intros Hn E. apply (Zq_neq_0 (Z.of_nat n - 1)); [lia|].
  rewrite <- (Qcmult_div_r (Zq (Z.of_nat n - 1)) (Zq 2)) by (by apply Zq_neq_0).
  rewrite E. ring.
Qed.


Lemma Zq_succ_minus z : (Zq (z + 1) - Zq z = 1)%Qc.
Proof. rewrite Zq_plus. change (Zq 1) with 1%Qc. ring. Qed.






(** ** The frame of [homo_warp_st] *)

Section Frame.
Context {K : Type} {SK : Scalar K}.

Lemma preserves_ret {A} n (a : A) (Q : A -> Prop) : Q a -> preserves (K:=K) n (mret a) Q.
Proof. intros Ha σ Hn. cbn. repeat split; [done|]. by intros ? [= <-]. Qed.

Lemma preserves_bind {A B} n (m : M (K:=K) A) (k : A -> M (K:=K) B) (Q : A -> Prop) (R : B -> Prop) :
  preserves (K:=K) n m Q -> (forall a, Q a -> preserves (K:=K) n (k a) R) ->
  preserves (K:=K) n (m ≫= k) R.
Proof.
  intros Hm Hk σ Hn. destruct (Hm σ Hn) as (Ht & Hl & HQ).
  unfold mbind, M_bind. destruct (m σ) as [[a|e] σ'] eqn:E; cbn in *.
  - destruct (Hk a (HQ a eq_refl) σ' Hl) as (Ht' & Hl' & HR).
    split; [by rewrite Ht'|]. by split.
  - by repeat split.
Qed.

Lemma preserves_weaken {A} n (m : M (K:=K) A) (Q Q' : A -> Prop) :
  preserves (K:=K) n m Q -> (forall a, Q a -> Q' a) -> preserves (K:=K) n m Q'.
Proof.
  intros Hm HQ σ Hn. destruct (Hm σ Hn) as (Ht & Hl & Ha). repeat split; auto.
Qed.

Lemma preserves_lift {A} n (r : result A) : preserves (K:=K) n (lift r) (fun _ => True).
Proof. intros σ Hn. by repeat split. Qed.

Lemma preserves_load n h : preserves (K:=K) n (load h) (fun _ => True).
Proof. intros σ Hn. by repeat split. Qed.

Lemma preserves_alloc n t : preserves (K:=K) n (alloc t) (local n).
Proof.
  intros σ Hn. cbn. split; [by rewrite take_app_le|]. split.
  - rewrite length_app. lia.
  - by intros ? [= <-].
Qed.

Lemma preserves_view_of n op h :
  preserves (K:=K) n (view_of op h) (fun h' => h_loc h' = h_loc h).
Proof.
  unfold view_of. eapply preserves_bind; [apply preserves_load|]. intros t _.
  eapply preserves_bind; [apply preserves_lift|]. intros _ _.
  by apply preserves_ret.
Qed.

Lemma preserves_view_of_local n op h :
  local n h -> preserves (K:=K) n (view_of op h) (local n).
Proof.
  intros Hh. eapply preserves_weaken; [apply preserves_view_of|].
  unfold local. by intros h' ->.
Qed.

Lemma preserves_view_of_any n op h :
  preserves (K:=K) n (view_of op h) (fun _ => True).
Proof. eapply preserves_weaken; [apply preserves_view_of|done]. Qed.

Lemma preserves_apply1 n f h : preserves (K:=K) n (apply1 f h) (local n).
Proof.
  unfold apply1. eapply preserves_bind; [apply preserves_load|]. intros t _.
  eapply preserves_bind; [apply preserves_lift|]. intros r _.
  apply preserves_alloc.
Qed.

Lemma preserves_apply2 n f h1 h2 : preserves (K:=K) n (apply2 f h1 h2) (local n).
Proof.
  unfold apply2. eapply preserves_bind; [apply preserves_load|]. intros t1 _.
  eapply preserves_bind; [apply preserves_load|]. intros t2 _.
  eapply preserves_bind; [apply preserves_lift|]. intros r _.
  apply preserves_alloc.
Qed.

(** A write through a local tensor object stays out of the first [n]
    storages. *)
Lemma preserves_store n h v : local n h -> preserves (K:=K) n (store h v) (fun _ => True).
Proof.
  intros Hh σ Hn. unfold store.
  repeat case_match; try by repeat split.
  cbn. split; [by apply take_insert_ge|]. split; [by rewrite length_insert|done].
Qed.

Lemma preserves_setitem_select n h d i hv :
  local n h -> preserves (K:=K) n (setitem_select_st h d i hv) (fun _ => True).
Proof.
  intros Hh. unfold setitem_select_st.
  eapply preserves_bind; [apply preserves_load|]. intros t _.
  eapply preserves_bind; [apply preserves_load|]. intros v _.
  eapply preserves_bind; [apply preserves_lift|]. intros t' _.
  by apply preserves_store.
Qed.

Lemma preserves_del n names : preserves (K:=K) n (del names) (fun _ => True).
Proof. by apply preserves_ret. Qed.

End Frame.

Create HintDb frame discriminated.
#[export] Hint Resolve preserves_lift preserves_load preserves_alloc
  preserves_view_of_local preserves_view_of_any preserves_apply1 preserves_apply2
  preserves_setitem_select preserves_del : frame.

(** One statement of the program: what is known of its result (a tensor
    object of the call's own, when that can be shown) is kept for the
    statements that follow. *)
Ltac frame_step :=
  first [ eapply (preserves_bind _ _ _ (local _)); [solve [eauto with frame]|]
        | eapply (preserves_bind _ _ _ (fun _ => True)); [solve [eauto with frame]|] ].

Section FrameOfWarp.
Context {K : Type} {SK : Scalar K}.

Lemma homo_warp_st_preserves n (src_feat proj_mat depth_values : handle) :
  preserves (K:=K) n (homo_warp_st src_feat proj_mat depth_values) (fun _ => True).
Proof.
  unfold homo_warp_st.
  frame_step; intros s _.
  frame_step; intros [[[B C] H] W] _.
  repeat (frame_step; intros ? ?).
  eauto with frame.
Qed.

(** Every storage that exists before the call holds the same tensor after
    it, whether the call returns or raises. *)
Lemma homo_warp_st_frame (σ : list (tensor K)) (src_feat proj_mat depth_values : handle) l t :
  σ !! l = Some t ->
  (homo_warp_st src_feat proj_mat depth_values σ).2 !! l = Some t.
Proof.
  intros Hl.
  destruct (homo_warp_st_preserves (length σ) src_feat proj_mat depth_values σ)
    as (Ht & _ & _); [done|].
  rewrite firstn_all in Ht.
  apply lookup_lt_Some in Hl as Hlt.
  rewrite <- (lookup_take_lt _ (length σ)) by done. by rewrite Ht.
Qed.

End FrameOfWarp.

(** On the sample heap the statement-by-statement model returns the tensor
    that [homo_warp] computes from the three stored tensors. *)
Example homo_warp_st_sample :
  returned (homo_warp_st (mkHandle 0 []) (mkHandle 1 []) (mkHandle 2 [])) sample_heap
  = match sample_heap with
    | [src_feat; proj_mat; depth_values] => homo_warp src_feat proj_mat depth_values
    | _ => Raise RuntimeError
    end.
Proof. vm_compute. reflexivity. Qed.

(** A write through a tensor object of the caller is seen by the caller:
    the frame above is a property of [homo_warp_st], not of the heap. *)
Example setitem_select_st_writes :
  (load (mkHandle 0 [])
     (setitem_select_st (mkHandle 0 []) 2 0 (mkHandle 0 [VSelect 2 1]) sample_heap).2).1
  = Ok (mkTensor Float32 [1; 1; 2; 2] [Qn 3 1; Qn 4 1; Qn 3 1; Qn 4 1]).
Proof. vm_compute. reflexivity. Qed.

(** C9 (confirmed).  [homo_warp] changes no tensor that exists before the
    call: every storage of the caller holds the same tensor afterwards,
    whether the call returns or raises, so the projection matrix and the
    depth values read after the call are what they were before.  The
    in-place writes of lines 93-94 go to a storage allocated by the call, and
    [del] only unbinds names. *)
Theorem homo_warp_keeps_inputs {K : Type} {SK : Scalar K}
    (σ : list (tensor K)) (src_feat proj_mat depth_values : handle) :
  (forall l t, σ !! l = Some t ->
     (homo_warp_st src_feat proj_mat depth_values σ).2 !! l = Some t)
  /\ (forall h, h_loc h < length σ ->
        (load h (homo_warp_st src_feat proj_mat depth_values σ).2).1 = (load h σ).1).
Proof.
  split.
  - intros l t. apply homo_warp_st_frame.
  - intros h Hh. destruct (lookup_lt_is_Some_2 σ (h_loc h) Hh) as [t Ht].
    unfold load. cbn.
    by rewrite (homo_warp_st_frame σ src_feat proj_mat depth_values _ _ Ht), Ht.
Qed.

Lemma homo_warp_keeps_inputs_witness :
  (load (mkHandle 1 [])
     (homo_warp_st (mkHandle 0 []) (mkHandle 1 []) (mkHandle 2 []) sample_heap).2).1
  = (load (mkHandle 1 []) sample_heap).1
  /\ (load (mkHandle 2 [])
        (homo_warp_st (mkHandle 0 []) (mkHandle 1 []) (mkHandle 2 []) sample_heap).2).1
     = (load (mkHandle 2 []) sample_heap).1.
Proof.
  split.
  - apply (proj2 (homo_warp_keeps_inputs sample_heap (mkHandle 0 []) (mkHandle 1 [])
                    (mkHandle 2 [])) (mkHandle 1 [])).
    cbn. lia.
  - apply (proj2 (homo_warp_keeps_inputs sample_heap (mkHandle 0 []) (mkHandle 1 [])
                    (mkHandle 2 [])) (mkHandle 2 [])).
    cbn. lia.
Defined.

(** * Further properties of the module *)

(** ** [get_depth_values] with an array interval *)

Section IntervalArrays.
Context {K : Type} {SK : Scalar K}.

(** X1.  An interval of shape (B, 1), one per batch element (lines 56-57):
    the call returns a (B, n_depths, H, W) volume of the promoted dtype, and
    every pixel of batch element [b] gets the depth values
    [current_depth - n_depths/2 * interval[b] + interval[b] * d]. *)
Theorem get_depth_values_batch_interval
    (current_depth depth_interval : tensor K) (n_depths B H W : nat) :
  shape current_depth = [B; 1; H; W] -> shape depth_interval = [B; 1] ->
  wf depth_interval = true ->
  exists out,
    get_depth_values current_depth n_depths (PyTensor depth_interval) = Ok out /\
    shape out = [B; n_depths; H; W] /\
    t_dtype out = promote (t_dtype current_depth) (t_dtype depth_interval) /\
    forall b d h w, b < B -> d < n_depths -> h < H -> w < W ->
      tget out [b; d; h; w]
      = Some (sadd (ssub (tnth current_depth [b; 0; h; w])
                         (smul (sdiv (of_Z (Z.of_nat n_depths)) (of_Z 2))
                               (tnth depth_interval [b; 0])))
                   (smul (tnth depth_interval [b; 0]) (of_Z (Z.of_nat d)))).
Proof.
  intros Hs Ht Hwf. unfold get_depth_values, normalize_interval.
  cbn [isinstance_float negb getattr_ndim mbind result_bind as_tensor].
  unfold ndim. rewrite Ht. cbn [length Nat.eqb].
  rewrite reshape_column. rewrite Ht.
  replace (numel [B; 1]) with B by (cbn; lia).
  set (t' := mkStrided (t_dtype depth_interval) [B; 1; 1; 1] (data depth_interval) _).
  cbn [fmap result_fmap mbind result_bind py_arith op_scalar].
  rewrite reshape_arange.
  set (iseq := mkTensor _ [1; n_depths; 1; 1] _).
  cbn [fmap result_fmap mbind result_bind py_arith op_scalar].
  set (half := sdiv _ _).
  destruct (binop_spec ssub current_depth (tmap (smul half) t') [B; 1; H; W])
    as (c1 & -> & Hc1 & Hd1 & Hw1 & Hv1).
  { rewrite Hs. cbn [shape tmap t']. by simpl_bshape. }
  cbn [fmap result_fmap mbind result_bind py_arith op_scalar].
  destruct (binop_spec smul t' iseq [B; n_depths; 1; 1]) as (c2 & -> & Hc2 & Hd2 & Hw2 & Hv2).
  { cbn [shape t' iseq]. by simpl_bshape. }
  cbn [fmap result_fmap mbind result_bind py_arith op_scalar].
  destruct (binop_spec sadd c1 c2 [B; n_depths; H; W]) as (c3 & -> & Hc3 & Hd3 & Hw3 & Hv3).
  { rewrite Hc1, Hc2. by simpl_bshape. }
  cbn [fmap result_fmap mbind result_bind as_tensor].
  exists c3. split; [done|]. split; [done|]. split.
  { rewrite Hd3. unfold result_dtype. rewrite Hc1, Hc2, Hd1, Hd2.
    unfold result_dtype. rewrite Hs. cbn [shape t_dtype tmap t' iseq].
    by destruct (t_dtype current_depth), (t_dtype depth_interval). }
  intros b d h w Hb Hd Hh Hw.
  rewrite (tget_wf c3), Hv3 by (rewrite ?Hc3; solve_in_bounds || done).
  rewrite Hc1, Hc2. simpl_bidx.
  rewrite Hv1, Hv2 by solve_in_bounds.
  rewrite Hs. cbn [shape tmap t' iseq]. simpl_bidx.
  assert (Ht' : tget t' [b; 0; 0; 0] = Some (tnth depth_interval [b; 0])).
  { unfold t'. rewrite (tget_reshaped depth_interval _ _ _ _ [b; 0]).
    - apply tget_wf; [done|]. rewrite Ht. solve_in_bounds.
    - solve_in_bounds.
    - rewrite Ht. solve_in_bounds.
    - rewrite Ht. cbn. lia. }
  rewrite (tnth_tmap_any _ _ _ _ Ht'), (tget_tnth _ _ _ Ht').
  unfold iseq. by rewrite (tget_tnth _ _ _ (tget_index_sequence n_depths _ d Hd)).
Qed.

(** X2.  An interval of shape (B, H, W), one per pixel (lines 58-59): the
    call returns a (B, n_depths, H, W) volume of the promoted dtype, and the
    pixel (b, h, w) gets the depth values
    [current_depth - n_depths/2 * interval[b,h,w] + interval[b,h,w] * d]. *)
Theorem get_depth_values_pixel_interval
    (current_depth depth_interval : tensor K) (n_depths B H W : nat) :
  shape current_depth = [B; 1; H; W] -> shape depth_interval = [B; H; W] ->
  wf depth_interval = true ->
  exists out,
    get_depth_values current_depth n_depths (PyTensor depth_interval) = Ok out /\
    shape out = [B; n_depths; H; W] /\
    t_dtype out = promote (t_dtype current_depth) (t_dtype depth_interval) /\
    forall b d h w, b < B -> d < n_depths -> h < H -> w < W ->
      tget out [b; d; h; w]
      = Some (sadd (ssub (tnth current_depth [b; 0; h; w])
                         (smul (sdiv (of_Z (Z.of_nat n_depths)) (of_Z 2))
                               (tnth depth_interval [b; h; w])))
                   (smul (tnth depth_interval [b; h; w]) (of_Z (Z.of_nat d)))).
Proof.
  intros Hs Ht Hwf. unfold get_depth_values, normalize_interval.
  cbn [isinstance_float negb getattr_ndim mbind result_bind as_tensor].
  unfold ndim, unsqueeze, ndim. rewrite Ht.
  cbn [length Nat.eqb Nat.leb take drop app].
  set (t' := mkStrided (t_dtype depth_interval) [B; 1; H; W] (data depth_interval) _).
  cbn [fmap result_fmap mbind result_bind py_arith op_scalar].
  rewrite reshape_arange.
  set (iseq := mkTensor _ [1; n_depths; 1; 1] _).
  cbn [fmap result_fmap mbind result_bind py_arith op_scalar].
  set (half := sdiv _ _).
  destruct (binop_spec ssub current_depth (tmap (smul half) t') [B; 1; H; W])
    as (c1 & -> & Hc1 & Hd1 & Hw1 & Hv1).
  { rewrite Hs. cbn [shape tmap t']. by simpl_bshape. }
  cbn [fmap result_fmap mbind result_bind py_arith op_scalar].
  destruct (binop_spec smul t' iseq [B; n_depths; H; W]) as (c2 & -> & Hc2 & Hd2 & Hw2 & Hv2).
  { cbn [shape t' iseq]. by simpl_bshape. }
  cbn [fmap result_fmap mbind result_bind py_arith op_scalar].
  destruct (binop_spec sadd c1 c2 [B; n_depths; H; W]) as (c3 & -> & Hc3 & Hd3 & Hw3 & Hv3).
  { rewrite Hc1, Hc2. by simpl_bshape. }
  cbn [fmap result_fmap mbind result_bind as_tensor].
  exists c3. split; [done|]. split; [done|]. split.
  { rewrite Hd3. unfold result_dtype. rewrite Hc1, Hc2, Hd1, Hd2.
    unfold result_dtype. rewrite Hs. cbn [shape t_dtype tmap t' iseq].
    by destruct (t_dtype current_depth), (t_dtype depth_interval). }
  intros b d h w Hb Hd Hh Hw.
  rewrite (tget_wf c3), Hv3 by (rewrite ?Hc3; solve_in_bounds || done).
  rewrite Hc1, Hc2. simpl_bidx.
  rewrite Hv1, Hv2 by solve_in_bounds.
  rewrite Hs. cbn [shape tmap t' iseq]. simpl_bidx.
  assert (Ht' : tget t' [b; 0; h; w] = Some (tnth depth_interval [b; h; w])).
  { unfold t'. rewrite (tget_reshaped depth_interval _ _ _ _ [b; h; w]).
    - apply tget_wf; [done|]. rewrite Ht. solve_in_bounds.
    - solve_in_bounds.
    - rewrite Ht. solve_in_bounds.
    - rewrite Ht. cbn. lia. }
  rewrite (tnth_tmap_any _ _ _ _ Ht'), (tget_tnth _ _ _ Ht').
  unfold iseq. by rewrite (tget_tnth _ _ _ (tget_index_sequence n_depths _ d Hd)).
Qed.

(** With a Python float as interval only the last sum can fail. *)
Lemma get_depth_values_float_cases (current_depth : tensor K) n (x : K) :
  match bshape (shape current_depth) [1; n; 1; 1] with
  | Some s => exists out, get_depth_values current_depth n (PyFloat x) = Ok out /\
                          shape out = s /\ wf out = true
  | None => get_depth_values current_depth n (PyFloat x) = Raise RuntimeError
  end.
Proof.
  unfold get_depth_values, normalize_interval.
  cbn [isinstance_float negb mbind result_bind py_arith op_scalar].
  rewrite reshape_arange.
  cbn [isinstance_float negb mbind result_bind py_arith op_scalar].
  destruct (bshape (shape current_depth) [1; n; 1; 1]) as [s|] eqn:Hb.
  - edestruct (binop_spec sadd) as (c & -> & Hc & _ & Hw & _); [exact Hb|].
    exists c. by cbn.
  - unfold binop. cbn [shape tmap]. by rewrite Hb.
Qed.

End IntervalArrays.

Lemma get_depth_values_batch_interval_witness :
  exists out,
    get_depth_values sample_depth 3 (PyTensor sample_batch_interval) = Ok out /\
    shape out = [2; 3; 1; 2] /\
    tget out [1; 2; 0; 1] = Some (Qn 41 1).
Proof.
  destruct (get_depth_values_batch_interval sample_depth sample_batch_interval 3 2 1 2)
    as (out & Hout & Hs & _ & Hv); [reflexivity..|].
  exists out. split; [assumption|]. split; [assumption|].
  rewrite Hv by lia. f_equal; apply qnum_eqb_eq; reflexivity.
Defined.

Lemma get_depth_values_pixel_interval_witness :
  exists out,
    get_depth_values sample_depth 3 (PyTensor sample_pixel_interval) = Ok out /\
    shape out = [2; 3; 1; 2] /\
    tget out [1; 2; 0; 1] = Some (Qn 42 1).
Proof.
  destruct (get_depth_values_pixel_interval sample_depth sample_pixel_interval 3 2 1 2)
    as (out & Hout & Hs & _ & Hv); [reflexivity..|].
  exists out. split; [assumption|]. split; [assumption|].
  rewrite Hv by lia. f_equal; apply qnum_eqb_eq; reflexivity.
Defined.

(** X3.  With a Python float as interval the call fails exactly when
    [current_depth] does not broadcast with the (1, n_depths, 1, 1) index
    sequence, and then with torch's RuntimeError; no other check is made.
    In particular [n_depths = 0] is accepted: a (B, 1, H, W) depth map gives
    the empty volume of shape (B, 0, H, W). *)
Theorem get_depth_values_float_interval_cases {K : Type} {SK : Scalar K}
    (current_depth : tensor K) (n_depths : nat) (depth_interval : K) :
  match bshape (shape current_depth) [1; n_depths; 1; 1] with
  | Some s => exists out,
                get_depth_values current_depth n_depths (PyFloat depth_interval) = Ok out /\
                shape out = s
  | None => get_depth_values current_depth n_depths (PyFloat depth_interval)
            = Raise RuntimeError
  end
  /\ (forall B H W, shape current_depth = [B; 1; H; W] ->
        exists out,
          get_depth_values current_depth 0 (PyFloat depth_interval) = Ok out /\
          shape out = [B; 0; H; W] /\ data out = []).
Proof.
  split.
  - pose proof (get_depth_values_float_cases current_depth n_depths depth_interval) as Hc.
    destruct (bshape _ _) as [s|]; [|done].
    destruct Hc as (out & Hout & Hs & _). by exists out.
  - intros B H W Hs.
    pose proof (get_depth_values_float_cases current_depth 0 depth_interval) as Hc.
    rewrite Hs in Hc. revert Hc. simpl_bshape.
    intros (out & Hout & Hso & Hwf). exists out. do 2 (split; [done|]).
    unfold wf in Hwf. rewrite Hso in Hwf. apply Nat.eqb_eq in Hwf.
    apply nil_length_inv. rewrite Hwf. cbn. lia.
Qed.

Lemma get_depth_values_float_interval_cases_witness :
  exists out,
    get_depth_values sample_depth 0 (PyFloat (Qn 1 2)) = Ok out /\
    shape out = [2; 0; 1; 2] /\ data out = [].
Proof.
  apply (proj2 (get_depth_values_float_interval_cases sample_depth 0 (Qn 1 2)) 2 1 2).
  reflexivity.
Defined.

(** ** [get_depth_values] in exact arithmetic *)

Lemma Zq_2 : Zq 2 = (1 + 1)%Qc.
Proof. by apply Qc_is_canon. Qed.

Lemma qnum_affine (c i : Qc) (n d : nat) :
  sadd (ssub (Fin c) (smul (sdiv (of_Z (Z.of_nat n)) (of_Z 2)) (Fin i)))
       (smul (Fin i) (of_Z (Z.of_nat d)))
  = Fin (c + (Zq (Z.of_nat d) - Zq (Z.of_nat n) / Zq 2) * i)%Qc.
Proof.
  cbn [of_Z qnum_scalar]. rewrite qnum_div_Fin by (by apply Zq_neq_0).
  cbn [sadd ssub smul qnum_scalar qnum_lift2]. f_equal.
  field. by apply Zq_neq_0.
Qed.

(** X4.  In exact arithmetic, with a scalar interval [i] and a finite depth
    map, the hypotheses of a pixel are [c + (d - n_depths/2) * i] for the
    current depth [c]: they are evenly spaced by [i], and for an even
    [n_depths] the hypothesis of index [n_depths/2] is the current depth
    itself. *)
Theorem get_depth_values_centred
    (current_depth : tensor qnum) (n_depths : nat) (depth_interval : Qc) (B H W : nat) :
  shape current_depth = [B; 1; H; W] -> wf current_depth = true ->
  all_finite current_depth = true ->
  exists out,
    get_depth_values current_depth n_depths (PyFloat (Fin depth_interval)) = Ok out /\
    (forall b d h w, b < B -> d < n_depths -> h < H -> w < W ->
       tget out [b; d; h; w]
       = Some (Fin (qval (tnth current_depth [b; 0%nat; h; w])
                    + (Zq (Z.of_nat d) - Zq (Z.of_nat n_depths) / Zq 2)
                      * depth_interval)%Qc)) /\
    (forall b m h w, b < B -> h < H -> w < W -> 0 < m -> n_depths = 2 * m ->
       tget out [b; m; h; w] = tget current_depth [b; 0; h; w]) /\
    (forall b d h w, b < B -> S d < n_depths -> h < H -> w < W ->
       exists v v', tget out [b; d; h; w] = Some (Fin v) /\
                    tget out [b; S d; h; w] = Some (Fin v') /\
                    (v' - v = depth_interval)%Qc).
Proof.
  intros Hs Hwf Hfin.
  destruct (get_depth_values_float current_depth n_depths (Fin depth_interval)
              B H W Hs Hwf) as (out & Hout & _ & _ & Hval).
  exists out. split; [done|].
  assert (Hform : forall b d h w, b < B -> d < n_depths -> h < H -> w < W ->
    tget out [b; d; h; w]
    = Some (Fin (qval (tnth current_depth [b; 0%nat; h; w])
                 + (Zq (Z.of_nat d) - Zq (Z.of_nat n_depths) / Zq 2)
                   * depth_interval)%Qc)).
  { intros b d h w Hb Hd Hh Hw. rewrite Hval by done.
    rewrite (all_finite_tnth_any current_depth _ Hfin) at 1.
    by rewrite qnum_affine. }
  split; [done|]. split.
  - intros b m h w Hb Hh Hw Hm ->. rewrite Hform by lia.
    rewrite (tget_wf current_depth) by (rewrite ?Hs; solve_in_bounds || done).
    rewrite (all_finite_tnth_any current_depth _ Hfin) at 2.
    do 2 f_equal. replace (Z.of_nat (2 * m)) with (Z.of_nat m + Z.of_nat m)%Z by lia.
    rewrite Zq_plus, Zq_2. field. intros Hz. by apply (Zq_neq_0 2); [|rewrite Zq_2].
  - intros b d h w Hb Hd Hh Hw. do 2 eexists.
    rewrite !Hform by lia. split; [done|]. split; [done|].
    replace (Z.of_nat (S d)) with (Z.of_nat d + 1)%Z by lia.
    rewrite Zq_plus. change (Zq 1) with 1%Qc. field. by apply Zq_neq_0.
Qed.

Lemma get_depth_values_centred_witness :
  exists out,
    get_depth_values sample_depth 4 (PyFloat (Fin (Q2Qc (1 # 2)))) = Ok out /\
    tget out [1; 2; 0; 0] = tget sample_depth [1; 0; 0; 0].
Proof.
  destruct (get_depth_values_centred sample_depth 4 (Q2Qc (1 # 2)) 2 1 2)
    as (out & Hout & _ & Hmid & _); [reflexivity..|].
  exists out. split; [assumption|]. apply Hmid; lia.
Defined.

(** ** [depth_regression] *)

(** Weighted sums of values in [lo, hi], with non-negative weights, lie
    between [lo] and [hi] times the sum of the weights. *)
Lemma weighted_foldl_bounds (pq g : nat -> Qc) (lo hi : Qc) n : forall a (aw acc : Qc),
  (forall d, a <= d < a + n -> (0 <= pq d)%Qc /\ (lo <= g d)%Qc /\ (g d <= hi)%Qc) ->
  (lo * aw <= acc)%Qc -> (acc <= hi * aw)%Qc ->
  exists w s,
    foldl sadd (Fin aw) ((fun d => Fin (pq d)) <$> seq a n) = Fin w /\
    foldl sadd (Fin acc) ((fun d => smul (Fin (pq d)) (Fin (g d))) <$> seq a n) = Fin s /\
    (lo * w <= s)%Qc /\ (s <= hi * w)%Qc.
Proof.
  induction n as [|n IH]; intros a aw acc Hd Hlo Hhi.
  - by exists aw, acc.
  - cbn [seq fmap list_fmap foldl].
    destruct (Hd a) as (Hp & Hl & Hh); [lia|].
    apply (IH (S a)).
    + intros d Hr. apply Hd. lia.
    + replace (lo * (aw + pq a))%Qc with (lo * aw + lo * pq a)%Qc by ring.
      apply Qcplus_le_compat; [done|].
      rewrite (Qcmult_comm (pq a)). by apply Qcmult_le_compat_r.
    + replace (hi * (aw + pq a))%Qc with (hi * aw + hi * pq a)%Qc by ring.
      apply Qcplus_le_compat; [done|].
      rewrite (Qcmult_comm (pq a)). by apply Qcmult_le_compat_r.
Qed.

(** X5.  In exact arithmetic, where the probabilities of a pixel are
    non-negative and sum to 1, the regressed depth of that pixel lies within
    the range of its depth values. *)
Theorem depth_regression_within_range
    (p depth_values : tensor qnum) (B D H W b h w : nat) (lo hi : Qc) :
  shape p = [B; D; H; W] -> shape depth_values = [B; D; H; W] ->
  all_finite p = true -> all_finite depth_values = true ->
  b < B -> h < H -> w < W ->
  (forall d, d < D -> (0 <= qval (tnth p [b; d; h; w]))%Qc) ->
  ssum ((fun d => tnth p [b; d; h; w]) <$> seq 0 D) = of_Z 1 ->
  (forall d, d < D -> (lo <= qval (tnth depth_values [b; d; h; w]))%Qc
                      /\ (qval (tnth depth_values [b; d; h; w]) <= hi)%Qc) ->
  exists out v,
    depth_regression p depth_values = Ok out /\
    tget out [b; h; w] = Some (Fin v) /\ (lo <= v)%Qc /\ (v <= hi)%Qc.
Proof.
  intros Hp Hdv Hfp Hfd Hb Hh Hw Hpos Hsum Hrange.
  destruct (depth_regression_value p depth_values B D H W Hp) as (out & Hout & _ & _ & Hval).
  { unfold regression_shape. rewrite Hdv. cbn [length Nat.leb]. apply bshape_refl. }
  destruct (weighted_foldl_bounds (fun d => qval (tnth p [b; d; h; w]))
              (fun d => qval (tnth depth_values [b; d; h; w])) lo hi D 0 0%Qc 0%Qc)
    as (w' & s & Hw' & Hs & Hlo & Hhi).
  { intros d Hd. split; [apply Hpos; lia|]. apply Hrange. lia. }
  { replace (lo * 0)%Qc with 0%Qc by ring. apply Qcle_refl. }
  { replace (hi * 0)%Qc with 0%Qc by ring. apply Qcle_refl. }
  assert (w' = 1%Qc) as ->.
  { unfold ssum in Hsum. cbn [of_Z qnum_scalar] in Hsum.
    erewrite list_fmap_ext in Hsum;
      [|intros i d _; apply (all_finite_tnth_any p _ Hfp)].
    cbn beta in Hsum. change (Fin (Zq 0)) with (Fin 0%Qc) in Hsum.
    rewrite Hw' in Hsum. by injection Hsum. }
  exists out, s. split; [done|]. split.
  - rewrite Hval by done. f_equal. unfold ssum. rewrite <- Hs.
    change (of_Z 0) with (Fin 0%Qc). f_equal.
    apply list_fmap_ext. intros i d Hd.
    apply lookup_seq in Hd as [-> Hd].
    rewrite (depth_value_at_volume depth_values B D H W) by (done || lia).
    cbn [Nat.add].
    by rewrite (all_finite_tnth_any p _ Hfp) at 1;
       rewrite (all_finite_tnth_any depth_values _ Hfd) at 1.
  - replace (lo * 1)%Qc with lo in Hlo by ring.
    by replace (hi * 1)%Qc with hi in Hhi by ring.
Qed.

Lemma depth_regression_within_range_witness :
  exists out v,
    depth_regression (mkTensor Float32 [1; 2; 1; 1] [Qn 1 4; Qn 3 4])
                     (mkTensor Float32 [1; 2; 1; 1] [Qn 2 1; Qn 6 1]) = Ok out /\
    tget out [0; 0; 0] = Some (Fin v) /\ (Q2Qc 2 <= v)%Qc /\ (v <= Q2Qc 6)%Qc.
Proof.
  apply (depth_regression_within_range
           (mkTensor Float32 [1; 2; 1; 1] [Qn 1 4; Qn 3 4])
           (mkTensor Float32 [1; 2; 1; 1] [Qn 2 1; Qn 6 1]) 1 2 1 1 0 0 0);
    try reflexivity; try lia.
  - intros [|[|d]] Hd; [by vm_compute..|lia].
  - apply qnum_eqb_eq. reflexivity.
  - intros [|[|d]] Hd; [by vm_compute..|lia].
Defined.

(** X6.  [depth_regression] applied to the hypotheses of
    [get_depth_values]: in exact arithmetic, a probability volume that puts
    all its weight on the depth index [k] regresses to
    [current_depth + (k - n_depths/2) * interval] at every pixel. *)
Theorem depth_regression_of_depth_values
    (current_depth p : tensor qnum) (n_depths : nat) (depth_interval : Qc)
    (B H W k : nat) :
  shape current_depth = [B; 1; H; W] -> wf current_depth = true ->
  all_finite current_depth = true ->
  shape p = [B; n_depths; H; W] -> one_hot p k = true -> k < n_depths ->
  exists depth_values out,
    get_depth_values current_depth n_depths (PyFloat (Fin depth_interval))
    = Ok depth_values /\
    depth_regression p depth_values = Ok out /\
    shape out = [B; H; W] /\
    forall b h w, b < B -> h < H -> w < W ->
      tget out [b; h; w]
      = Some (Fin (qval (tnth current_depth [b; 0%nat; h; w])
                   + (Zq (Z.of_nat k) - Zq (Z.of_nat n_depths) / Zq 2)
                     * depth_interval)%Qc).
Proof.
  intros Hs Hwf Hfin Hp Hone Hk.
  destruct (get_depth_values_float current_depth n_depths (Fin depth_interval)
              B H W Hs Hwf) as (dv & Hdv & Hsh & _ & Hval).
  destruct (depth_regression_value p dv B n_depths H W Hp) as (out & Hout & Hso & _ & Hsum).
  { unfold regression_shape. rewrite Hsh. cbn [length Nat.leb]. apply bshape_refl. }
  exists dv, out. do 3 (split; [done|]).
  intros b h w Hb Hh Hw. rewrite Hsum by done. f_equal.
  rewrite <- (ssum_one_hot
    (fun d => (qval (tnth current_depth [b; 0%nat; h; w])
               + (Zq (Z.of_nat d) - Zq (Z.of_nat n_depths) / Zq 2) * depth_interval)%Qc)
    k n_depths Hk).
  f_equal. apply list_fmap_ext. intros ? d Hd.
  apply lookup_seq in Hd as [Hd' Hd]. cbn [Nat.add] in Hd'. subst d.
  rewrite (one_hot_tnth p k B n_depths H W) by done.
  rewrite (depth_value_at_volume dv B n_depths H W) by done.
  rewrite (tget_tnth _ _ _ (Hval b _ h w Hb Hd Hh Hw)).
  rewrite (all_finite_tnth_any current_depth _ Hfin) at 1.
  by rewrite qnum_affine.
Qed.

Lemma depth_regression_of_depth_values_witness :
  exists depth_values out,
    get_depth_values sample_depth 4 (PyFloat (Fin (Q2Qc (1 # 2)))) = Ok depth_values /\
    depth_regression (one_hot_tensor Float32 [2; 4; 1; 2] 3) depth_values = Ok out /\
    shape out = [2; 1; 2].
Proof.
  destruct (depth_regression_of_depth_values sample_depth
              (one_hot_tensor Float32 [2; 4; 1; 2] 3) 4 (Q2Qc (1 # 2)) 2 1 2 3)
    as (dv & out & Hdv & Hout & Hs & _); [reflexivity..|lia|].
  exists dv, out. split; [assumption|]. split; assumption.
Defined.

(** X7.  Depth values of shape (B, D), one list per batch element, pass
    the test of line 112 and are viewed as (B, D, 1, 1): every pixel of batch
    element [b] is regressed over the list [depth_values[b, :]]. *)
Theorem depth_regression_per_batch_values {K : Type} {SK : Scalar K}
    (p depth_values : tensor K) (B D H W : nat) :
  shape p = [B; D; H; W] -> shape depth_values = [B; D] ->
  exists out,
    depth_regression p depth_values = Ok out /\
    shape out = [B; H; W] /\ t_dtype out = t_dtype depth_values /\
    forall b h w, b < B -> h < H -> w < W ->
      tget out [b; h; w]
      = Some (ssum ((fun d => smul (tnth p [b; d; h; w]) (tnth depth_values [b; d]))
                      <$> seq 0 D)).
Proof.
  intros Hp Hdv.
  destruct (depth_regression_value p depth_values B D H W Hp) as (out & Hout & Hs & Hd & Hv).
  { unfold regression_shape. rewrite Hdv. cbn [length Nat.leb app]. by simpl_bshape. }
  exists out. do 3 (split; [done|]).
  intros b h w Hb Hh Hw. rewrite Hv by done. do 2 f_equal.
  apply list_fmap_ext. intros ? d Hd'. apply lookup_seq in Hd' as [E Hd'].
  cbn [Nat.add] in E. subst d. f_equal.
  unfold depth_value_at, regression_values, regression_shape. rewrite Hdv.
  cbn [length Nat.leb app]. simpl_bidx.
  apply tnth_reshaped.
  - solve_in_bounds.
  - rewrite Hdv. solve_in_bounds.
  - rewrite Hdv. cbn. lia.
Qed.

Lemma depth_regression_per_batch_values_witness :
  exists out,
    depth_regression (one_hot_tensor Float32 [2; 3; 1; 2] 1)
                     (mkTensor Float64 [2; 3]
                        [Qn 1 1; Qn 2 1; Qn 3 1; Qn 4 1; Qn 5 1; Qn 6 1]) = Ok out /\
    shape out = [2; 1; 2] /\ t_dtype out = Float64.
Proof.
  destruct (depth_regression_per_batch_values (one_hot_tensor Float32 [2; 3; 1; 2] 1)
              (mkTensor Float64 [2; 3]
                 [Qn 1 1; Qn 2 1; Qn 3 1; Qn 4 1; Qn 5 1; Qn 6 1]) 2 3 1 2)
    as (out & Hout & Hs & Hd & _); [reflexivity..|].
  exists out. split; [assumption|]. split; assumption.
Defined.

(** ** [homo_warp] *)

Lemma shift_proj_tnth (proj_mat : tensor qnum) tx ty B b i k :
  is_shift_proj proj_mat tx ty = true -> shape proj_mat = [B; 3; 4] ->
  b < B -> i < 3 -> k < 4 ->
  tnth proj_mat [b; i; k]
  = if k =? 3 then match i with 0 => Fin tx | 1 => Fin ty | _ => of_Z 0 end
    else of_Z (if i =? k then 1 else 0).
Proof.
  intros Hp Hs Hb Hi Hk. unfold is_shift_proj in Hp.
  rewrite forallb_forall in Hp. specialize (Hp [b; i; k]).
  apply qnum_eqb_eq, Hp, list_elem_of_In, indices_elem_of.
  rewrite Hs. solve_in_bounds.
Qed.

Lemma projected_shift (proj_mat depth_values : tensor qnum) tx ty B D H W b d h w i :
  is_shift_proj proj_mat tx ty = true -> shape proj_mat = [B; 3; 4] ->
  all_positive depth_values = true -> wf depth_values = true ->
  shape depth_values = [B; D; H; W] ->
  b < B -> d < D -> h < H -> w < W -> i < 3 ->
  projected proj_mat depth_values b d h w i
  = Fin (match i with
         | 0 => Zq (Z.of_nat w) + tx / qval (tnth depth_values [b; d; h; w])
         | 1 => Zq (Z.of_nat h) + ty / qval (tnth depth_values [b; d; h; w])
         | _ => 1
         end)%Qc.
Proof.
  intros Hp Hsp Hpos Hwf Hsd Hb Hd Hh Hw Hi. unfold projected.
  destruct (all_positive_tnth depth_values [b; d; h; w] Hpos Hwf) as (q & -> & Hq).
  { rewrite Hsd. solve_in_bounds. }
  cbn [seq fmap list_fmap]. rewrite !(shift_proj_tnth proj_mat tx ty B) by (done || lia).
  cbn [Nat.eqb qval]. unfold ssum. cbn [foldl].
  change (of_Z ?z) with (Fin (Zq z)).
  destruct i as [|[|[|i]]]; [| | |lia]; cbn [Nat.eqb];
    rewrite qnum_div_Fin by done; cbn [sadd smul qnum_scalar qnum_lift2]; f_equal;
    change (Zq 0) with 0%Qc; change (Zq 1) with 1%Qc; field; done.
Qed.

(** Sampling at integer pixel coordinates of a finite image: the pixel
    itself when it lies in the image, 0 otherwise. *)
Lemma bilinear_at_integer (input : tensor qnum) B C H W b c (ix iy : Z) x y :
  shape input = [B; C; H; W] -> all_finite input = true ->
  unnormalize x W = Fin (Zq ix) -> unnormalize y H = Fin (Zq iy) ->
  bilinear input b c x y
  = if within_bounds_2d iy ix H W
    then tnth input [b; c; Z.to_nat iy; Z.to_nat ix]
    else of_Z 0.
Proof.
  intros Hs Hfin Hx Hy. unfold bilinear. rewrite Hs, Hx, Hy.
  cbn [sfloor qnum_scalar qnum_floor]. rewrite !Qfloor_Zq. cbv zeta.
  change (of_Z ?z) with (Fin (Zq z)).
  cbn [ssub smul sadd qnum_scalar qnum_lift2].
  rewrite !Zq_succ_minus.
  replace (Zq ix - Zq ix)%Qc with 0%Qc by ring.
  replace (Zq iy - Zq iy)%Qc with 0%Qc by ring.
  replace (1 * 1)%Qc with 1%Qc by ring.
  replace (0 * 1)%Qc with 0%Qc by ring.
  replace (1 * 0)%Qc with 0%Qc by ring.
  replace (0 * 0)%Qc with 0%Qc by ring.
  repeat match goal with
         | |- context [tnth input ?idx] =>
             let E := fresh "E" in
             pose proof (all_finite_tnth_any input idx Hfin) as E;
             destruct (tnth input idx); [clear E|discriminate E]
         end.
  destruct (within_bounds_2d (iy + 1) (ix + 1) H W),
    (within_bounds_2d (iy + 1) ix H W),
    (within_bounds_2d iy (ix + 1) H W),
    (within_bounds_2d iy ix H W);
    cbn [qnum_lift2]; f_equal; change (Zq 0) with 0%Qc; ring.
Qed.

Lemma unnormalize_normalized_at n (q : Qc) :
  2 <= n ->
  unnormalize (ssub (sdiv (sdiv (Fin q) (Fin 1%Qc))
                          (sdiv (of_Z (Z.of_nat n - 1)) (of_Z 2)))
                    (of_Z 1)) n
  = Fin q.
Proof.
  intros Hn. unfold unnormalize. change (of_Z ?z) with (Fin (Zq z)).
  pose proof (Zq_neq_0 (Z.of_nat n - 1) ltac:(lia)) as Ha.
  pose proof (Zq_neq_0 1 ltac:(lia)) as H1.
  pose proof (Zq_neq_0 2 ltac:(lia)) as H2.
  pose proof (half_size_neq_0 n Hn) as Hh.
  change (Zq 1) with 1%Qc in *.
  rewrite !qnum_div_Fin by done. cbn [ssub sadd qnum_scalar qnum_lift2].
  rewrite qnum_div_Fin by done. cbn [smul qnum_scalar qnum_lift2]. f_equal.
  field. split; [done|]. split; [done|done].
Qed.

(** X8.  In exact arithmetic, a projection with identity rotation and
    translation (tx, ty, 0) that moves a reference pixel by whole pixels
    (tx / depth = dx and ty / depth = dy, integers) copies the source pixel
    (h + dy, w + dx) when it lies in the image and gives 0 when it does
    not.  The arguments are those the call accepts: a float32 [proj_mat],
    contiguous [depth_values] and a [src_feat] of the sampling grid's
    dtype. *)
Theorem homo_warp_pixel_shift
    (src_feat proj_mat depth_values : tensor qnum) (tx ty : Qc) (B C D H W : nat) :
  shape src_feat = [B; C; H; W] -> all_finite src_feat = true ->
  shape proj_mat = [B; 3; 4] -> is_shift_proj proj_mat tx ty = true ->
  shape depth_values = [B; D; H; W] -> wf depth_values = true ->
  all_positive depth_values = true ->
  2 <= H -> 2 <= W ->
  t_dtype proj_mat = Float32 -> is_contiguous depth_values = true ->
  t_dtype src_feat = promote Float32 (t_dtype depth_values) ->
  exists out,
    homo_warp src_feat proj_mat depth_values = Ok out /\
    shape out = [B; C; D; H; W] /\
    forall b c d h w (dx dy : Z), b < B -> c < C -> d < D -> h < H -> w < W ->
      (tx / qval (tnth depth_values [b; d; h; w]) = Zq dx)%Qc ->
      (ty / qval (tnth depth_values [b; d; h; w]) = Zq dy)%Qc ->
      tget out [b; c; d; h; w]
      = Some (if within_bounds_2d (Z.of_nat h + dy) (Z.of_nat w + dx) H W
              then tnth src_feat [b; c; Z.to_nat (Z.of_nat h + dy);
                                  Z.to_nat (Z.of_nat w + dx)]
              else of_Z 0).
Proof.
  intros Hs Hfin Hsp Hid Hsd Hwfd Hpos HH HW Hdp Hcont Hds.
  destruct (homo_warp_value src_feat proj_mat depth_values B C D H W Hs Hsp Hsd)
    as (out & Hout & Hso & Hvo); [lia|lia|done|done|done|].
  exists out. split; [done|]. split; [done|].
  intros b c d h w dx dy Hb Hc Hd Hh Hw Hdx Hdy. rewrite Hvo by done.
  f_equal. apply (bilinear_at_integer src_feat B C H W); try done.
  - unfold normalized.
    rewrite !(projected_shift proj_mat depth_values tx ty B D H W) by (done || lia).
    rewrite Hdx, <- Zq_plus. by apply unnormalize_normalized_at.
  - unfold normalized.
    rewrite !(projected_shift proj_mat depth_values tx ty B D H W) by (done || lia).
    rewrite Hdy, <- Zq_plus. by apply unnormalize_normalized_at.
Qed.

Lemma homo_warp_pixel_shift_witness :
  exists out,
    homo_warp sample_image (proj_shift (Qn 2 1) (Qn 0 1))
              (full Float32 [1; 1; 2; 2] (Qn 2 1)) = Ok out /\
    tget out [0; 0; 0; 1; 0] = Some (Qn 4 1) /\
    tget out [0; 0; 0; 1; 1] = Some (Qn 0 1).
Proof.
  destruct (homo_warp_pixel_shift sample_image (proj_shift (Qn 2 1) (Qn 0 1))
              (full Float32 [1; 1; 2; 2] (Qn 2 1)) (Q2Qc 2) (Q2Qc 0) 1 1 1 2 2)
    as (out & Hout & _ & Hv);
    [reflexivity|reflexivity|reflexivity|reflexivity|reflexivity|reflexivity|
     reflexivity|lia|lia|reflexivity|reflexivity|reflexivity|].
  exists out. split; [assumption|]. split.
  - rewrite (Hv 0 0 0 1 0 1%Z 0%Z) by (lia || (by apply Qc_is_canon)).
    reflexivity.
  - rewrite (Hv 0 0 0 1 1 1%Z 0%Z) by (lia || (by apply Qc_is_canon)).
    reflexivity.
Defined.

Lemma Qc_is_zero_0 (q : Qc) : Qc_is_zero q = false -> q ≠ 0%Qc.
Proof. intros Hq ->. by vm_compute in Hq. Qed.

Lemma Qc_is_zero_mult (k q : Qc) : k ≠ 0%Qc -> Qc_is_zero (k * q) = Qc_is_zero q.
Proof.
  intros Hk. destruct (Qc_is_zero q) eqn:Hq.
  - apply Qc_is_zero_true in Hq as ->. by replace (k * 0)%Qc with 0%Qc by ring.
  - apply Qc_is_zero_neq. intros [E|E]%Qcmult_integral; [done|].
    by apply (Qc_is_zero_0 q).
Qed.

Lemma projected_scaled (proj_mat depth_values : tensor qnum) (k : Qc) B b d h w i :
  shape proj_mat = [B; 3; 4] -> wf proj_mat = true -> b < B -> i < 3 ->
  projected (tmap (smul (Fin k)) proj_mat) depth_values b d h w i
  = smul (Fin k) (projected proj_mat depth_values b d h w i).
Proof.
  intros Hs Hwf Hb Hi. unfold projected. cbn [seq fmap list_fmap].
  rewrite !tnth_tmap by (done || (rewrite Hs; solve_in_bounds)).
  unfold ssum. cbn [foldl]. change (of_Z ?z) with (Fin (Zq z)).
  destruct (tnth proj_mat [b; i; 0]) as [p0|], (tnth proj_mat [b; i; 1]) as [p1|],
    (tnth proj_mat [b; i; 2]) as [p2|], (tnth proj_mat [b; i; 3]) as [p3|],
    (tnth depth_values [b; d; h; w]) as [z|];
    cbn [sadd smul sdiv qnum_scalar qnum_lift2 qnum_div]; try done;
    destruct (Qc_is_zero z) eqn:Hz; cbn [qnum_lift2]; try done.
  f_equal. change (Zq 0) with 0%Qc. field. by apply Qc_is_zero_0.
Qed.

Lemma normalized_scaled (proj_mat depth_values : tensor qnum) (k : Qc) B H W b d h w c :
  shape proj_mat = [B; 3; 4] -> wf proj_mat = true -> b < B -> c < 2 -> k ≠ 0%Qc ->
  normalized (tmap (smul (Fin k)) proj_mat) depth_values H W b d h w c
  = normalized proj_mat depth_values H W b d h w c.
Proof.
  intros Hs Hwf Hb Hc Hk. unfold normalized.
  rewrite !(projected_scaled proj_mat depth_values k B) by (done || lia).
  f_equal. f_equal.
  destruct (projected proj_mat depth_values b d h w c) as [x|],
    (projected proj_mat depth_values b d h w 2) as [z|];
    cbn [smul sdiv qnum_scalar qnum_lift2 qnum_div]; try done.
  rewrite Qc_is_zero_mult by done.
  destruct (Qc_is_zero z) eqn:Hz; [done|]. f_equal. field.
  split; [by apply Qc_is_zero_0|done].
Qed.

(** X9.  In exact arithmetic the warp depends on the projection matrix
    only up to scale: multiplying [proj_mat] by a non-zero number changes no
    entry of the result.  The arguments are those the call accepts: a
    float32 [proj_mat], contiguous [depth_values] and a [src_feat] of the
    sampling grid's dtype. *)
Theorem homo_warp_scale_invariant
    (src_feat proj_mat depth_values : tensor qnum) (k : Qc) (B C D H W : nat) :
  shape src_feat = [B; C; H; W] -> shape proj_mat = [B; 3; 4] -> wf proj_mat = true ->
  shape depth_values = [B; D; H; W] -> 0 < H -> 0 < W -> k ≠ 0%Qc ->
  t_dtype proj_mat = Float32 -> is_contiguous depth_values = true ->
  t_dtype src_feat = promote Float32 (t_dtype depth_values) ->
  exists out out',
    homo_warp src_feat (tmap (smul (Fin k)) proj_mat) depth_values = Ok out /\
    homo_warp src_feat proj_mat depth_values = Ok out' /\
    shape out = [B; C; D; H; W] /\ shape out' = [B; C; D; H; W] /\
    forall b c d h w, b < B -> c < C -> d < D -> h < H -> w < W ->
      tget out [b; c; d; h; w] = tget out' [b; c; d; h; w].
Proof.
  intros Hs Hsp Hwf Hsd HH HW Hk Hdp Hcont Hds.
  destruct (homo_warp_value src_feat (tmap (smul (Fin k)) proj_mat) depth_values
              B C D H W Hs Hsp Hsd HH HW Hdp Hcont Hds) as (out & Hout & Hso & Hvo).
  destruct (homo_warp_value src_feat proj_mat depth_values
              B C D H W Hs Hsp Hsd HH HW Hdp Hcont Hds) as (out' & Hout' & Hso' & Hvo').
  exists out, out'. do 4 (split; [done|]).
  intros b c d h w Hb Hc Hd Hh Hw. rewrite Hvo, Hvo' by done.
  by rewrite !(normalized_scaled proj_mat depth_values k B) by (done || lia).
Qed.

Lemma homo_warp_scale_invariant_witness :
  exists out out',
    homo_warp sample_image
      (tmap (smul (Fin (Q2Qc 3))) (proj_shift (Qn 1 2) (Qn 0 1)))
      (full Float32 [1; 1; 2; 2] (Qn 5 1)) = Ok out /\
    homo_warp sample_image (proj_shift (Qn 1 2) (Qn 0 1))
      (full Float32 [1; 1; 2; 2] (Qn 5 1)) = Ok out' /\
    tget out [0; 0; 0; 0; 0] = tget out' [0; 0; 0; 0; 0].
Proof.
  destruct (homo_warp_scale_invariant sample_image (proj_shift (Qn 1 2) (Qn 0 1))
              (full Float32 [1; 1; 2; 2] (Qn 5 1)) (Q2Qc 3) 1 1 1 2 2)
    as (out & out' & Hout & Hout' & _ & _ & Hv);
    [reflexivity|reflexivity|reflexivity|reflexivity|lia|lia|
     by intros E; apply (f_equal this) in E|reflexivity|reflexivity|reflexivity|].
  exists out, out'. split; [assumption|]. split; [assumption|].
  apply Hv; lia.
Defined.

Section WarpErrors.
Context {K : Type} {SK : Scalar K}.

(** Line 89 with depth values of the wrong size: [R @ ref_grid_d] raises
    when the dtypes differ, and the [view] raises when they agree. *)
Lemma homo_warp_project_size_mismatch B H W D (R T g depth_values : tensor K) :
  shape R = [B; 3; 3] -> shape g = [B; 3; D * H * W] ->
  numel (shape depth_values) <> B * (D * H * W) ->
  homo_warp_project B H W D R T g depth_values = Raise RuntimeError.
Proof.
  intros HsR Hsg Hne. unfold homo_warp_project.
  unfold matmul, ndim. rewrite HsR, Hsg. cbn [length Nat.sub drop take Nat.eqb].
  destruct (dtype_eqb (t_dtype R) (t_dtype g)); [|done].
  simpl_bshape. cbn [length app mbind result_bind andb].
  unfold view, reshape. rewrite infer_size_nat.
  replace (numel (shape depth_values) =? numel [B; 1; D * H * W]) with false; [done|].
  symmetry. apply Nat.eqb_neq. cbn. lia.
Qed.

Lemma homo_warp_size_mismatch (src_feat proj_mat depth_values : tensor K) B C D H W :
  shape src_feat = [B; C; H; W] -> shape proj_mat = [B; 3; 4] ->
  shape depth_values !! 1 = Some D ->
  numel (shape depth_values) <> B * (D * H * W) ->
  homo_warp src_feat proj_mat depth_values = Raise RuntimeError.
Proof.
  intros Hs Hsp HD Hne. unfold homo_warp, unpack4, shape_at. rewrite Hs, HD.
  cbn [mbind result_bind]. unfold homo_warp_grid.
  rewrite (slice_eq 2 0 (Some 3%Z) proj_mat 4) by (by rewrite Hsp).
  cbn [mbind result_bind].
  rewrite (slice_eq 2 3 None proj_mat 4) by (by rewrite Hsp).
  cbn [mbind result_bind].
  destruct (homo_warp_ref_grid_value (K:=K) B H W D) as (g & -> & Hsg & _ & _).
  cbn [mbind result_bind].
  rewrite homo_warp_project_size_mismatch; [done| |done|done].
  rewrite shape_tabulate, Hsp. reflexivity.
Qed.

End WarpErrors.

(** X10.  What [homo_warp] rejects: a source map that is not of rank 4
    fails the unpacking of line 75 (ValueError); depth values of rank below 2
    fail [shape[1]] of line 76 (IndexError); depth values whose number of
    entries is not B*D*H*W fail the [view] of line 89 (RuntimeError). *)
Theorem homo_warp_rejects_malformed_inputs {K : Type} {SK : Scalar K}
    (src_feat proj_mat depth_values : tensor K) :
  (length (shape src_feat) <> 4 ->
   homo_warp src_feat proj_mat depth_values = Raise ValueError)
  /\ (length (shape src_feat) = 4 -> length (shape depth_values) <= 1 ->
      homo_warp src_feat proj_mat depth_values = Raise IndexError)
  /\ (forall B C D H W,
        shape src_feat = [B; C; H; W] -> shape proj_mat = [B; 3; 4] ->
        shape depth_values !! 1 = Some D ->
        numel (shape depth_values) <> B * (D * H * W) ->
        homo_warp src_feat proj_mat depth_values = Raise RuntimeError).
Proof.
  split; [|split].
  - intros Hl. unfold homo_warp, unpack4.
    by destruct (shape src_feat) as [|? [|? [|? [|? [|? ?]]]]].
  - intros Hl Hd. unfold homo_warp, unpack4, shape_at.
    destruct (shape src_feat) as [|? [|? [|? [|? [|? ?]]]]]; try done.
    by destruct (shape depth_values) as [|? [|? ?]]; [| |cbn in Hd; lia].
  - intros B C D H W. apply homo_warp_size_mismatch.
Qed.

Lemma homo_warp_rejects_malformed_inputs_witness :
  homo_warp (full Float32 [2; 2] (Qn 1 1)) (proj_shift (Qn 0 1) (Qn 0 1))
            (full Float32 [1; 1; 2; 2] (Qn 1 1)) = Raise ValueError
  /\ homo_warp (full Float32 [1; 1; 2; 2] (Qn 1 1)) (proj_shift (Qn 0 1) (Qn 0 1))
               (full Float32 [4] (Qn 1 1)) = Raise IndexError
  /\ homo_warp (full Float32 [1; 1; 2; 2] (Qn 1 1)) (proj_shift (Qn 0 1) (Qn 0 1))
               (full Float32 [1; 1; 3; 3] (Qn 1 1)) = Raise RuntimeError.
Proof.
  split; [|split].
  - apply (proj1 (homo_warp_rejects_malformed_inputs _ _ _)). cbn. lia.
  - apply (proj1 (proj2 (homo_warp_rejects_malformed_inputs _ _ _))); cbn; lia.
  - apply (proj2 (proj2 (homo_warp_rejects_malformed_inputs _ _ _)) 1 1 1 2 2);
      try reflexivity.
    cbn. lia.
Defined.

Lemma qnum_add_undef (x : qnum) : sadd x Undef = Undef.
Proof. by destruct x. Qed.

Lemma bilinear_undef (input : tensor qnum) B C H W b c :
  shape input = [B; C; H; W] -> bilinear input b c Undef Undef = Undef.
Proof. intros Hs. unfold bilinear. by rewrite Hs. Qed.

(** X11.  A depth value 0 is not rejected: the call returns, the division
    of line 89 leaves both sampling coordinates of that pixel undefined, and
    so is the warped value in every channel.  The arguments are those the
    call accepts: a float32 [proj_mat], contiguous [depth_values] and a
    [src_feat] of the sampling grid's dtype. *)
Theorem homo_warp_zero_depth
    (src_feat proj_mat depth_values : tensor qnum) (B C D H W b d h w : nat) :
  shape src_feat = [B; C; H; W] -> shape proj_mat = [B; 3; 4] ->
  shape depth_values = [B; D; H; W] -> 0 < H -> 0 < W ->
  b < B -> d < D -> h < H -> w < W ->
  t_dtype proj_mat = Float32 -> is_contiguous depth_values = true ->
  t_dtype src_feat = promote Float32 (t_dtype depth_values) ->
  tnth depth_values [b; d; h; w] = of_Z 0 ->
  exists grid out,
    homo_warp_grid B H W D proj_mat depth_values = Ok grid /\
    tnth grid [b; d; h * W + w; 0] = Undef /\
    tnth grid [b; d; h * W + w; 1] = Undef /\
    homo_warp src_feat proj_mat depth_values = Ok out /\
    forall c, c < C -> tget out [b; c; d; h; w] = Some Undef.
Proof.
  intros Hs Hsp Hsd HH HW Hb Hd Hh Hw Hdp Hcont Hds Hz.
  assert (Hn : forall c, normalized proj_mat depth_values H W b d h w c = Undef).
  { intros c. unfold normalized, projected. rewrite Hz.
    assert (forall x : qnum, sdiv x (of_Z 0) = Undef) as -> by (by intros [x|]).
    by rewrite !qnum_add_undef. }
  destruct (homo_warp_grid_value B H W D proj_mat depth_values Hsp Hsd Hdp Hcont)
    as (grid & Hgrid & _ & _ & Hvg).
  destruct (homo_warp_value src_feat proj_mat depth_values B C D H W
              Hs Hsp Hsd HH HW Hdp Hcont Hds)
    as (out & Hout & _ & Hvo).
  exists grid, out. split; [done|].
  rewrite !Hvg, !Hn by (done || lia). do 3 (split; [done|]).
  intros c Hc. rewrite Hvo, !Hn by done. f_equal.
  by apply (bilinear_undef src_feat B C H W).
Qed.

Lemma homo_warp_zero_depth_witness :
  exists grid out,
    homo_warp_grid 1 2 2 1 (proj_shift (Qn 1 2) (Qn 0 1))
      (full Float32 [1; 1; 2; 2] (Qn 0 1)) = Ok grid /\
    homo_warp sample_image (proj_shift (Qn 1 2) (Qn 0 1))
      (full Float32 [1; 1; 2; 2] (Qn 0 1)) = Ok out /\
    tget out [0; 0; 0; 1; 1] = Some Undef.
Proof.
  destruct (homo_warp_zero_depth sample_image (proj_shift (Qn 1 2) (Qn 0 1))
              (full Float32 [1; 1; 2; 2] (Qn 0 1)) 1 1 1 2 2 0 0 1 1)
    as (grid & out & Hgrid & _ & _ & Hout & Hv);
    [reflexivity|reflexivity|reflexivity|lia|lia|lia|lia|lia|lia|
     reflexivity|reflexivity|reflexivity|apply qnum_eqb_eq; reflexivity|].
  exists grid, out. split; [assumption|]. split; [assumption|]. apply Hv. lia.
Defined.

Lemma projected_rotation (proj_mat depth_values : tensor qnum) B D H W b d h w i :
  shape depth_values = [B; D; H; W] -> wf depth_values = true ->
  all_positive depth_values = true ->
  tnth proj_mat [b; i; 3] = of_Z 0 ->
  b < B -> d < D -> h < H -> w < W ->
  projected proj_mat depth_values b d h w i
  = sadd (ssum ((fun k => smul (tnth proj_mat [b; i; k])
                               (of_Z (Z.of_nat (match k with 0 => w | 1 => h | _ => 1 end))))
                  <$> seq 0 3))
         (Fin 0%Qc).
Proof.
  intros Hsd Hwf Hpos Hz Hb Hd Hh Hw. unfold projected. rewrite Hz.
  destruct (all_positive_tnth depth_values [b; d; h; w] Hpos Hwf) as (q & -> & Hq).
  { rewrite Hsd. solve_in_bounds. }
  f_equal. cbn [of_Z qnum_scalar]. rewrite qnum_div_Fin by done. f_equal.
  change (Zq 0) with 0%Qc. by field.
Qed.

(** X12.  In exact arithmetic a projection without translation (a pure
    rotation) warps independently of the depth: every depth slice of the
    result is the same, whatever positive depth values are given.  The
    arguments are those the call accepts: a float32 [proj_mat], contiguous
    depth values of one dtype and a [src_feat] of the sampling grid's
    dtype. *)
Theorem homo_warp_rotation_ignores_depth
    (src_feat proj_mat depth_values depth_values' : tensor qnum) (B C D H W : nat) :
  shape src_feat = [B; C; H; W] -> shape proj_mat = [B; 3; 4] ->
  shape depth_values = [B; D; H; W] -> wf depth_values = true ->
  all_positive depth_values = true ->
  shape depth_values' = [B; D; H; W] -> wf depth_values' = true ->
  all_positive depth_values' = true ->
  0 < H -> 0 < W ->
  t_dtype proj_mat = Float32 ->
  is_contiguous depth_values = true -> is_contiguous depth_values' = true ->
  t_dtype src_feat = promote Float32 (t_dtype depth_values) ->
  t_dtype depth_values' = t_dtype depth_values ->
  (forall b i, b < B -> i < 3 -> tnth proj_mat [b; i; 3] = of_Z 0) ->
  exists out out',
    homo_warp src_feat proj_mat depth_values = Ok out /\
    homo_warp src_feat proj_mat depth_values' = Ok out' /\
    forall b c d d' h w, b < B -> c < C -> d < D -> d' < D -> h < H -> w < W ->
      tget out [b; c; d; h; w] = tget out' [b; c; d'; h; w].
Proof.
  intros Hs Hsp Hsd Hwf Hpos Hsd' Hwf' Hpos' HH HW Hdp Hcont Hcont' Hds Hdd Hz.
  destruct (homo_warp_value src_feat proj_mat depth_values B C D H W
              Hs Hsp Hsd HH HW Hdp Hcont Hds)
    as (out & Hout & _ & Hvo).
  destruct (homo_warp_value src_feat proj_mat depth_values' B C D H W
              Hs Hsp Hsd' HH HW Hdp Hcont')
    as (out' & Hout' & _ & Hvo'); [by rewrite Hdd|].
  exists out, out'. do 2 (split; [done|]).
  intros b c d d' h w Hb Hc Hd Hd' Hh Hw. rewrite Hvo, Hvo' by done.
  unfold normalized.
  rewrite !(projected_rotation proj_mat depth_values B D H W b d h w)
    by (done || apply Hz; lia).
  by rewrite !(projected_rotation proj_mat depth_values' B D H W b d' h w)
    by (done || apply Hz; lia).
Qed.

Lemma homo_warp_rotation_ignores_depth_witness :
  exists out out',
    homo_warp sample_image (proj_shift (Qn 0 1) (Qn 0 1))
      (mkTensor Float32 [1; 2; 2; 2]
         [Qn 1 1; Qn 2 1; Qn 3 1; Qn 4 1; Qn 5 1; Qn 6 1; Qn 7 1; Qn 8 1]) = Ok out /\
    homo_warp sample_image (proj_shift (Qn 0 1) (Qn 0 1))
      (full Float32 [1; 2; 2; 2] (Qn 9 1)) = Ok out' /\
    tget out [0; 0; 0; 1; 0] = tget out' [0; 0; 1; 1; 0].
Proof.
  destruct (homo_warp_rotation_ignores_depth sample_image (proj_shift (Qn 0 1) (Qn 0 1))
              (mkTensor Float32 [1; 2; 2; 2]
                 [Qn 1 1; Qn 2 1; Qn 3 1; Qn 4 1; Qn 5 1; Qn 6 1; Qn 7 1; Qn 8 1])
              (full Float32 [1; 2; 2; 2] (Qn 9 1)) 1 1 2 2 2)
    as (out & out' & Hout & Hout' & Hv);
    [reflexivity|reflexivity|reflexivity|reflexivity|reflexivity|reflexivity|
     reflexivity|reflexivity|lia|lia|reflexivity|reflexivity|reflexivity|
     reflexivity|reflexivity| |].
  - intros [|b] [|[|[|i]]] Hb Hi; try lia; apply qnum_eqb_eq; reflexivity.
  - exists out, out'. split; [assumption|]. split; [assumption|]. apply Hv; lia.
Defined.

Section ResultStorage.
Context {K : Type} {SK : Scalar K}.

(** The tensor object that [homo_warp_st] returns lives in a storage
    created by the call. *)
Lemma homo_warp_st_result_local n (src_feat proj_mat depth_values : handle) :
  preserves (K:=K) n (homo_warp_st src_feat proj_mat depth_values) (local n).
Proof.
  unfold homo_warp_st.
  frame_step; intros s _.
  frame_step; intros [[[B C] H] W] _.
  repeat (frame_step; intros ? ?).
  apply preserves_ret. unfold local in *. cbn [h_loc]. assumption.
Qed.

End ResultStorage.

(** X13.  The tensor that [homo_warp] returns shares no storage with a
    tensor that exists before the call: it is a view of the sampler's
    result, which the call allocates. *)
Theorem homo_warp_returns_new_storage {K : Type} {SK : Scalar K}
    (σ : list (tensor K)) (src_feat proj_mat depth_values out : handle) :
  (homo_warp_st src_feat proj_mat depth_values σ).1 = Ok out ->
  length σ <= h_loc out
  /\ forall h, h_loc h < length σ -> h_loc h <> h_loc out.
Proof.
  intros Hout.
  destruct (homo_warp_st_result_local (length σ) src_feat proj_mat depth_values σ)
    as (_ & _ & Hl); [done|].
  specialize (Hl out Hout). unfold local in Hl. split; [done|]. intros h Hh. lia.
Qed.

Lemma homo_warp_returns_new_storage_witness :
  exists out,
    (homo_warp_st (mkHandle 0 []) (mkHandle 1 []) (mkHandle 2 []) sample_heap).1 = Ok out /\
    length sample_heap <= h_loc out.
Proof.
  exists (mkHandle 14 [VView (Z.of_nat <$> [1; 1; 3; 2; 2])]).
  assert ((homo_warp_st (mkHandle 0 []) (mkHandle 1 []) (mkHandle 2 []) sample_heap).1
          = Ok (mkHandle 14 [VView (Z.of_nat <$> [1; 1; 3; 2; 2])])) as Hout
    by (vm_compute; reflexivity).
  split; [exact Hout|].
  exact (proj1 (homo_warp_returns_new_storage sample_heap
                  (mkHandle 0 []) (mkHandle 1 []) (mkHandle 2 []) _ Hout)).
Defined.

(** ** The convolution blocks *)





Section BlockShapes.
Context {K : Type} {SK : Scalar K} {NA : NormAct K}.



(** X16.  An input whose channel count is not the [in_channels] the block
    was built with is rejected with torch's RuntimeError, by [ConvBnReLU],
    by [ConvBnReLU3D] and by [AttentionBranch]. *)
Theorem blocks_reject_wrong_channels
    (in_channels out_channels kernel_size stride' pad : nat) (w w1 w2 : list nat -> K)
    (x : tensor K) :
  (forall B C H W, shape x = [B; C; H; W] -> C <> in_channels ->
     Block2D.ConvBnReLU_forward
       (Block2D.ConvBnReLU_init in_channels out_channels kernel_size stride' pad w) x
     = Raise RuntimeError)
  /\ (forall B C D H W, shape x = [B; C; D; H; W] -> C <> in_channels ->
        ConvBnReLU3D_forward
          (ConvBnReLU3D_init in_channels out_channels kernel_size stride' pad w) x
        = Raise RuntimeError
        /\ AttentionBranch_forward (AttentionBranch_init in_channels w1 w2) x
           = Raise RuntimeError).
Proof.
  split.
  - intros B C H W Hx Hc.
    unfold Block2D.ConvBnReLU_forward, Block2D.ConvBnReLU_init, Block2D.Conv2d_init,
      Block2D.Conv2d_forward.
    cbn [Block2D.conv Block2D.bn Block2D.weight Block2D.stride Block2D.padding].
    rewrite !shape_tabulate, Hx.
    by replace (C =? in_channels) with false by (symmetry; by apply Nat.eqb_neq).
  - intros B C D H W Hx Hc.
    assert (forall o k s p v,
              ConvBnReLU3D_forward (ConvBnReLU3D_init in_channels o k s p v) x
              = Raise RuntimeError) as Hblock.
    { intros o k s p v.
      unfold ConvBnReLU3D_forward, ConvBnReLU3D_init, Conv3d_init, Conv3d_forward.
      cbn [conv bn weight stride padding].
      rewrite !shape_tabulate, Hx.
      by replace (C =? in_channels) with false by (symmetry; by apply Nat.eqb_neq). }
    split; [apply Hblock|].
    unfold AttentionBranch_forward, attention_map, AttentionBranch_init.
    cbn [conv1 conv2]. by rewrite Hblock.
Qed.


End BlockShapes.



Lemma blocks_reject_wrong_channels_witness :
  Block2D.ConvBnReLU_forward
    (Block2D.ConvBnReLU_init (NA:=identity_norm_act) 3 2 3 1 1 (fun _ => Qn 1 1))
    sample_image = Raise RuntimeError
  /\ ConvBnReLU3D_forward
       (ConvBnReLU3D_init (NA:=identity_norm_act) 3 2 3 1 1 (fun _ => Qn 1 1))
       sample_volume = Raise RuntimeError
  /\ AttentionBranch_forward
       (AttentionBranch_init (NA:=identity_norm_act) 3 (fun _ => Qn 1 1) (fun _ => Qn 1 1))
       sample_volume = Raise RuntimeError.
Proof.
  split.
  - apply (proj1 (blocks_reject_wrong_channels (NA:=identity_norm_act) 3 2 3 1 1
                    (fun _ => Qn 1 1) (fun _ => Qn 1 1) (fun _ => Qn 1 1) sample_image)
             1 1 2 2); [reflexivity|lia].
  - apply (proj2 (blocks_reject_wrong_channels (NA:=identity_norm_act) 3 2 3 1 1
                    (fun _ => Qn 1 1) (fun _ => Qn 1 1) (fun _ => Qn 1 1) sample_volume)
             1 2 1 1 2); [reflexivity|lia].
Defined.


(** ** No bias *)






(** ** [AttentionBranch] with an entrywise normalization *)

Section Voxelwise.
Context {K : Type} {SK : Scalar K} {NA : NormAct K}.



End Voxelwise.

